(** * metarelations: a shallow embedding of the mail-metadata pipeline

The Python sources embedded here are
- [src/features.py]      (per-sender feature aggregation),
- [src/persistence.py]   (composite metric, connected components),
- [src/mailanalysis.py]  (header normalisation and thresholding).

Conventions.
- A Python [dict] is an association list in insertion order with
  unique keys: iteration order is observable in the source.
- Python [int] is [Z].  A Python [float] that is only compared,
  added or divided is read as the rational or real number it denotes.
- A raised exception is a [Raise] result; code that mutates an object
  it was handed returns the new content of that object next to its
  result. *)

From Stdlib Require Import List ZArith QArith Qabs Reals Lra Lia Bool Arith.
From Stdlib Require Import String Ascii Permutation Relations.
Import ListNotations.

Set Implicit Arguments.

Local Open Scope string_scope.
Local Open Scope list_scope.
Local Open Scope Z_scope.

(* ================================================================== *)
(** * Part I: definitions *)
(* ================================================================== *)

(** ** Exceptions and results *)

Inductive exn : Type :=
| ValueError          (* strptime mismatch, bad unpacking, non-square graph *)
| ZeroDivisionError   (* division by an empty list's length *)
| IndexError          (* list index out of range *)
| TypeError           (* wrong number of constructor arguments *)
| ConsistencyError.   (* the bare [Exception] of obtain_connected_components *)

Inductive result (A : Type) : Type :=
| Ok (a : A)
| Raise (e : exn).

Arguments Ok {A} a.
Arguments Raise {A} e.

Definition bind {A B} (r : result A) (k : A -> result B) : result B :=
  match r with
  | Ok a => k a
  | Raise e => Raise e
  end.

Notation "x <- r ;; k" := (bind r (fun x => k))
  (at level 61, r at next level, right associativity).

(** ** Insertion-ordered dictionaries *)

Module Dict.
Section WithKey.
Variable K : Type.
Variable K_eqb : K -> K -> bool.
Variable V : Type.

Definition t := list (K * V).

Fixpoint get (d : t) (k : K) : option V :=
  match d with
  | [] => None
  | (k', v) :: d' => if K_eqb k k' then Some v else get d' k
  end.

(** [d[k] = v]: overwrite in place, or append a new key at the end. *)
Fixpoint set (d : t) (k : K) (v : V) : t :=
  match d with
  | [] => [(k, v)]
  | (k', v') :: d' =>
      if K_eqb k k' then (k', v) :: d' else (k', v') :: set d' k v
  end.

Definition keys (d : t) : list K := map fst d.
Definition values (d : t) : list V := map snd d.

(** [defaultdict] read: a missing key yields the default. *)
Definition get_default (dflt : V) (d : t) (k : K) : V :=
  match get d k with
  | Some v => v
  | None => dflt
  end.
End WithKey.
End Dict.

Definition sdict (V : Type) := Dict.t string V.
Definition sget {V} (d : sdict V) (k : string) := Dict.get String.eqb d k.
Definition sset {V} (d : sdict V) (k : string) (v : V) := Dict.set String.eqb d k v.

Definition ndict (V : Type) := Dict.t nat V.
Definition nget {V} (d : ndict V) (k : nat) := Dict.get Nat.eqb d k.
Definition nset {V} (d : ndict V) (k : nat) (v : V) := Dict.set Nat.eqb d k v.

(** ** [datetime.datetime] *)

Record datetime : Type := mk_datetime {
  year : Z; month : Z; day : Z;
  hour : Z; minute : Z; second : Z
}.

(** The ranges the [datetime] constructor enforces on the time fields. *)
Definition valid_time (t : datetime) : Prop :=
  0 <= hour t < 24 /\ 0 <= minute t < 60 /\ 0 <= second t < 60.

Definition _is_leap (y : Z) : bool :=
  (y mod 4 =? 0) && (negb (y mod 100 =? 0) || (y mod 400 =? 0)).

Definition _days_before_year (y : Z) : Z :=
  let y' := y - 1 in y' * 365 + y' / 4 - y' / 100 + y' / 400.

Definition _DAYS_BEFORE_MONTH : list Z :=
  [0; 0; 31; 59; 90; 120; 151; 181; 212; 243; 273; 304; 334].

Definition _days_before_month (y m : Z) : Z :=
  nth (Z.to_nat m) _DAYS_BEFORE_MONTH 0
  + (if (2 <? m) && _is_leap y then 1 else 0).

Definition toordinal (t : datetime) : Z :=
  _days_before_year (year t) + _days_before_month (year t) (month t) + day t.

(** [datetime.weekday()]: Monday is 0, Sunday is 6. *)
Definition weekday (t : datetime) : Z := (toordinal t + 6) mod 7.

(** A timestamp on Monday, 5 June 2023, for the examples. *)
Definition at_time (h m s : Z) : datetime := mk_datetime 2023 6 5 h m s.

(** ** Python [round] of a quotient *)

(** [round(n / d)] for integers [n] and [d > 0]: the quotient rounded to the
    nearest integer, a tie going to the even neighbour. *)
Definition py_round_div (n d : Z) : Z :=
  let q := n / d in
  let r := n mod d in
  if 2 * r <? d then q
  else if d <? 2 * r then q + 1
  else if Z.even q then q else q + 1.

Definition sumZ (l : list Z) : Z := fold_left Z.add l 0.

(** ** src/features.py *)

Module Features.

Definition seconds_of_timestamp (t : datetime) : Z :=
  hour t * 3600 + minute t * 60 + second t.

(** The inner [for t in datetimes_per_sender[sender]] loop. *)
Definition add_timestamps (seconds_total : Z) (ts : list datetime) : Z :=
  fold_left (fun acc t => acc + seconds_of_timestamp t) ts seconds_total.

(** The outer [for sender in datetimes_per_sender] loop, threading the
    two variables it updates: [seconds_total], bound once before the
    loop, and the result dictionary. *)
Fixpoint average_loop (items : sdict (list datetime))
    (seconds_total : Z) (timestamps_in_seconds : sdict Z)
  : result (sdict Z) :=
  match items with
  | [] => Ok timestamps_in_seconds
  | (sender, ts) :: rest =>
      let number_of_timestamps := Z.of_nat (List.length ts) in
      let seconds_total := add_timestamps seconds_total ts in
      if number_of_timestamps =? 0 then Raise ZeroDivisionError
      else
        let seconds_average :=
          py_round_div seconds_total number_of_timestamps in
        average_loop rest seconds_total
          (sset timestamps_in_seconds sender seconds_average)
  end.

Definition average_timestamps_in_seconds
    (datetimes_per_sender : sdict (list datetime)) : result (sdict Z) :=
  average_loop datetimes_per_sender 0 [].

Fixpoint weekday_loop (items : sdict (list datetime))
    (average_weekday_per_sender : sdict Z) : result (sdict Z) :=
  match items with
  | [] => Ok average_weekday_per_sender
  | (sender, ts) :: rest =>
      let datum_count := Z.of_nat (List.length ts) in
      let weekdays := map weekday ts in
      if datum_count =? 0 then Raise ZeroDivisionError
      else
        weekday_loop rest
          (sset average_weekday_per_sender sender
             (py_round_div (sumZ weekdays) datum_count))
  end.

Definition weekday_average (datetime_per_sender : sdict (list datetime))
  : result (sdict Z) :=
  weekday_loop datetime_per_sender [].

(** What the specification asks of the first feature: the rounded mean of
    a sender's own timestamps, from a total that starts at 0 for every
    sender.  Stated from the specification, for comparison with
    [average_timestamps_in_seconds]. *)
Definition spec_sender_average (ts : list datetime) : Z :=
  py_round_div (add_timestamps 0 ts) (Z.of_nat (List.length ts)).

End Features.

(** ** src/persistence.py: the composite metric *)

(** The sub-metrics are written once in Python and run on whatever numbers
    they are handed: the integers of their docstrings, or the floats of the
    scaled feature matrix.  [Num] collects the operations they use. *)
Class Num (T : Type) : Type := {
  num_sub : T -> T -> T;          (* a - b *)
  num_abs : T -> T;               (* numpy.absolute *)
  num_mod : T -> T -> T;          (* a % b, the sign of the divisor *)
  num_min : T -> T -> T;          (* min(a, b) *)
  num_of_Z : Z -> T               (* an integer literal *)
}.

#[export] Instance Num_Z : Num Z := {
  num_sub := Z.sub;
  num_abs := Z.abs;
  num_mod := Z.modulo;
  num_min := Z.min;
  num_of_Z := fun z => z
}.

(** Floored remainder on the reals: [a - floor(a / m) * m]. *)
Definition Rfloor_mod (a m : R) : R := (a - IZR (Int_part (a / m)) * m)%R.

#[export] Instance Num_R : Num R := {
  num_sub := Rminus;
  num_abs := Rabs;
  num_mod := Rfloor_mod;
  num_min := Rmin;
  num_of_Z := IZR
}.

Module Metric.

Definition metric_mail_count {T} `{Num T} (mail_count_1 mail_count_2 : T) : T :=
  num_abs (num_sub mail_count_1 mail_count_2).

Definition seconds_per_day : Z := 24 * 60 * 60.

Definition metric_seconds {T} `{Num T} (timestamp_1 timestamp_2 : T) : T :=
  num_min (num_mod (num_sub timestamp_1 timestamp_2) (num_of_Z seconds_per_day))
          (num_mod (num_sub timestamp_2 timestamp_1) (num_of_Z seconds_per_day)).

Definition metric_weekday {T} `{Num T} (weekday_1 weekday_2 : T) : T :=
  num_abs (num_sub weekday_1 weekday_2).

(** The named tuple [Data]. *)
Record Data : Type := mk_Data { mail_count : R; seconds : R; weekday_ : R }.

(** [Data] applied to the unpacked array: exactly three positional
    arguments, a [TypeError] otherwise.  The fields are real numbers:
    [product_metric] below is the formula of the code in exact
    arithmetic, without the rounding, overflow and underflow of the
    floats the code runs on. *)
Definition Data_of_array (a : list R) : result Data :=
  match a with
  | [c; s; w] => Ok (mk_Data c s w)
  | _ => Raise TypeError
  end.

Definition product_metric (nd_array_1 nd_array_2 : list R) : result R :=
  data_1 <- Data_of_array nd_array_1 ;;
  data_2 <- Data_of_array nd_array_2 ;;
  let d_1 := metric_mail_count (mail_count data_1) (mail_count data_2) in
  let d_2 := metric_seconds (seconds data_1) (seconds data_2) in
  let d_3 := metric_weekday (weekday_ data_1) (weekday_ data_2) in
  Ok (sqrt (d_1 ^ 2 + d_2 ^ 2 + d_3 ^ 2))%R.

End Metric.

(** ** scipy.sparse.csgraph.connected_components (library) *)

Definition matrix := list (list Q).

Definition entry (m : matrix) (i j : nat) : Q := nth j (nth i m []) 0%Q.

Definition is_square (m : matrix) : bool :=
  forallb (fun row => Nat.eqb (List.length row) (List.length m)) m.

Module Csgraph.

(** A dense graph has an edge where the entry is not zero; with
    [directed=False] an edge in either direction joins its two ends. *)
Definition arc (g : matrix) (i j : nat) : bool :=
  negb (Qeq_bool (entry g i j) 0).

Definition is_edge (g : matrix) (i j : nat) : bool :=
  arc g i j || arc g j i.

(** A set of nodes of [0 .. n-1], as its characteristic vector. *)
Definition mem (s : list bool) (j : nat) : bool := nth j s false.

Definition singleton (n v : nat) : list bool := map (Nat.eqb v) (seq 0 n).

(** One round of the flood fill: add every node that has an edge from
    the set. *)
Definition expand (g : matrix) (n : nat) (s : list bool) : list bool :=
  map (fun j => mem s j
                || existsb (fun i => mem s i && is_edge g i j) (seq 0 n))
      (seq 0 n).

(** The component of [v]: [n] rounds reach every node there is. *)
Definition flood (g : matrix) (n v : nat) : list bool :=
  Nat.iter n (expand g n) (singleton n v).

(** The number of nodes in a set. *)
Definition card (s : list bool) : nat := List.length (filter (fun b => b) s).

(** An edge of the undirected graph on the nodes [0 .. n-1], and the
    relation "joined by a path of edges". *)
Definition edge (g : matrix) (n : nat) (i j : nat) : Prop :=
  (i < n)%nat /\ (j < n)%nat /\ is_edge g i j = true.

Definition joined (g : matrix) (n : nat) : nat -> nat -> Prop :=
  clos_refl_trans nat (edge g n).

Fixpoint paint (labels : list (option nat)) (s : list bool) (label : nat)
  : list (option nat) :=
  match labels, s with
  | l :: labels', b :: s' =>
      (if b then Some label else l) :: paint labels' s' label
  | _, _ => labels
  end.

(** The state of the labelling loop once the nodes below [k] are done:
    labels used so far are below [label]; a label is shared exactly
    along paths; every node below [k] has one. *)
Definition labelled (g : matrix) (n : nat)
    (labels : list (option nat)) (label k : nat) : Prop :=
  List.length labels = n
  /\ (forall i l, nth i labels None = Some l -> (l < label)%nat)
  /\ (forall i j, joined g n i j -> nth i labels None = nth j labels None)
  /\ (forall i j l, nth i labels None = Some l -> nth j labels None = Some l ->
                   joined g n i j)
  /\ (forall i, (i < k)%nat -> nth i labels None <> None).

(** The labelling loop: nodes in increasing order; a node without a
    label starts the next component and labels all of it. *)
Fixpoint label_loop (g : matrix) (n : nat) (nodes : list nat)
    (labels : list (option nat)) (label : nat) : list (option nat) * nat :=
  match nodes with
  | [] => (labels, label)
  | v :: rest =>
      match nth v labels None with
      | Some _ => label_loop g n rest labels label
      | None => label_loop g n rest (paint labels (flood g n v) label) (S label)
      end
  end.

(** [connected_components(csgraph, directed=False, return_labels=True)]:
    the number of components and the label of every node.  A graph that
    is not square is a [ValueError]. *)
Definition connected_components (csgraph : matrix) : result (nat * list nat) :=
  if is_square csgraph then
    let n := List.length csgraph in
    let '(labels, n_components) :=
      label_loop csgraph n (seq 0 n) (repeat None n) 0%nat in
    Ok (n_components, map (fun l => match l with Some k => k | None => 0%nat end) labels)
  else Raise ValueError.

End Csgraph.

(** ** src/persistence.py: connected components *)

Module Persistence.

(** What the persistence engine returns, as far as this code reads it:
    the diagrams (a death of [None] is infinite) and the full distance
    matrix. *)
Record ripser_result : Type := mk_ripser {
  dgms : list (list (Q * option Q));
  dperm2all : matrix
}.

(** The body of the [numpy.nditer] loop, for one element. *)
Definition threshold_element (epsilon element : Q) : Q :=
  if Qle_bool element epsilon then 1%Q else 0%Q.

(** The whole [nditer] loop over the array, every element rewritten. *)
Definition threshold (epsilon : Q) (m : matrix) : matrix :=
  map (map (threshold_element epsilon)) m.

(** An array without any element.  [numpy.nditer], called without the
    flag that allows it, refuses such an operand with a [ValueError]. *)
Definition is_zero_size (m : matrix) : bool :=
  match List.concat m with
  | [] => true
  | _ :: _ => false
  end.

Section Components.
Variables DP ID : Type.

(** [d[k].append(v)] on a [defaultdict(list)]. *)
Definition append_to {V} (d : ndict (list V)) (k : nat) (v : V) : ndict (list V) :=
  nset d k (Dict.get_default Nat.eqb [] d k ++ [v]).

(** [for i, entry in enumerate(labels)], from index [i] on. *)
Fixpoint group_loop (i : nat) (labels : list nat)
    (data_points : list DP) (identifiers : list ID)
    (connected_data_points : ndict (list DP))
    (connected_identifiers : ndict (list ID))
  : result (ndict (list DP) * ndict (list ID)) :=
  match labels with
  | [] => Ok (connected_data_points, connected_identifiers)
  | entry :: rest =>
      match nth_error data_points i with
      | None => Raise IndexError
      | Some p =>
          match nth_error identifiers i with
          | None => Raise IndexError
          | Some x =>
              group_loop (S i) rest data_points identifiers
                (append_to connected_data_points entry p)
                (append_to connected_identifiers entry x)
          end
      end
  end.

(** [obtain_connected_components].  The distance matrix is the array
    held by [persistence]; the loop writes into that array, so the
    function returns the engine's result as it is afterwards, next
    to its own result.  On an array without elements the iterator
    raises before the loop is entered, and nothing is written. *)
Definition obtain_connected_components
    (data_collection : list DP * list ID)
    (persistence : ripser_result) (epsilon : Q)
  : result (ndict (list DP) * ndict (list ID)) * ripser_result :=
  let '(data_points, identifiers) := data_collection in
  if is_zero_size (dperm2all persistence) then (Raise ValueError, persistence)
  else
    let distance_matrix := threshold epsilon (dperm2all persistence) in
    let persistence := mk_ripser (dgms persistence) distance_matrix in
    (( found <- Csgraph.connected_components distance_matrix ;;
       let labels := snd found in
       if Nat.eqb (List.length labels) (List.length data_points) then
         group_loop 0 labels data_points identifiers [] []
       else Raise ConsistencyError ),
     persistence).
End Components.

(** The entries of [xs] whose label, at the same position of [labels],
    is [l]: the members of component [l], in order. *)
Fixpoint members {A} (labels : list nat) (xs : list A) (l : nat) : list A :=
  match labels, xs with
  | k :: labels', x :: xs' =>
      if Nat.eqb l k then x :: members labels' xs' l else members labels' xs' l
  | _, _ => []
  end.

(** All the members of all the components of a dictionary. *)
Definition all_members {A} (d : ndict (list A)) : list A :=
  List.concat (Dict.values d).

(** The undirected graph the claims speak of: an edge between two
    indices where the distance, one way or the other, is at most
    [epsilon]. *)
Definition within (m : matrix) (epsilon : Q) (i j : nat) : Prop :=
  (i < List.length m)%nat /\ (j < List.length m)%nat /\
  (Qle_bool (entry m i j) epsilon = true \/ Qle_bool (entry m j i) epsilon = true).

Definition connected (m : matrix) (epsilon : Q) : nat -> nat -> Prop :=
  clos_refl_trans nat (within m epsilon).

(** Scenario C of the specification. *)
Definition scenario_C : matrix :=
  [[0; 1#2; 2]; [1#2; 0; 2]; [2; 2; 0]]%Q.

End Persistence.

(** ** Python [str] operations *)

Module Str.

(** [sub in s]. *)
Definition contains (sub s : string) : bool :=
  match String.index 0 sub s with
  | Some _ => true
  | None => false
  end.

(** [s.find(sub)]: the first position of [sub], or -1. *)
Definition find (sub s : string) : Z :=
  match String.index 0 sub s with
  | Some k => Z.of_nat k
  | None => -1
  end.

(** A slice bound brought into [0 .. len]: a negative bound counts from
    the end. *)
Definition clamp (len i : Z) : Z :=
  if i <? 0 then Z.max 0 (i + len) else Z.min i len.

(** [s[lo:hi]]. *)
Definition slice (s : string) (lo hi : Z) : string :=
  let len := Z.of_nat (String.length s) in
  let a := clamp len lo in
  let b := clamp len hi in
  String.substring (Z.to_nat a) (Z.to_nat (b - a)) s.

(** [s.split(sep)] for a separator that is not empty: [skip] counts the
    characters of a separator still to be passed over, [cur] is the
    piece being read. *)
Fixpoint split_from (sep s : string) (skip : nat) (cur : string) : list string :=
  match s with
  | EmptyString => [cur]
  | String c s' =>
      match skip with
      | S k => split_from sep s' k cur
      | O =>
          if String.prefix sep s
          then cur :: split_from sep s' (String.length sep - 1) EmptyString
          else split_from sep s' 0 (cur ++ String c EmptyString)
      end
  end.

Definition split (sep s : string) : list string := split_from sep s 0 EmptyString.

Definition lower_char (c : ascii) : ascii :=
  let n := nat_of_ascii c in
  if (Nat.leb 65 n && Nat.leb n 90)%bool then ascii_of_nat (n + 32) else c.

(** [s.lower()], on ASCII. *)
Fixpoint lower (s : string) : string :=
  match s with
  | EmptyString => EmptyString
  | String c s' => String (lower_char c) (lower s')
  end.

End Str.

(** ** src/mailanalysis.py *)

Module MailAnalysis.

(** A message, as far as it is read: [message['From']] and
    [message['Date']], [None] when the header is absent.  A header that
    is present is a [str] here.  The [mailbox] library hands back an
    [email.header.Header] object instead when the raw header holds bytes
    that are not ASCII, and [in] or slicing on it raises a [TypeError] or
    an [AttributeError]; such messages are outside this model, and what
    is proved of [parse_mails] is proved of mailboxes whose headers are
    all [str]. *)
Record message : Type := mk_message {
  From_ : option string;
  Date_ : option string
}.

(** The part of the loop body between the header test and the counter:
    [None] stands for [continue]. *)
Definition normalize_sender (sender : string) : option string :=
  if negb (Str.contains "@" sender) then None
  else
    let sub_strings := Str.split "@" sender in
    if negb (Nat.eqb (List.length sub_strings) 2) then None
    else
      let sender :=
        if Str.contains "<" sender && Str.contains ">" sender
        then Str.slice sender (Str.find " <" sender + 2) (Str.find ">" sender)
        else sender in
      Some (Str.lower sender).

(** [datum[:datum.find(':') + 6]]. *)
Definition date_string_of (datum : string) : string :=
  Str.slice datum 0 (Str.find ":" datum + 6).

Definition format_strings : list string :=
  ["%a, %d %b %Y %H:%M:%S"; "%a, %d %b %Y %H:%M";
   "%d %b %Y %H:%M:%S"; "%d %b %Y %H:%M"].

(** The first statement of [parse_datetime]; unpacking a split of more
    than two pieces into two names is a [ValueError].  The call
    [datum.strip()] that follows drops its result and changes nothing. *)
Definition strip_offset (datum : string) : result string :=
  if Str.contains " +" datum then
    match Str.split " +" datum with
    | [d; _] => Ok d
    | _ => Raise ValueError
    end
  else Ok datum.

Section Parsing.
(** [datetime.datetime.strptime(datum, format_string)] of the standard
    library; [None] is its [ValueError]. *)
Variable strptime : string -> string -> option datetime.

(** The [for ... else] over the format strings. *)
Fixpoint try_formats (datum : string) (formats : list string) : result datetime :=
  match formats with
  | [] => Raise ValueError
  | format_string :: rest =>
      match strptime datum format_string with
      | Some datetime_obj => Ok datetime_obj
      | None => try_formats datum rest
      end
  end.

Definition parse_datetime (datum : string) : result datetime :=
  datum <- strip_offset datum ;;
  try_formats datum format_strings.

(** The first loop of [parse_mails], over the messages. *)
Fixpoint read_loop (mail : list message)
    (mails_per_address : sdict Z)
    (datetimes_per_sender : sdict (list datetime))
  : result (sdict Z * sdict (list datetime)) :=
  match mail with
  | [] => Ok (mails_per_address, datetimes_per_sender)
  | message :: rest =>
      match From_ message, Date_ message with
      | Some sender, Some datum =>
          match normalize_sender sender with
          | None => read_loop rest mails_per_address datetimes_per_sender
          | Some sender =>
              let mails_per_address :=
                sset mails_per_address sender
                  (Dict.get_default String.eqb 0 mails_per_address sender + 1) in
              let date_string := date_string_of datum in
              datetime_obj <- parse_datetime date_string ;;
              read_loop rest mails_per_address
                (sset datetimes_per_sender sender
                   (Dict.get_default String.eqb [] datetimes_per_sender sender
                    ++ [datetime_obj]))
          end
      | _, _ => read_loop rest mails_per_address datetimes_per_sender
      end
  end.

(** The second loop, over the addresses counted. *)
Fixpoint threshold_loop (addresses : list string) (THRESHOLD : Z)
    (mails_per_address : sdict Z)
    (datetimes_per_sender : sdict (list datetime))
    (mails_per_address_with_threshold : sdict Z)
    (datetimes_per_sender_with_threshold : sdict (list datetime))
  : sdict Z * sdict (list datetime) :=
  match addresses with
  | [] => (mails_per_address_with_threshold,
           datetimes_per_sender_with_threshold)
  | address :: rest =>
      if THRESHOLD <=? Dict.get_default String.eqb 0 mails_per_address address
      then
        threshold_loop rest THRESHOLD mails_per_address datetimes_per_sender
          (sset mails_per_address_with_threshold address
             (Dict.get_default String.eqb 0 mails_per_address address))
          (sset datetimes_per_sender_with_threshold address
             (Dict.get_default String.eqb [] datetimes_per_sender address))
      else
        threshold_loop rest THRESHOLD mails_per_address datetimes_per_sender
          mails_per_address_with_threshold
          datetimes_per_sender_with_threshold
  end.

Definition parse_mails (mail : list message) (THRESHOLD : Z)
  : result (sdict Z * sdict (list datetime)) :=
  counted <- read_loop mail [] [] ;;
  let mails_per_address := fst counted in
  let datetimes_per_sender := snd counted in
  Ok (threshold_loop (Dict.keys mails_per_address) THRESHOLD
        mails_per_address datetimes_per_sender [] []).
End Parsing.

(** A [strptime] for the examples: it knows the date strings of a table
    and rejects every other one. *)
Fixpoint strptime_of_table (table : list (string * string * datetime))
    (datum format_string : string) : option datetime :=
  match table with
  | [] => None
  | (d, f, t) :: rest =>
      if (String.eqb d datum && String.eqb f format_string)%bool then Some t
      else strptime_of_table rest datum format_string
  end.

Definition example_table : list (string * string * datetime) :=
  [("Mon, 5 Jun 2023 10:00:00", "%a, %d %b %Y %H:%M:%S", at_time 10 0 0);
   ("Mon, 5 Jun 2023 23:30:00", "%a, %d %b %Y %H:%M:%S", at_time 23 30 0);
   ("5 Jun 2023 08:15", "%d %b %Y %H:%M", at_time 8 15 0)].

Definition example_strptime := strptime_of_table example_table.

End MailAnalysis.

(** The invariant of [parse_mails]: the two dictionaries list the same
    senders in the same order, each count being the length of the list
    beside it. *)
Definition aligned (counts : sdict Z) (dates : sdict (list datetime)) : Prop :=
  Forall2 (fun p q => fst p = fst q /\ snd p = Z.of_nat (List.length (snd q)))
          counts dates.

(** ** src/features.py: the most frequent weekday *)

Module WeekdayMaximum.

(** [collections.Counter(weekdays)]: one count per weekday, in the order
    of first occurrence. *)
Fixpoint count_from (weekdays : list Z) (counter : Dict.t Z Z) : Dict.t Z Z :=
  match weekdays with
  | [] => counter
  | w :: rest =>
      count_from rest
        (Dict.set Z.eqb counter w (Dict.get_default Z.eqb 0 counter w + 1))
  end.

Definition Counter (weekdays : list Z) : Dict.t Z Z := count_from weekdays [].

(** [max(items, key=lambda x: x[1])]: the first item whose count no other
    item exceeds; [ValueError] on no item at all. *)
Fixpoint max_from (best : Z * Z) (items : list (Z * Z)) : Z * Z :=
  match items with
  | [] => best
  | item :: rest =>
      if snd best <? snd item then max_from item rest else max_from best rest
  end.

Definition max_by_count (items : list (Z * Z)) : result (Z * Z) :=
  match items with
  | [] => Raise ValueError
  | item :: rest => Ok (max_from item rest)
  end.

(** The body of the loop of [weekday_maximum], for one sender's list. *)
Definition most_frequent_weekday (ts : list datetime) : result Z :=
  let weekdays := map weekday ts in
  let counter := Counter weekdays in
  best <- max_by_count counter ;;
  let weekday := fst best in
  let maximum := snd best in
  let key_set := map fst (filter (fun item => snd item =? maximum) counter) in
  Ok (if (2 <=? List.length key_set)%nat
      then py_round_div (sumZ key_set) (Z.of_nat (List.length key_set))
      else weekday).

Fixpoint maximum_loop (items : sdict (list datetime))
    (max_weekday_per_sender : sdict Z) : result (sdict Z) :=
  match items with
  | [] => Ok max_weekday_per_sender
  | (sender, ts) :: rest =>
      weekday <- most_frequent_weekday ts ;;
      maximum_loop rest (sset max_weekday_per_sender sender weekday)
  end.

Definition weekday_maximum (datetime_per_sender : sdict (list datetime))
  : result (sdict Z) :=
  maximum_loop datetime_per_sender [].

End WeekdayMaximum.

(** All the timestamps of the first [k] senders of a mapping. *)
Definition timestamps_upto (d : sdict (list datetime)) (k : nat) : list datetime :=
  List.concat (map snd (firstn k d)).

(** The values the loop of [average_timestamps_in_seconds] computes, one
    per sender in order, from the total it starts with. *)
Fixpoint running_averages (items : sdict (list datetime)) (total : Z) : sdict Z :=
  match items with
  | [] => []
  | (sender, ts) :: rest =>
      let total := Features.add_timestamps total ts in
      (sender, py_round_div total (Z.of_nat (List.length ts)))
        :: running_averages rest total
  end.

(** ** src/mailanalysis.py: what a mailbox amounts to *)

Module MailRecords.

(** The number of occurrences of a character in a string. *)
Fixpoint count_char (c : ascii) (s : string) : nat :=
  match s with
  | EmptyString => 0%nat
  | String a s' => if Ascii.eqb a c then S (count_char c s') else count_char c s'
  end.

(** What the guards of [parse_mails] let through: the normalised sender
    and the date string of a message with both headers and a sender the
    code does not skip. *)
Definition accepted (m : MailAnalysis.message) : option (string * string) :=
  match MailAnalysis.From_ m, MailAnalysis.Date_ m with
  | Some sender, Some datum =>
      match MailAnalysis.normalize_sender sender with
      | Some s => Some (s, MailAnalysis.date_string_of datum)
      | None => None
      end
  | _, _ => None
  end.

Section Records.
Variable strptime : string -> string -> option datetime.

(** The (sender, timestamp) records of a mailbox, in mailbox order: one
    per accepted message whose date string a pattern matches. *)
Fixpoint records (mail : list MailAnalysis.message) : list (string * datetime) :=
  match mail with
  | [] => []
  | m :: rest =>
      match accepted m with
      | Some (s, date_string) =>
          match MailAnalysis.parse_datetime strptime date_string with
          | Ok t => (s, t) :: records rest
          | Raise _ => records rest
          end
      | None => records rest
      end
  end.
End Records.

(** The timestamps of one sender among the records, in order. *)
Definition timestamps_of (rs : list (string * datetime)) (s : string) : list datetime :=
  map snd (filter (fun r => String.eqb (fst r) s) rs).

End MailRecords.

(** No sender is stored with an empty list of timestamps. *)
Definition stored_lists_nonempty (dates : sdict (list datetime)) : Prop :=
  forall s l, sget dates s = Some l -> l <> [].

(** ** Components: data points and identifiers side by side *)

(** Two component dictionaries list the same labels in the same order,
    and under each label two lists of the same length whose entries, place
    by place, satisfy [R]. *)
Definition paired {A B : Type} (R : A -> B -> Prop)
    (d1 : ndict (list A)) (d2 : ndict (list B)) : Prop :=
  Forall2 (fun p q => fst p = fst q /\ Forall2 R (snd p) (snd q)) d1 d2.

(** A data point and an identifier that stand at the same row. *)
Definition same_row {DP ID : Type} (data_points : list DP) (identifiers : list ID)
    (p : DP) (x : ID) : Prop :=
  exists i, nth_error data_points i = Some p /\ nth_error identifiers i = Some x.

(* ================================================================== *)
(** * Part II: properties *)
(* ================================================================== *)

Example weekday_5_jun_2023 : weekday (at_time 10 0 0) = 0.
Proof. reflexivity. Qed.

Example weekday_1_jan_2000 : weekday (mk_datetime 2000 1 1 0 0 0) = 5.
Proof. reflexivity. Qed.

Example weekday_29_feb_2024 : weekday (mk_datetime 2024 2 29 12 0 0) = 3.
Proof. reflexivity. Qed.

(** ** Rounding and sums *)

Example round_half_to_even :
  py_round_div 5 2 = 2 /\ py_round_div 7 2 = 4
  /\ py_round_div 11 4 = 3 /\ py_round_div 9 4 = 2.
Proof. repeat split. Qed.

Lemma py_round_div_bounds (n d lo hi : Z) :
  0 < d -> lo * d <= n <= hi * d -> lo <= py_round_div n d <= hi.
Proof.
  intros Hd [Hlo Hhi]. unfold py_round_div.
  pose proof (Z.div_mod n d ltac:(lia)) as Hdm.
  pose proof (Z.mod_pos_bound n d Hd) as Hr.
  assert (Hq1 : lo <= n / d) by (apply Z.div_le_lower_bound; lia).
  assert (Hq2 : n / d <= hi) by (apply Z.div_le_upper_bound; lia).
  assert (Hedge : n / d = hi -> n mod d = 0) by nia.
  destruct (2 * (n mod d) <? d) eqn:E1; [lia|].
  apply Z.ltb_ge in E1.
  assert (n / d < hi) by (destruct (Z.eq_dec (n / d) hi); [lia | lia]).
  destruct (d <? 2 * (n mod d)); [lia|].
  destruct (Z.even (n / d)); lia.
Qed.

Lemma fold_add_shift (A : Type) (f : A -> Z) (l : list A) (a : Z) :
  fold_left (fun acc x => acc + f x) l a
  = a + fold_left (fun acc x => acc + f x) l 0.
Proof.
  revert a. induction l as [|x l IH]; intro a; cbn [fold_left]; [lia|].
  rewrite (IH (a + f x)), (IH (0 + f x)). lia.
Qed.

Lemma fold_add_bounds (A : Type) (f : A -> Z) (lo hi : Z) (l : list A) :
  (forall x, In x l -> lo <= f x <= hi) ->
  lo * Z.of_nat (List.length l)
  <= fold_left (fun acc x => acc + f x) l 0
  <= hi * Z.of_nat (List.length l).
Proof.
  induction l as [|x l IH]; intro H.
  - simpl. lia.
  - cbn [fold_left List.length]. rewrite fold_add_shift.
    specialize (IH (fun y Hy => H y (or_intror Hy))).
    pose proof (H x (or_introl eq_refl)). lia.
Qed.

Lemma sumZ_map (A : Type) (f : A -> Z) (l : list A) :
  sumZ (map f l) = fold_left (fun acc x => acc + f x) l 0.
Proof.
  unfold sumZ. generalize 0. induction l as [|x l IH]; intro a; simpl; auto.
Qed.

Lemma weekday_range (t : datetime) : 0 <= weekday t <= 6.
Proof.
  unfold weekday. pose proof (Z.mod_pos_bound (toordinal t + 6) 7). lia.
Qed.

Lemma seconds_of_timestamp_range (t : datetime) :
  valid_time t -> 0 <= Features.seconds_of_timestamp t <= 86399.
Proof. unfold valid_time, Features.seconds_of_timestamp. lia. Qed.

(** ** Dictionaries *)

Section DictFacts.
Variable K : Type.
Variable K_eqb : K -> K -> bool.
Hypothesis K_eqb_spec : forall a b, K_eqb a b = true <-> a = b.
Variable V : Type.

Lemma get_set_cases (d : Dict.t K V) (k k' : K) (v x : V) :
  Dict.get K_eqb (Dict.set K_eqb d k v) k' = Some x ->
  x = v \/ Dict.get K_eqb d k' = Some x.
Proof.
  induction d as [|[k0 v0] d IH]; simpl.
  - destruct (K_eqb k' k); [intros [= <-]; auto | discriminate].
  - destruct (K_eqb k k0) eqn:E; simpl.
    + destruct (K_eqb k' k0); [intros [= <-]; auto | auto].
    + destruct (K_eqb k' k0); auto.
Qed.

Lemma get_in (d : Dict.t K V) (k : K) (v : V) :
  Dict.get K_eqb d k = Some v -> In (k, v) d.
Proof.
  induction d as [|[k0 v0] d IH]; simpl; [discriminate|].
  destruct (K_eqb k k0) eqn:E.
  - apply K_eqb_spec in E. intros [= <-]. subst. auto.
  - auto.
Qed.

Lemma keys_set_in (d : Dict.t K V) (k : K) (v : V) :
  In k (Dict.keys d) -> Dict.keys (Dict.set K_eqb d k v) = Dict.keys d.
Proof.
  induction d as [|[k0 v0] d IH]; simpl; [tauto|].
  destruct (K_eqb k k0) eqn:E; simpl; [reflexivity|].
  intros [H|H].
  - subst. assert (K_eqb k k = true) by (apply K_eqb_spec; reflexivity).
    congruence.
  - f_equal. apply IH. exact H.
Qed.

Lemma keys_set_notin (d : Dict.t K V) (k : K) (v : V) :
  ~ In k (Dict.keys d) -> Dict.keys (Dict.set K_eqb d k v) = Dict.keys d ++ [k].
Proof.
  induction d as [|[k0 v0] d IH]; simpl; [reflexivity|].
  intro H. destruct (K_eqb k k0) eqn:E.
  - apply K_eqb_spec in E. subst. tauto.
  - simpl. f_equal. apply IH. tauto.
Qed.

Lemma get_none_notin (d : Dict.t K V) (k : K) :
  Dict.get K_eqb d k = None <-> ~ In k (Dict.keys d).
Proof.
  induction d as [|[k0 v0] d IH]; simpl; [tauto|].
  destruct (K_eqb k k0) eqn:E.
  - apply K_eqb_spec in E. subst. split; [discriminate | tauto].
  - rewrite IH. split; [|tauto].
    intros H [H1|H1]; [|tauto]. subst.
    assert (K_eqb k k = true) by (apply K_eqb_spec; reflexivity). congruence.
Qed.
End DictFacts.

(** ** Feature aggregation *)

Lemma weekday_loop_range (items : sdict (list datetime)) (acc out : sdict Z) :
  (forall s v, sget acc s = Some v -> 0 <= v <= 6) ->
  Features.weekday_loop items acc = Ok out ->
  forall s v, sget out s = Some v -> 0 <= v <= 6.
Proof.
  revert acc. induction items as [|[sender ts] items IH]; intros acc Hacc; simpl.
  - intros [= <-]. exact Hacc.
  - destruct (Z.of_nat (List.length ts) =? 0) eqn:E; [discriminate|].
    apply Z.eqb_neq in E. apply IH.
    intros s v Hg. apply get_set_cases in Hg. destruct Hg as [-> | Hg]; [|eauto].
    rewrite sumZ_map. apply py_round_div_bounds; [lia|].
    apply fold_add_bounds. intros; apply weekday_range.
Qed.

(** The second feature stays in range for every mapping: its total is
    bound afresh for each sender. *)
Lemma weekday_average_range (d : sdict (list datetime)) (out : sdict Z) :
  Features.weekday_average d = Ok out ->
  forall s v, sget out s = Some v -> 0 <= v <= 6.
Proof.
  apply weekday_loop_range. intros s v. discriminate.
Qed.

(** With one sender there is no earlier total to inherit: the code and
    the specification agree, and the value is in range. *)
Lemma single_sender_average (sender : string) (ts : list datetime) :
  ts <> [] ->
  Features.average_timestamps_in_seconds [(sender, ts)]
  = Ok [(sender, Features.spec_sender_average ts)].
Proof.
  intro Hne. unfold Features.average_timestamps_in_seconds. simpl.
  destruct ts as [|t ts]; [congruence|].
  replace (Z.of_nat (List.length (t :: ts)) =? 0) with false
    by (symmetry; apply Z.eqb_neq; simpl List.length; lia).
  reflexivity.
Qed.

Lemma add_timestamps_shift (total : Z) (ts : list datetime) :
  Features.add_timestamps total ts = total + Features.add_timestamps 0 ts.
Proof. unfold Features.add_timestamps. apply fold_add_shift. Qed.

(** A second sender inherits the total of the first: the value stored for
    it divides both senders' seconds by its own number of timestamps. *)
Lemma second_sender_inherits_total (a b : string) (ta tb : list datetime) :
  a <> b -> ta <> [] -> tb <> [] ->
  Features.average_timestamps_in_seconds [(a, ta); (b, tb)]
  = Ok [(a, Features.spec_sender_average ta);
        (b, py_round_div
              (Features.add_timestamps 0 ta + Features.add_timestamps 0 tb)
              (Z.of_nat (List.length tb)))].
Proof.
  intros Hab Ha Hb. unfold Features.average_timestamps_in_seconds.
  cbn [Features.average_loop].
  replace (Z.of_nat (List.length ta) =? 0) with false
    by (symmetry; apply Z.eqb_neq; destruct ta; [congruence | simpl List.length; lia]).
  replace (Z.of_nat (List.length tb) =? 0) with false
    by (symmetry; apply Z.eqb_neq; destruct tb; [congruence | simpl List.length; lia]).
  unfold sset. cbn [Dict.set].
  replace (String.eqb b a) with false
    by (symmetry; apply String.eqb_neq; congruence).
  rewrite (add_timestamps_shift (Features.add_timestamps 0 ta) tb). reflexivity.
Qed.

Lemma spec_sender_average_range (ts : list datetime) :
  ts <> [] -> Forall valid_time ts ->
  0 <= Features.spec_sender_average ts < 86400.
Proof.
  intros Hne Hv. unfold Features.spec_sender_average, Features.add_timestamps.
  assert (0 < Z.of_nat (List.length ts)) by (destruct ts; [congruence | simpl List.length; lia]).
  enough (0 <= py_round_div
            (fold_left (fun acc t => acc + Features.seconds_of_timestamp t) ts 0)
            (Z.of_nat (List.length ts)) <= 86399) by lia.
  apply py_round_div_bounds; [lia|].
  apply fold_add_bounds. intros x Hx. apply seconds_of_timestamp_range.
  rewrite Forall_forall in Hv. auto.
Qed.

(** C1 (fails on the code): [seconds_total] is bound once, before the
    loop over the senders, and never reset.  With senders a (01:00:00) and
    b (02:00:00) the value stored for b is round((3600 + 7200) / 1) = 10800,
    while the rounded mean of b's own timestamps is 7200. *)
Theorem C1_total_carried_across_senders :
  Features.average_timestamps_in_seconds
    [("a", [at_time 1 0 0]); ("b", [at_time 2 0 0])]
  = Ok [("a", 3600); ("b", 10800)]
  /\ Features.spec_sender_average [at_time 2 0 0] = 7200.
Proof. split; reflexivity. Qed.

(** C2 (fails on the code): with senders a and b both writing at 23:00:00
    the value stored for b is 165600, which is not below 86400.  The
    weekday half of the claim holds, see [weekday_average_range]. *)
Theorem C2_average_seconds_exceeds_day :
  exists v,
    Features.average_timestamps_in_seconds
      [("a", [at_time 23 0 0]); ("b", [at_time 23 0 0])]
    = Ok [("a", 82800); ("b", v)]
    /\ Forall valid_time [at_time 23 0 0]
    /\ 86400 <= v.
Proof.
  exists 165600. split; [reflexivity|]. split; [|lia].
  constructor; [|constructor]. unfold valid_time; simpl; lia.
Qed.

(** ** Worked examples: the composite metric *)

Example metric_seconds_wraps : Metric.metric_seconds 100 86300 = 200.
Proof. reflexivity. Qed.

(** ** Worked examples: connected components *)

Example scenario_C_components :
  fst (Persistence.obtain_connected_components
         ([0; 1; 2]%nat, ["a"; "b"; "c"])
         (Persistence.mk_ripser [] Persistence.scenario_C) (6 # 10))
  = Ok ([(0, [0; 1]); (1, [2])]%nat, [(0%nat, ["a"; "b"]); (1%nat, ["c"])]).
Proof. vm_compute. reflexivity. Qed.

Example empty_matrix_is_refused :
  Persistence.obtain_connected_components
    (@nil nat, @nil string) (Persistence.mk_ripser [] []) (6 # 10)
  = (Raise ValueError, Persistence.mk_ripser [] []).
Proof. reflexivity. Qed.

(** ** Worked examples: mail parsing *)

Example normalize_plain : MailAnalysis.normalize_sender "Bob@X.org" = Some "bob@x.org".
Proof. reflexivity. Qed.

Example normalize_named :
  MailAnalysis.normalize_sender "Bob <Bob@X.org>" = Some "bob@x.org".
Proof. reflexivity. Qed.

Example normalize_bare_brackets :
  MailAnalysis.normalize_sender "<Bob@X.org>" = Some "bob@x.org".
Proof. reflexivity. Qed.

Example normalize_two_ats : MailAnalysis.normalize_sender "a@b@c" = None.
Proof. reflexivity. Qed.

Example scenario_D :
  MailAnalysis.parse_datetime MailAnalysis.example_strptime
    (MailAnalysis.date_string_of "Mon, 5 Jun 2023 10:00:00 +0200")
  = Ok (at_time 10 0 0).
Proof. reflexivity. Qed.

Example split_offset :
  Str.split " +" "Mon, 5 Jun 2023 10:00 +0" = ["Mon, 5 Jun 2023 10:00"; "0"].
Proof. reflexivity. Qed.

(** ** The composite metric *)

Lemma mod_opp_pair (x m : Z) :
  0 < m ->
  (x mod m = 0 /\ (- x) mod m = 0) \/
  (0 < x mod m < m /\ (- x) mod m = m - x mod m).
Proof.
  intro Hm. pose proof (Z.mod_pos_bound x m Hm) as Hb.
  destruct (Z.eq_dec (x mod m) 0) as [E|E].
  - left. split; [exact E|]. apply Z.mod_opp_l_z; [lia | exact E].
  - right. split; [lia|]. apply Z.mod_opp_l_nz; [lia | exact E].
Qed.

Lemma metric_seconds_int (a b : Z) :
  Metric.metric_seconds a b
  = Z.min ((a - b) mod 86400) ((b - a) mod 86400).
Proof. reflexivity. Qed.

(** C7: on integer timestamps the time sub-metric is the smaller of the
    two residues modulo 86400; it is symmetric, vanishes on the diagonal,
    lies between 0 and 43200 for all inputs (so in particular for
    timestamps in [0, 86400)), and reaches 43200. *)
Theorem C7_metric_seconds (a b : Z) :
  Metric.metric_seconds a b
    = Z.min ((a - b) mod 86400) ((b - a) mod 86400)
  /\ Metric.metric_seconds a b = Metric.metric_seconds b a
  /\ Metric.metric_seconds a a = 0
  /\ 0 <= Metric.metric_seconds a b <= 43200
  /\ Metric.metric_seconds 0 43200 = 43200.
Proof.
  rewrite !metric_seconds_int.
  split; [reflexivity|]. split; [apply Z.min_comm|].
  split; [rewrite Z.sub_diag; reflexivity|].
  split; [|reflexivity].
  replace (b - a) with (- (a - b)) by lia.
  destruct (mod_opp_pair (a - b) (m:=86400) ltac:(lia)) as [[E1 E2]|[E1 E2]];
    rewrite E2; lia.
Qed.

(** The same sub-metric on real arguments, as the pipeline calls it. *)

Lemma Rfloor_mod_range (a m : R) :
  (0 < m)%R -> (0 <= Rfloor_mod a m < m)%R.
Proof.
  intro Hm. unfold Rfloor_mod.
  destruct (base_Int_part (a / m)) as [H1 H2].
  assert (Ha : (a = a / m * m)%R) by (field; lra).
  set (k := IZR (Int_part (a / m))) in *.
  split.
  - assert (k * m <= a / m * m)%R by (apply Rmult_le_compat_r; lra). lra.
  - assert (a / m * m < (k + 1) * m)%R by (apply Rmult_lt_compat_r; lra). lra.
Qed.

Lemma Rfloor_mod_0 (m : R) : Rfloor_mod 0 m = 0%R.
Proof.
  unfold Rfloor_mod.
  replace (0 / m)%R with 0%R by (unfold Rdiv; ring).
  rewrite <- (Int_part_spec 0 0); [simpl; ring | simpl; lra].
Qed.

Lemma Rfloor_mod_opp (a m : R) :
  (0 < m)%R ->
  (Rfloor_mod a m = 0 /\ Rfloor_mod (- a) m = 0)%R \/
  (0 < Rfloor_mod a m /\ Rfloor_mod (- a) m = m - Rfloor_mod a m)%R.
Proof.
  intro Hm. pose proof (Rfloor_mod_range a Hm) as Hr.
  unfold Rfloor_mod in *.
  set (k := Int_part (a / m)) in *.
  assert (Ha : (a / m * m = a)%R) by (field; lra).
  assert (Hn : (- a / m = - (a / m))%R) by (field; lra).
  destruct (Req_dec (a - IZR k * m) 0) as [E|E].
  - left. split; [exact E|].
    assert (Hk : (a / m = IZR k)%R).
    { apply Rmult_eq_reg_r with m; [lra | lra]. }
    rewrite Hn, Hk, <- opp_IZR.
    rewrite <- (Int_part_spec (IZR (- k)) (- k)); [|lra].
    rewrite opp_IZR. lra.
  - right. split; [lra|].
    assert (Hlt : (IZR k < a / m)%R).
    { apply Rmult_lt_reg_r with m; [lra | lra]. }
    assert (Hub : (a / m < IZR k + 1)%R).
    { apply Rmult_lt_reg_r with m; [lra | lra]. }
    rewrite <- (Int_part_spec (- a / m) (- k - 1)).
    + rewrite minus_IZR, opp_IZR. lra.
    + rewrite Hn, minus_IZR, opp_IZR. lra.
Qed.

Lemma metric_seconds_real_range (a b : R) :
  (0 <= Metric.metric_seconds a b <= 43200)%R.
Proof.
  unfold Metric.metric_seconds. cbn [num_min num_mod num_sub num_of_Z Num_R].
  replace (IZR Metric.seconds_per_day) with 86400%R
    by (unfold Metric.seconds_per_day; simpl; reflexivity).
  replace (b - a)%R with (- (a - b))%R by ring.
  pose proof (Rfloor_mod_range (a - b) (m:=86400) ltac:(lra)) as Hr.
  destruct (Rfloor_mod_opp (a - b) (m:=86400) ltac:(lra)) as [[E1 E2]|[E1 E2]];
    rewrite E2; unfold Rmin; destruct (Rle_dec _ _); lra.
Qed.

Lemma metric_seconds_real_diag (a : R) : Metric.metric_seconds a a = 0%R.
Proof.
  unfold Metric.metric_seconds. cbn [num_min num_mod num_sub num_of_Z Num_R].
  replace (a - a)%R with 0%R by ring.
  rewrite Rfloor_mod_0. unfold Rmin. destruct (Rle_dec _ _); reflexivity.
Qed.

Lemma metric_seconds_real_sym (a b : R) :
  Metric.metric_seconds a b = Metric.metric_seconds b a.
Proof.
  unfold Metric.metric_seconds. cbn [num_min num_mod num_sub num_of_Z Num_R].
  apply Rmin_comm.
Qed.

(** C6: on every pair of 3-feature vectors the composite metric returns a
    number; it is symmetric, not negative, and 0 from a vector to itself. *)
Theorem C6_product_metric (x y : list R) :
  List.length x = 3%nat -> List.length y = 3%nat ->
  exists d : R,
    Metric.product_metric x y = Ok d
    /\ Metric.product_metric y x = Ok d
    /\ (0 <= d)%R
    /\ Metric.product_metric x x = Ok 0%R.
Proof.
  intros Hx Hy.
  destruct x as [|x1 [|x2 [|x3 [|? ?]]]]; try discriminate.
  destruct y as [|y1 [|y2 [|y3 [|? ?]]]]; try discriminate.
  unfold Metric.product_metric. cbn [Metric.Data_of_array bind
    Metric.mail_count Metric.seconds Metric.weekday_].
  eexists. split; [reflexivity|]. split; [|split].
  - f_equal. f_equal.
    rewrite (metric_seconds_real_sym y2 x2).
    unfold Metric.metric_mail_count, Metric.metric_weekday.
    cbn [num_abs num_sub Num_R].
    rewrite (Rabs_minus_sym y1 x1), (Rabs_minus_sym y3 x3). reflexivity.
  - apply sqrt_pos.
  - f_equal. rewrite metric_seconds_real_diag.
    unfold Metric.metric_mail_count, Metric.metric_weekday.
    cbn [num_abs num_sub Num_R].
    replace (x1 - x1)%R with 0%R by ring.
    replace (x3 - x3)%R with 0%R by ring.
    rewrite Rabs_R0.
    replace (0 ^ 2 + 0 ^ 2 + 0 ^ 2)%R with 0%R by ring.
    apply sqrt_0.
Qed.

Lemma C6_product_metric_witness :
  exists d : R,
    Metric.product_metric [1; 0; 0]%R [0; 1; 1]%R = Ok d
    /\ Metric.product_metric [0; 1; 1]%R [1; 0; 0]%R = Ok d
    /\ (0 <= d)%R
    /\ Metric.product_metric [1; 0; 0]%R [1; 0; 0]%R = Ok 0%R.
Proof.
  apply (@C6_product_metric [1; 0; 0]%R [0; 1; 1]%R); reflexivity.
Defined.

(** ** Mail parsing *)

(** C4 (fails on the code): the test asks for a "<" anywhere, but the
    slice starts two characters after the first " <" (a space, then the
    bracket).  Without that space [find] answers -1 and the slice starts
    at index 1: "Bob<bob@x.org>" becomes "ob<bob@x.org", not "bob@x.org". *)
Theorem C4_bracket_without_space :
  Str.contains "<" "Bob<bob@x.org>" = true
  /\ Str.contains ">" "Bob<bob@x.org>" = true
  /\ List.length (Str.split "@" "Bob<bob@x.org>") = 2%nat
  /\ Str.find " <" "Bob<bob@x.org>" = -1
  /\ MailAnalysis.normalize_sender "Bob<bob@x.org>" = Some "ob<bob@x.org".
Proof. repeat split. Qed.

(** *** The two dictionaries of [parse_mails] move together *)

Lemma aligned_keys counts dates :
  aligned counts dates -> Dict.keys counts = Dict.keys dates.
Proof.
  induction 1 as [|[k c] [k' ts] a b [Hk _] _ IH]; simpl; [reflexivity|].
  simpl in Hk. subst. f_equal. exact IH.
Qed.

Lemma aligned_get counts dates (k : string) (c : Z) :
  aligned counts dates -> sget counts k = Some c ->
  exists ts, sget dates k = Some ts /\ c = Z.of_nat (List.length ts).
Proof.
  unfold sget.
  induction 1 as [|[k1 c1] [k2 ts] a b [Hk Hc] _ IH]; simpl; [discriminate|].
  simpl in Hk, Hc. subst k2.
  destruct (String.eqb k k1); [intros [= <-]; eauto | exact IH].
Qed.

Lemma aligned_get_default counts dates (k : string) :
  aligned counts dates ->
  Dict.get_default String.eqb 0 counts k
  = Z.of_nat (List.length (Dict.get_default String.eqb [] dates k)).
Proof.
  unfold Dict.get_default.
  induction 1 as [|[k1 c1] [k2 ts] a b [Hk Hc] _ IH]; simpl; [reflexivity|].
  simpl in Hk, Hc. subst k2.
  destruct (String.eqb k k1); [exact Hc | exact IH].
Qed.

Lemma aligned_set counts dates (k : string) (c : Z) (ts : list datetime) :
  aligned counts dates -> c = Z.of_nat (List.length ts) ->
  aligned (sset counts k c) (sset dates k ts).
Proof.
  intros H Hc. unfold sset.
  induction H as [|[k1 c1] [k2 ts2] a b [Hk Hc2] Hab IH]; simpl.
  - constructor; [split; [reflexivity | exact Hc] | constructor].
  - simpl in Hk, Hc2. subst k2.
    destruct (String.eqb k k1).
    + constructor; [split; [reflexivity | exact Hc] | exact Hab].
    + constructor; [split; [reflexivity | exact Hc2] | exact IH].
Qed.

Section ParseFacts.
Variable strptime : string -> string -> option datetime.

Lemma try_formats_raises (datum : string) (formats : list string) (e : exn) :
  MailAnalysis.try_formats strptime datum formats = Raise e -> e = ValueError.
Proof.
  induction formats as [|f fs IH]; simpl.
  - intros [= <-]. reflexivity.
  - destruct (strptime datum f); [discriminate | exact IH].
Qed.

Lemma try_formats_none (datum : string) (formats : list string) :
  (forall f, In f formats -> strptime datum f = None) ->
  MailAnalysis.try_formats strptime datum formats = Raise ValueError.
Proof.
  induction formats as [|f fs IH]; intro H; simpl; [reflexivity|].
  rewrite (H f (or_introl eq_refl)). apply IH. intros; apply H; right; assumption.
Qed.

Lemma parse_datetime_raises (datum : string) (e : exn) :
  MailAnalysis.parse_datetime strptime datum = Raise e -> e = ValueError.
Proof.
  unfold MailAnalysis.parse_datetime, MailAnalysis.strip_offset.
  destruct (Str.contains " +" datum).
  - destruct (Str.split " +" datum) as [|d1 [|d2 [|d3 l]]]; cbn [bind];
      try (intros [= <-]; reflexivity).
    apply try_formats_raises.
  - cbn [bind]. apply try_formats_raises.
Qed.

Lemma read_loop_raises (mail : list MailAnalysis.message) counts dates (e : exn) :
  MailAnalysis.read_loop strptime mail counts dates = Raise e -> e = ValueError.
Proof.
  revert counts dates.
  induction mail as [|m mail IH]; intros counts dates; simpl; [discriminate|].
  destruct (MailAnalysis.From_ m) as [sender|]; [|apply IH].
  destruct (MailAnalysis.Date_ m) as [datum|]; [|apply IH].
  destruct (MailAnalysis.normalize_sender sender) as [s|]; [|apply IH].
  destruct (MailAnalysis.parse_datetime strptime (MailAnalysis.date_string_of datum))
    as [t|e'] eqn:E; simpl.
  - apply IH.
  - intros [= <-]. exact (parse_datetime_raises _ E).
Qed.

Lemma read_loop_aligned (mail : list MailAnalysis.message) counts dates counts' dates' :
  aligned counts dates ->
  MailAnalysis.read_loop strptime mail counts dates = Ok (counts', dates') ->
  aligned counts' dates'.
Proof.
  revert counts dates.
  induction mail as [|m mail IH]; intros counts dates Hal; simpl.
  - intros [= <- <-]. exact Hal.
  - destruct (MailAnalysis.From_ m) as [sender|]; [|apply IH; exact Hal].
    destruct (MailAnalysis.Date_ m) as [datum|]; [|apply IH; exact Hal].
    destruct (MailAnalysis.normalize_sender sender) as [s|]; [|apply IH; exact Hal].
    destruct (MailAnalysis.parse_datetime strptime (MailAnalysis.date_string_of datum))
      as [t|e']; simpl; [|discriminate].
    apply IH. apply aligned_set; [exact Hal|].
    rewrite (aligned_get_default s Hal), length_app. simpl List.length. lia.
Qed.

Lemma threshold_loop_aligned (addresses : list string) (TH : Z)
      counts dates out1 out2 :
  aligned counts dates -> aligned out1 out2 ->
  aligned (fst (MailAnalysis.threshold_loop addresses TH counts dates out1 out2))
          (snd (MailAnalysis.threshold_loop addresses TH counts dates out1 out2)).
Proof.
  intro Hal. revert out1 out2.
  induction addresses as [|a l IH]; intros out1 out2 Hout; simpl; [exact Hout|].
  destruct (TH <=? Dict.get_default String.eqb 0 counts a).
  - apply IH. apply aligned_set; [exact Hout|]. apply aligned_get_default, Hal.
  - apply IH, Hout.
Qed.

(** A message that reaches the date parser with a date string no
    pattern accepts ends the loop with a [ValueError], whatever was
    read before it. *)
Lemma read_loop_bad_date (mail : list MailAnalysis.message) counts dates
      (msg : MailAnalysis.message) (sender s datum d : string) :
  In msg mail ->
  MailAnalysis.From_ msg = Some sender ->
  MailAnalysis.Date_ msg = Some datum ->
  MailAnalysis.normalize_sender sender = Some s ->
  MailAnalysis.strip_offset (MailAnalysis.date_string_of datum) = Ok d ->
  (forall f, In f MailAnalysis.format_strings -> strptime d f = None) ->
  MailAnalysis.read_loop strptime mail counts dates = Raise ValueError.
Proof.
  intros Hin HF HD HN HS Hnone. revert counts dates.
  induction mail as [|m mail IH]; intros counts dates; [destruct Hin|].
  destruct Hin as [-> | Hin].
  - simpl. rewrite HF, HD, HN.
    unfold MailAnalysis.parse_datetime. rewrite HS. cbn [bind].
    rewrite (try_formats_none _ Hnone). reflexivity.
  - specialize (IH Hin).
    destruct (MailAnalysis.read_loop strptime (m :: mail) counts dates)
      as [r|e] eqn:E; [|f_equal; exact (read_loop_raises _ _ _ E)].
    exfalso. simpl in E.
    destruct (MailAnalysis.From_ m) as [sender'|]; [|rewrite IH in E; discriminate].
    destruct (MailAnalysis.Date_ m) as [datum'|]; [|rewrite IH in E; discriminate].
    destruct (MailAnalysis.normalize_sender sender') as [s'|];
      [|rewrite IH in E; discriminate].
    destruct (MailAnalysis.parse_datetime strptime (MailAnalysis.date_string_of datum'));
      simpl in E; [rewrite IH in E|]; discriminate.
Qed.
End ParseFacts.

Lemma normalize_sender_one_at (sender : string) :
  Str.contains "@" sender = true ->
  List.length (Str.split "@" sender) = 2%nat ->
  exists s, MailAnalysis.normalize_sender sender = Some s.
Proof.
  intros H1 H2. unfold MailAnalysis.normalize_sender.
  rewrite H1, H2. simpl. eauto.
Qed.

(** C9, as the code has it: take a message that reaches the date parser
    (both headers present, the sender holding exactly one "@") and its
    date string as the code takes it, which is the Date header cut five
    characters after its first ":" (its first five characters when it has
    no ":").  If that cut string, offset stripped, matches none of the
    four patterns, [parse_mails] raises [ValueError]; no map is
    returned.  What the header holds beyond the cut is never looked at. *)
Theorem C9_unparsable_date_aborts
    (strptime : string -> string -> option datetime)
    (mail : list MailAnalysis.message) (THRESHOLD : Z)
    (msg : MailAnalysis.message) (sender datum d : string) :
  In msg mail ->
  MailAnalysis.From_ msg = Some sender ->
  MailAnalysis.Date_ msg = Some datum ->
  Str.contains "@" sender = true ->
  List.length (Str.split "@" sender) = 2%nat ->
  MailAnalysis.strip_offset (MailAnalysis.date_string_of datum) = Ok d ->
  (forall f, In f MailAnalysis.format_strings -> strptime d f = None) ->
  MailAnalysis.parse_mails strptime mail THRESHOLD = Raise ValueError.
Proof.
  intros Hin HF HD H1 H2 HS Hnone.
  destruct (normalize_sender_one_at _ H1 H2) as [s HN].
  unfold MailAnalysis.parse_mails.
  rewrite (read_loop_bad_date strptime mail [] [] msg Hin HF HD HN HS Hnone).
  reflexivity.
Qed.

Lemma example_strptime_rejects (d : string) :
  d <> "Mon, 5 Jun 2023 10:00:00" -> d <> "Mon, 5 Jun 2023 23:30:00" ->
  d <> "5 Jun 2023 08:15" ->
  forall f, MailAnalysis.example_strptime d f = None.
Proof.
  intros H1 H2 H3 f.
  unfold MailAnalysis.example_strptime, MailAnalysis.example_table.
  cbn [MailAnalysis.strptime_of_table].
  apply String.eqb_neq in H1, H2, H3.
  rewrite String.eqb_sym in H1. rewrite String.eqb_sym in H2.
  rewrite String.eqb_sym in H3. rewrite H1, H2, H3. reflexivity.
Qed.

Lemma C9_unparsable_date_aborts_witness :
  MailAnalysis.parse_mails MailAnalysis.example_strptime
    [MailAnalysis.mk_message (Some "Ann <ann@x.org>") (Some "Mon, 5 Jun 2023 10:00:00 +0200");
     MailAnalysis.mk_message (Some "Bob <bob@x.org>") (Some "yesterday at 10:00:00")]
    1
  = Raise ValueError.
Proof.
  apply (@C9_unparsable_date_aborts MailAnalysis.example_strptime _ 1
           (MailAnalysis.mk_message (Some "Bob <bob@x.org>") (Some "yesterday at 10:00:00"))
           "Bob <bob@x.org>" "yesterday at 10:00:00" "yesterday at 10:00:00").
  - simpl. right. left. reflexivity.
  - reflexivity.
  - reflexivity.
  - reflexivity.
  - reflexivity.
  - reflexivity.
  - intros f _. apply example_strptime_rejects; discriminate.
Defined.

(** C9 as stated fails, read on the Date header of the message: the
    header "Mon, 5 Jun 2023 10:00:00 GMT" of a message with a good sender
    matches none of the four patterns, with or without offset stripping,
    yet the code cuts it after the seconds, parses what is left, and
    returns. *)
Lemma C9_trailing_text_counterexample :
  ~ (forall (strptime : string -> string -> option datetime)
            (mail : list MailAnalysis.message) (THRESHOLD : Z)
            (msg : MailAnalysis.message) (sender datum d : string),
        In msg mail ->
        MailAnalysis.From_ msg = Some sender ->
        MailAnalysis.Date_ msg = Some datum ->
        Str.contains "@" sender = true ->
        List.length (Str.split "@" sender) = 2%nat ->
        MailAnalysis.strip_offset datum = Ok d ->
        (forall f, In f MailAnalysis.format_strings -> strptime d f = None) ->
        exists e, MailAnalysis.parse_mails strptime mail THRESHOLD = Raise e).
Proof.
  intro H.
  destruct (H MailAnalysis.example_strptime
              [MailAnalysis.mk_message (Some "a@x.org")
                 (Some "Mon, 5 Jun 2023 10:00:00 GMT")]
              1
              (MailAnalysis.mk_message (Some "a@x.org")
                 (Some "Mon, 5 Jun 2023 10:00:00 GMT"))
              "a@x.org"
              "Mon, 5 Jun 2023 10:00:00 GMT" "Mon, 5 Jun 2023 10:00:00 GMT")
    as [e He].
  - left. reflexivity.
  - reflexivity.
  - reflexivity.
  - reflexivity.
  - reflexivity.
  - reflexivity.
  - intros f _. apply example_strptime_rejects; discriminate.
  - discriminate He.
Qed.

Example trailing_text_is_cut :
  MailAnalysis.date_string_of "Mon, 5 Jun 2023 10:00:00 GMT"
  = "Mon, 5 Jun 2023 10:00:00"
  /\ MailAnalysis.parse_mails MailAnalysis.example_strptime
       [MailAnalysis.mk_message (Some "a@x.org")
          (Some "Mon, 5 Jun 2023 10:00:00 GMT")] 1
     = Ok ([("a@x.org", 1)], [("a@x.org", [at_time 10 0 0])]).
Proof. split; reflexivity. Qed.

(** C10: whenever [parse_mails] returns, its two maps have the same keys
    in the same order, and the count stored for a sender is the length of
    the timestamp list stored for that sender. *)
Theorem C10_maps_aligned
    (strptime : string -> string -> option datetime)
    (mail : list MailAnalysis.message) (THRESHOLD : Z)
    (counts : sdict Z) (dates : sdict (list datetime)) :
  MailAnalysis.parse_mails strptime mail THRESHOLD = Ok (counts, dates) ->
  Dict.keys counts = Dict.keys dates
  /\ (forall sender c, sget counts sender = Some c ->
        exists ts, sget dates sender = Some ts /\ c = Z.of_nat (List.length ts))
  /\ (forall sender ts, sget dates sender = Some ts ->
        sget counts sender = Some (Z.of_nat (List.length ts))).
Proof.
  unfold MailAnalysis.parse_mails.
  destruct (MailAnalysis.read_loop strptime mail [] []) as [[c0 d0]|e] eqn:E;
    simpl; [|discriminate].
  assert (H0 : aligned c0 d0)
    by (apply (read_loop_aligned strptime mail (counts:=[]) (dates:=[]));
        [constructor | exact E]).
  pose proof (threshold_loop_aligned (Dict.keys c0) THRESHOLD
                H0 (out1:=[]) (out2:=[]) ltac:(constructor)) as Hal.
  intros [= Heq]. rewrite Heq in Hal. simpl in Hal.
  split; [apply aligned_keys, Hal|].
  split; [intros; eapply aligned_get; eauto|].
  intros sender ts Hd.
  destruct (sget counts sender) as [c|] eqn:Ec.
  - destruct (aligned_get sender Hal Ec) as [ts' [H1 H2]]. congruence.
  - exfalso. apply (get_none_notin String.eqb String.eqb_eq) in Ec.
    rewrite (aligned_keys Hal) in Ec. apply Ec.
    apply (get_in String.eqb String.eqb_eq) in Hd.
    unfold Dict.keys. apply in_map_iff. exists (sender, ts). auto.
Qed.

(** ** Flood fill and labelling of the library's component search *)

Section Flood.
Variable g : matrix.
Variable n : nat.

Local Abbreviation E := (Csgraph.edge g n).
Local Abbreviation conn := (Csgraph.joined g n).

Lemma is_edge_sym (i j : nat) : Csgraph.is_edge g i j = Csgraph.is_edge g j i.
Proof. unfold Csgraph.is_edge. apply orb_comm. Qed.

Lemma E_sym (i j : nat) : E i j -> E j i.
Proof. intros (Hi & Hj & He). repeat split; auto. rewrite is_edge_sym. exact He. Qed.

Lemma conn_sym (i j : nat) : conn i j -> conn j i.
Proof.
  induction 1 as [i j H | i | i j k _ IH1 _ IH2].
  - apply rt_step, E_sym, H.
  - apply rt_refl.
  - eapply rt_trans; eauto.
Qed.

Lemma conn_range (i j : nat) : conn i j -> (i < n)%nat -> (j < n)%nat.
Proof.
  induction 1 as [i j (_ & Hj & _) | i | i j k _ IH1 _ IH2]; auto.
Qed.

Lemma mem_length (s : list bool) (j : nat) :
  Csgraph.mem s j = true -> (j < List.length s)%nat.
Proof.
  unfold Csgraph.mem. intro H.
  destruct (Nat.lt_ge_cases j (List.length s)) as [|Hge]; [assumption|].
  rewrite (nth_overflow s false Hge) in H. discriminate.
Qed.

Lemma mem_map_seq (f : nat -> bool) (j : nat) :
  Csgraph.mem (map f (seq 0 n)) j = if (j <? n)%nat then f j else false.
Proof.
  unfold Csgraph.mem. destruct (j <? n)%nat eqn:E0.
  - apply Nat.ltb_lt in E0.
    rewrite (nth_indep _ false (f 0%nat)) by (rewrite length_map, length_seq; exact E0).
    rewrite map_nth, seq_nth by exact E0. reflexivity.
  - apply Nat.ltb_ge in E0. apply nth_overflow.
    rewrite length_map, length_seq. exact E0.
Qed.

Lemma length_singleton (v : nat) : List.length (Csgraph.singleton n v) = n.
Proof. unfold Csgraph.singleton. rewrite length_map, length_seq. reflexivity. Qed.

Lemma length_expand (s : list bool) : List.length (Csgraph.expand g n s) = n.
Proof. unfold Csgraph.expand. rewrite length_map, length_seq. reflexivity. Qed.

Lemma mem_singleton (v j : nat) :
  Csgraph.mem (Csgraph.singleton n v) j = true <-> (j < n)%nat /\ v = j.
Proof.
  unfold Csgraph.singleton. rewrite mem_map_seq.
  destruct (j <? n)%nat eqn:E0.
  - apply Nat.ltb_lt in E0. rewrite Nat.eqb_eq. tauto.
  - apply Nat.ltb_ge in E0. split; [discriminate | lia].
Qed.

Lemma mem_expand (s : list bool) (j : nat) :
  Csgraph.mem (Csgraph.expand g n s) j = true <->
  (j < n)%nat /\
  (Csgraph.mem s j = true \/ exists i, Csgraph.mem s i = true /\ E i j).
Proof.
  unfold Csgraph.expand. rewrite mem_map_seq.
  destruct (j <? n)%nat eqn:E0.
  - apply Nat.ltb_lt in E0. rewrite orb_true_iff, existsb_exists.
    split.
    + intros [H | (i & Hi & H)]; split; auto.
      apply andb_true_iff in H. destruct H as [H1 H2].
      apply in_seq in Hi. right. exists i.
      split; [exact H1|]. repeat split; [lia | exact E0 | exact H2].
    + intros [_ [H | (i & H1 & (Hi & _ & H2))]]; [left; exact H|].
      right. exists i. split; [apply in_seq; lia|].
      rewrite H1, H2. reflexivity.
  - apply Nat.ltb_ge in E0. split; [discriminate | lia].
Qed.

Lemma length_iter_expand (k : nat) (s : list bool) :
  List.length s = n -> List.length (Nat.iter k (Csgraph.expand g n) s) = n.
Proof. intro H. destruct k; simpl; [exact H | apply length_expand]. Qed.

Lemma expand_grows (s : list bool) (j : nat) :
  List.length s = n ->
  Csgraph.mem s j = true -> Csgraph.mem (Csgraph.expand g n s) j = true.
Proof.
  intros Hl H. apply mem_expand. split; [|left; exact H].
  rewrite <- Hl. apply mem_length, H.
Qed.

(** Every node the flood reaches is joined to the start by a path. *)
Lemma iter_expand_sound (v k j : nat) :
  Csgraph.mem (Nat.iter k (Csgraph.expand g n) (Csgraph.singleton n v)) j = true ->
  conn v j.
Proof.
  revert j. induction k as [|k IH]; intros j; simpl.
  - rewrite mem_singleton. intros [_ ->]. apply rt_refl.
  - rewrite mem_expand. intros [_ [H | (i & H1 & H2)]]; [apply IH, H|].
    eapply rt_trans; [apply IH, H1 | apply rt_step, H2].
Qed.

(** *** The flood stops growing within [n] rounds *)

Lemma card_le_length (s : list bool) : (Csgraph.card s <= List.length s)%nat.
Proof. apply filter_length_le. Qed.

Lemma card_mono (s t : list bool) :
  List.length s = List.length t ->
  (forall j, Csgraph.mem s j = true -> Csgraph.mem t j = true) ->
  (Csgraph.card s <= Csgraph.card t)%nat /\ (Csgraph.card s = Csgraph.card t -> s = t).
Proof.
  unfold Csgraph.card. revert t.
  induction s as [|a s IH]; intros [|b t] Hl Hsub; try discriminate.
  - split; reflexivity.
  - injection Hl as Hl.
    destruct (IH t Hl (fun j => Hsub (S j))) as [IH1 IH2].
    pose proof (Hsub 0%nat) as H0. unfold Csgraph.mem in H0. simpl in H0.
    pose proof (filter_length_le (fun b => b) t) as Ht.
    destruct a, b; simpl.
    + split; [lia|]. intro H. f_equal. apply IH2. lia.
    + specialize (H0 eq_refl). discriminate.
    + split; [lia|]. intro H. exfalso. lia.
    + split; [lia|]. intro H. f_equal. apply IH2. lia.
Qed.

Lemma full_is_closed (s : list bool) :
  List.length s = n -> Csgraph.card s = n -> Csgraph.expand g n s = s.
Proof.
  intros Hl Hc. symmetry.
  destruct (@card_mono s (Csgraph.expand g n s)) as [H1 H2].
  - rewrite length_expand. exact Hl.
  - intros j. apply expand_grows, Hl.
  - apply H2. pose proof (card_le_length (Csgraph.expand g n s)) as H3.
    rewrite length_expand in H3. lia.
Qed.

Lemma iter_expand_progress (k : nat) (s0 : list bool) :
  List.length s0 = n ->
  let sk := Nat.iter k (Csgraph.expand g n) s0 in
  Csgraph.expand g n sk = sk \/ (k <= Csgraph.card sk)%nat.
Proof.
  intros Hl. induction k as [|k IH]; simpl.
  - right. lia.
  - set (sk := Nat.iter k (Csgraph.expand g n) s0) in *. simpl in IH.
    destruct IH as [IH | IH]; [left; rewrite IH; exact IH|].
    destruct (list_eq_dec bool_dec (Csgraph.expand g n sk) sk) as [Heq | Hne].
    + left. rewrite Heq. exact Heq.
    + right. assert (Hk : List.length sk = n) by (apply length_iter_expand, Hl).
      destruct (@card_mono sk (Csgraph.expand g n sk)) as [H1 H2].
      * rewrite length_expand. exact Hk.
      * intros j. apply expand_grows, Hk.
      * destruct (Nat.eq_dec (Csgraph.card sk) (Csgraph.card (Csgraph.expand g n sk))) as [Hc|Hc];
          [exfalso; apply Hne; symmetry; apply H2, Hc | lia].
Qed.

Lemma flood_closed (v : nat) :
  Csgraph.expand g n (Csgraph.flood g n v) = Csgraph.flood g n v.
Proof.
  unfold Csgraph.flood.
  destruct (@iter_expand_progress n (Csgraph.singleton n v) (length_singleton v))
    as [H | H]; [exact H|].
  apply full_is_closed.
  - apply length_iter_expand, length_singleton.
  - pose proof (card_le_length (Nat.iter n (Csgraph.expand g n) (Csgraph.singleton n v))) as H1.
    rewrite length_iter_expand in H1 by apply length_singleton. lia.
Qed.

Lemma length_flood (v : nat) : List.length (Csgraph.flood g n v) = n.
Proof. apply length_iter_expand, length_singleton. Qed.

Lemma flood_start (v : nat) :
  (v < n)%nat -> Csgraph.mem (Csgraph.flood g n v) v = true.
Proof.
  intro Hv. unfold Csgraph.flood.
  induction n as [|k IH] in |- * at 1; simpl.
  - apply mem_singleton. auto.
  - apply expand_grows; [apply length_iter_expand, length_singleton | exact IH].
Qed.

(** The flood from [v] is exactly the component of [v]. *)
Lemma flood_spec (v j : nat) :
  (v < n)%nat ->
  (Csgraph.mem (Csgraph.flood g n v) j = true <-> conn v j).
Proof.
  intro Hv. split; [apply iter_expand_sound|].
  intro H. apply clos_rt_rtn1 in H.
  induction H as [|j k Hjk _ IH]; [apply flood_start, Hv|].
  rewrite <- flood_closed. apply mem_expand.
  destruct Hjk as (Hj & Hk & He). split; [exact Hk|].
  right. exists j. split; [exact IH | repeat split; assumption].
Qed.
End Flood.

Section Labelling.
Variable g : matrix.
Variable n : nat.

Local Abbreviation conn := (Csgraph.joined g n).

Lemma length_paint (labels : list (option nat)) (s : list bool) (l : nat) :
  List.length (Csgraph.paint labels s l) = List.length labels.
Proof.
  revert s. induction labels as [|a labels IH]; intros [|b s]; simpl; auto.
Qed.

Lemma nth_paint (labels : list (option nat)) (s : list bool) (l j : nat) :
  List.length labels = List.length s ->
  nth j (Csgraph.paint labels s l) None
  = if Csgraph.mem s j then Some l else nth j labels None.
Proof.
  unfold Csgraph.mem. revert s j.
  induction labels as [|a labels IH]; intros [|b s] j Hl; try discriminate.
  - destruct j; reflexivity.
  - injection Hl as Hl. destruct j as [|j]; simpl.
    + destruct b; reflexivity.
    + apply IH, Hl.
Qed.

Lemma flood_class (v i j : nat) :
  (v < n)%nat -> conn i j ->
  Csgraph.mem (Csgraph.flood g n v) i = Csgraph.mem (Csgraph.flood g n v) j.
Proof.
  intros Hv Hij.
  destruct (Csgraph.mem (Csgraph.flood g n v) i) eqn:Ei;
    destruct (Csgraph.mem (Csgraph.flood g n v) j) eqn:Ej; try reflexivity.
  - apply (flood_spec g i Hv) in Ei.
    assert (H : conn v j) by (eapply rt_trans; eauto).
    apply (flood_spec g j Hv) in H. congruence.
  - apply (flood_spec g j Hv) in Ej.
    assert (H : conn v i) by (eapply rt_trans; [eauto | apply conn_sym, Hij]).
    apply (flood_spec g i Hv) in H. congruence.
Qed.

(** Painting the component of an unlabelled node [k] keeps the loop's
    invariant and moves it one node on. *)
Lemma paint_step (labels : list (option nat)) (label k : nat) :
  (k < n)%nat ->
  Csgraph.labelled g n labels label k ->
  nth k labels None = None ->
  Csgraph.labelled g n
    (Csgraph.paint labels (Csgraph.flood g n k) label) (S label) (S k).
Proof.
  intros Hk (I1 & I2 & I3 & I4 & I5) Hnone.
  assert (Hl : List.length labels = List.length (Csgraph.flood g n k))
    by (rewrite length_flood; exact I1).
  repeat split.
  - rewrite length_paint. exact I1.
  - intros i l. rewrite nth_paint by exact Hl.
    destruct (Csgraph.mem (Csgraph.flood g n k) i).
    + intros [= <-]. lia.
    + intro H. apply I2 in H. lia.
  - intros i j Hij. rewrite !nth_paint by exact Hl.
    rewrite (flood_class Hk Hij).
    destruct (Csgraph.mem (Csgraph.flood g n k) j); [reflexivity | apply I3, Hij].
  - intros i j l. rewrite !nth_paint by exact Hl.
    destruct (Csgraph.mem (Csgraph.flood g n k) i) eqn:Ei;
      destruct (Csgraph.mem (Csgraph.flood g n k) j) eqn:Ej.
    + intros _ _. apply (flood_spec g i Hk) in Ei. apply (flood_spec g j Hk) in Ej.
      eapply rt_trans; [apply conn_sym, Ei | exact Ej].
    + intros [= <-] H. apply I2 in H. lia.
    + intros H [= <-]. apply I2 in H. lia.
    + apply I4.
  - intros i Hi. rewrite nth_paint by exact Hl.
    destruct (Csgraph.mem (Csgraph.flood g n k) i) eqn:Ei; [discriminate|].
    destruct (Nat.eq_dec i k) as [-> | Hne].
    + rewrite (flood_start g Hk) in Ei. discriminate.
    + apply I5. lia.
Qed.

Lemma label_loop_labelled (m k : nat) (labels : list (option nat)) (label : nat) :
  (k + m = n)%nat ->
  Csgraph.labelled g n labels label k ->
  Csgraph.labelled g n
    (fst (Csgraph.label_loop g n (seq k m) labels label))
    (snd (Csgraph.label_loop g n (seq k m) labels label)) n.
Proof.
  revert k labels label.
  induction m as [|m IH]; intros k labels label Hkm Hinv; simpl.
  - assert (Hk : k = n) by lia. rewrite Hk in Hinv. exact Hinv.
  - destruct (nth k labels None) as [l|] eqn:Ek.
    + apply IH; [lia|].
      destruct Hinv as (I1 & I2 & I3 & I4 & I5). repeat split; auto.
      intros i Hi. destruct (Nat.eq_dec i k) as [-> | Hne]; [congruence|].
      apply I5. lia.
    + apply IH; [lia|]. apply paint_step; [lia | exact Hinv | exact Ek].
Qed.

Lemma labelled_start : Csgraph.labelled g n (repeat None n) 0 0.
Proof.
  assert (H : forall i, nth i (repeat (@None nat) n) None = None)
    by (intro i; apply nth_repeat).
  repeat split.
  - apply repeat_length.
  - intros i l. rewrite H. discriminate.
  - intros i j _. rewrite !H. reflexivity.
  - intros i j l. rewrite H. discriminate.
  - intros i Hi. lia.
Qed.
End Labelling.

(** The library's contract, for the model above: on a square graph the
    search returns one label per node, and two nodes carry the same label
    exactly when a path of edges joins them. *)
Lemma connected_components_spec (g : matrix) :
  is_square g = true ->
  exists n_components labels,
    Csgraph.connected_components g = Ok (n_components, labels)
    /\ List.length labels = List.length g
    /\ forall i j, (i < List.length g)%nat -> (j < List.length g)%nat ->
         (nth i labels 0%nat = nth j labels 0%nat
          <-> Csgraph.joined g (List.length g) i j).
Proof.
  intro Hsq. unfold Csgraph.connected_components. rewrite Hsq.
  set (n := List.length g).
  pose proof (@label_loop_labelled g n n 0 (repeat None n) 0 eq_refl
                (labelled_start g n)) as Hinv.
  destruct (Csgraph.label_loop g n (seq 0 n) (repeat None n) 0) as [labels nc].
  simpl in Hinv. destruct Hinv as (I1 & I2 & I3 & I4 & I5).
  exists nc. eexists. split; [reflexivity|].
  split; [rewrite length_map; exact I1|].
  intros i j Hi Hj.
  set (f := fun l : option nat => match l with Some k => k | None => 0%nat end).
  change 0%nat with (f None). rewrite !map_nth.
  destruct (nth i labels None) as [li|] eqn:Ei; [|exfalso; exact (I5 i Hi Ei)].
  destruct (nth j labels None) as [lj|] eqn:Ej; [|exfalso; exact (I5 j Hj Ej)].
  simpl. split.
  - intros ->. apply (I4 i j lj); assumption.
  - intro H. apply I3 in H. congruence.
Qed.

(** ** Thresholding *)

Section Threshold.
Variable epsilon : Q.

Lemma length_threshold (m : matrix) :
  List.length (Persistence.threshold epsilon m) = List.length m.
Proof. apply length_map. Qed.

Lemma is_square_threshold (m : matrix) :
  is_square (Persistence.threshold epsilon m) = is_square m.
Proof.
  unfold is_square. rewrite length_threshold.
  generalize (List.length m) as N. intro N.
  induction m as [|row m IH]; simpl; [reflexivity|].
  rewrite length_map, IH. reflexivity.
Qed.

Lemma square_row_length (m : matrix) (i : nat) :
  is_square m = true -> (i < List.length m)%nat ->
  List.length (nth i m []) = List.length m.
Proof.
  unfold is_square. intros Hsq Hi.
  rewrite forallb_forall in Hsq.
  apply Nat.eqb_eq, Hsq, nth_In, Hi.
Qed.

Lemma entry_threshold (m : matrix) (i j : nat) :
  (j < List.length (nth i m []))%nat ->
  entry (Persistence.threshold epsilon m) i j
  = Persistence.threshold_element epsilon (entry m i j).
Proof.
  intro Hj. unfold entry, Persistence.threshold.
  change (@nil Q) with (map (Persistence.threshold_element epsilon) []) at 1.
  rewrite map_nth.
  rewrite (nth_indep _ 0%Q (Persistence.threshold_element epsilon 0%Q))
    by (rewrite length_map; exact Hj).
  apply map_nth.
Qed.

Lemma arc_threshold (m : matrix) (i j : nat) :
  (j < List.length (nth i m []))%nat ->
  Csgraph.arc (Persistence.threshold epsilon m) i j = Qle_bool (entry m i j) epsilon.
Proof.
  intro Hj. unfold Csgraph.arc. rewrite (entry_threshold _ _ Hj).
  unfold Persistence.threshold_element.
  destruct (Qle_bool (entry m i j) epsilon); reflexivity.
Qed.

Lemma edge_within (m : matrix) (i j : nat) :
  is_square m = true ->
  (Csgraph.edge (Persistence.threshold epsilon m) (List.length m) i j
   <-> Persistence.within m epsilon i j).
Proof.
  intro Hsq. unfold Csgraph.edge, Persistence.within, Csgraph.is_edge.
  split; intros (Hi & Hj & H); (split; [exact Hi|]); (split; [exact Hj|]).
  - rewrite !arc_threshold in H by (rewrite square_row_length; assumption).
    apply orb_true_iff, H.
  - rewrite !arc_threshold by (rewrite square_row_length; assumption).
    apply orb_true_iff, H.
Qed.

Lemma clos_refl_trans_iff (A : Type) (R S : relation A) :
  (forall a b, R a b <-> S a b) ->
  forall a b, clos_refl_trans A R a b <-> clos_refl_trans A S a b.
Proof.
  intros H a b. split; induction 1 as [a b H1 | a | a b c _ IH1 _ IH2].
  - apply rt_step, H, H1.
  - apply rt_refl.
  - eapply rt_trans; eauto.
  - apply rt_step, H, H1.
  - apply rt_refl.
  - eapply rt_trans; eauto.
Qed.

Lemma joined_connected (m : matrix) (i j : nat) :
  is_square m = true ->
  (Csgraph.joined (Persistence.threshold epsilon m)
     (List.length (Persistence.threshold epsilon m)) i j
   <-> Persistence.connected m epsilon i j).
Proof.
  intro Hsq. rewrite length_threshold.
  apply clos_refl_trans_iff. intros a b. apply edge_within, Hsq.
Qed.
End Threshold.

(** ** Grouping by label *)

Lemma get_set (K V : Type) (K_eqb : K -> K -> bool)
      (K_eqb_spec : forall a b, K_eqb a b = true <-> a = b)
      (d : Dict.t K V) (k k' : K) (v : V) :
  Dict.get K_eqb (Dict.set K_eqb d k v) k'
  = if K_eqb k' k then Some v else Dict.get K_eqb d k'.
Proof.
  induction d as [|[k0 v0] d IH]; simpl; [reflexivity|].
  destruct (K_eqb k k0) eqn:E; simpl.
  - apply K_eqb_spec in E. subst k0.
    destruct (K_eqb k' k); reflexivity.
  - rewrite IH. destruct (K_eqb k' k0) eqn:E0; [|reflexivity].
    apply K_eqb_spec in E0. subst k0.
    destruct (K_eqb k' k) eqn:E1; [|reflexivity].
    apply K_eqb_spec in E1. subst k'.
    assert (K_eqb k k = true) by (apply K_eqb_spec; reflexivity). congruence.
Qed.

Lemma skipn_nth_error (A : Type) (l : list A) (i : nat) (x : A) :
  nth_error l i = Some x -> skipn i l = x :: skipn (S i) l.
Proof.
  revert i. induction l as [|a l IH]; intros [|i]; simpl; try discriminate.
  - intros [= ->]. reflexivity.
  - intro H. rewrite (IH i H). reflexivity.
Qed.

Section Grouping.
Variable A : Type.

Local Abbreviation gd := (Dict.get_default Nat.eqb (@nil A)).

Lemma get_default_append_to (d : ndict (list A)) (k l : nat) (v : A) :
  gd (Persistence.append_to d k v) l
  = if Nat.eqb l k then gd d k ++ [v] else gd d l.
Proof.
  unfold Persistence.append_to, Dict.get_default, nset.
  rewrite (get_set Nat.eqb Nat.eqb_eq). destruct (Nat.eqb l k); reflexivity.
Qed.

Lemma all_members_append_to (d : ndict (list A)) (k : nat) (v : A) :
  Permutation (Persistence.all_members (Persistence.append_to d k v))
              (Persistence.all_members d ++ [v]).
Proof.
  unfold Persistence.all_members, Persistence.append_to, nset, Dict.values.
  induction d as [|[k0 l0] d IH].
  - simpl. reflexivity.
  - unfold Dict.get_default in *. simpl. destruct (Nat.eqb k k0) eqn:E; simpl.
    + rewrite <- !app_assoc. apply Permutation_app_head, Permutation_app_comm.
    + rewrite IH, app_assoc. reflexivity.
Qed.

Lemma keys_append_to_NoDup (d : ndict (list A)) (k : nat) (v : A) :
  NoDup (Dict.keys d) -> NoDup (Dict.keys (Persistence.append_to d k v)).
Proof.
  intro H. unfold Persistence.append_to, nset.
  destruct (in_dec Nat.eq_dec k (Dict.keys d)) as [Hin | Hnin].
  - rewrite (keys_set_in Nat.eqb Nat.eqb_eq); assumption.
  - rewrite (keys_set_notin Nat.eqb Nat.eqb_eq) by assumption.
    apply NoDup_rev in H. rewrite <- (rev_involutive (_ ++ _)).
    apply NoDup_rev. rewrite rev_app_distr. simpl.
    constructor; [rewrite <- in_rev; exact Hnin | exact H].
Qed.

Lemma in_members (labels : list nat) (xs : list A) (l : nat) (x : A) :
  In x (Persistence.members labels xs l) <->
  exists i, nth_error labels i = Some l /\ nth_error xs i = Some x.
Proof.
  revert xs. induction labels as [|k labels IH]; intros [|y xs]; simpl.
  - split; [tauto | intros ([|i] & H & _); discriminate].
  - split; [tauto | intros ([|i] & H & _); discriminate].
  - split; [tauto | intros ([|i] & _ & H); discriminate].
  - destruct (Nat.eqb l k) eqn:E; simpl; rewrite IH.
    + apply Nat.eqb_eq in E. subst k. split.
      * intros [-> | (i & H)]; [exists 0%nat; auto | exists (S i); exact H].
      * intros ([|i] & H1 & H2); simpl in *; [left; congruence | right; eauto].
    + apply Nat.eqb_neq in E. split.
      * intros (i & H). exists (S i). exact H.
      * intros ([|i] & H1 & H2); simpl in *; [congruence | eauto].
Qed.
End Grouping.

Section GroupLoop.
Variables DP ID : Type.
Variable data_points : list DP.
Variable identifiers : list ID.

(** The grouping loop runs to its end when both lists are long enough,
    and then: each component is extended by its members, in order; the
    members added are those of the positions visited; the keys stay
    distinct. *)
Lemma group_loop_spec (labels : list nat) (i : nat)
      (cdp : ndict (list DP)) (cid : ndict (list ID)) :
  (i + List.length labels <= List.length data_points)%nat ->
  (i + List.length labels <= List.length identifiers)%nat ->
  NoDup (Dict.keys cid) ->
  exists cdp' cid',
    Persistence.group_loop i labels data_points identifiers cdp cid = Ok (cdp', cid')
    /\ (forall l, Dict.get_default Nat.eqb [] cid' l
                  = Dict.get_default Nat.eqb [] cid l
                    ++ Persistence.members labels (skipn i identifiers) l)
    /\ (forall l, Dict.get_default Nat.eqb [] cdp' l
                  = Dict.get_default Nat.eqb [] cdp l
                    ++ Persistence.members labels (skipn i data_points) l)
    /\ Permutation (Persistence.all_members cid')
                   (Persistence.all_members cid
                    ++ firstn (List.length labels) (skipn i identifiers))
    /\ NoDup (Dict.keys cid').
Proof.
  revert i cdp cid.
  induction labels as [|k labels IH]; intros i cdp cid Hd Hi Hnd; simpl.
  - exists cdp, cid. split; [reflexivity|].
    split; [intro; rewrite app_nil_r; reflexivity|].
    split; [intro; rewrite app_nil_r; reflexivity|].
    split; [rewrite app_nil_r; reflexivity | exact Hnd].
  - simpl in Hd, Hi.
    destruct (nth_error data_points i) as [p|] eqn:Ep;
      [|apply nth_error_None in Ep; lia].
    destruct (nth_error identifiers i) as [x|] eqn:Ex;
      [|apply nth_error_None in Ex; lia].
    destruct (IH (S i) (Persistence.append_to cdp k p) (Persistence.append_to cid k x))
      as (cdp' & cid' & H0 & H1 & H2 & H3 & H4);
      [lia | lia | apply keys_append_to_NoDup, Hnd |].
    exists cdp', cid'. split; [exact H0|].
    rewrite (skipn_nth_error _ _ Ex), (skipn_nth_error _ _ Ep).
    split; [|split; [|split; [|exact H4]]].
    + intro l. rewrite H1, get_default_append_to. simpl.
      destruct (Nat.eqb l k) eqn:E; [|reflexivity].
      apply Nat.eqb_eq in E. subst k. rewrite <- app_assoc. reflexivity.
    + intro l. rewrite H2, get_default_append_to. simpl.
      destruct (Nat.eqb l k) eqn:E; [|reflexivity].
      apply Nat.eqb_eq in E. subst k. rewrite <- app_assoc. reflexivity.
    + rewrite H3, all_members_append_to, <- app_assoc. reflexivity.
Qed.
End GroupLoop.

(** ** [obtain_connected_components] *)

(** A square matrix with at least one row has an element. *)
Lemma square_not_zero_size (m : matrix) :
  is_square m = true -> m <> [] -> Persistence.is_zero_size m = false.
Proof.
  intros Hsq Hne. destruct m as [|row rest]; [congruence|].
  pose proof (@square_row_length (row :: rest) 0 Hsq ltac:(simpl; lia)) as Hrow.
  cbn [nth List.length] in Hrow.
  unfold Persistence.is_zero_size. cbn [List.concat].
  destruct row as [|x row]; [discriminate Hrow | reflexivity].
Qed.

(** On a matrix without elements there is nothing for a map to change. *)
Lemma zero_size_map_id (f : Q -> Q) (m : matrix) :
  Persistence.is_zero_size m = true -> map (map f) m = m.
Proof.
  unfold Persistence.is_zero_size. induction m as [|row m IH]; [reflexivity|].
  cbn [List.concat map]. destruct row as [|x row]; [|discriminate].
  cbn [app map]. intro H. rewrite (IH H). reflexivity.
Qed.

Section Obtain.
Variables DP ID : Type.
Variable data_points : list DP.
Variable identifiers : list ID.
Variable diagrams : list (list (Q * option Q)).
Variable m : matrix.
Variable epsilon : Q.

Hypothesis m_square : is_square m = true.
Hypothesis m_nonempty : m <> [].
Hypothesis identifiers_length : List.length identifiers = List.length m.
Hypothesis data_points_length : List.length data_points = List.length m.

(** What the call returns on a square matrix that is not empty, with as
    many identifiers and data points as rows: the labels of the library's
    search, which
    are constant exactly on the path classes of the thresholded matrix,
    and the identifiers grouped by label. *)
Lemma obtain_connected_components_spec :
  exists labels cdp cid,
    fst (Persistence.obtain_connected_components
           (data_points, identifiers)
           (Persistence.mk_ripser diagrams m) epsilon) = Ok (cdp, cid)
    /\ List.length labels = List.length m
    /\ (forall i j, (i < List.length m)%nat -> (j < List.length m)%nat ->
          (nth i labels 0%nat = nth j labels 0%nat
           <-> Persistence.connected m epsilon i j))
    /\ (forall l, Dict.get_default Nat.eqb [] cid l
                  = Persistence.members labels identifiers l)
    /\ Permutation (Persistence.all_members cid) identifiers
    /\ NoDup (Dict.keys cid).
Proof.
  destruct (@connected_components_spec (Persistence.threshold epsilon m))
    as (nc & labels & Hcc & Hlen & Hlab);
    [rewrite is_square_threshold; exact m_square|].
  rewrite length_threshold in Hlen.
  destruct (@group_loop_spec DP ID data_points identifiers labels 0 [] [])
    as (cdp & cid & Hg & H1 & _ & H3 & H4); [lia | lia | constructor |].
  exists labels, cdp, cid.
  split.
  - unfold Persistence.obtain_connected_components.
    cbn [Persistence.dperm2all Persistence.dgms].
    rewrite (square_not_zero_size m_square m_nonempty).
    cbn [fst]. rewrite Hcc. cbn [bind snd].
    rewrite Hlen, data_points_length, Nat.eqb_refl. exact Hg.
  - split; [exact Hlen|]. split; [|split; [|split; [|exact H4]]].
    + intros i j Hi Hj. rewrite <- joined_connected by exact m_square.
      apply Hlab; rewrite length_threshold; assumption.
    + intro l. rewrite H1. reflexivity.
    + rewrite H3. simpl. rewrite firstn_all2 by lia. reflexivity.
Qed.
End Obtain.

Lemma get_default_of_get (A : Type) (d : ndict (list A)) (l : nat) (comp : list A) :
  nget d l = Some comp -> Dict.get_default Nat.eqb [] d l = comp.
Proof. unfold nget, Dict.get_default. intros ->. reflexivity. Qed.

Lemma get_of_get_default (A : Type) (d : ndict (list A)) (l : nat) (x : A) :
  In x (Dict.get_default Nat.eqb [] d l) ->
  nget d l = Some (Dict.get_default Nat.eqb [] d l).
Proof.
  unfold nget, Dict.get_default.
  destruct (Dict.get Nat.eqb d l); [reflexivity | intros []].
Qed.

(** C3, as the code has it: the loop over the distance matrix writes into
    the array the persistence engine returned.  After the call, whether
    it returned or raised, every entry of that matrix is 1 where it was
    at most epsilon and 0 elsewhere; the diagrams are as before. *)
Theorem C3_matrix_thresholded_in_place (DP ID : Type)
    (data_collection : list DP * list ID)
    (persistence : Persistence.ripser_result) (epsilon : Q) :
  let after :=
    snd (Persistence.obtain_connected_components data_collection persistence epsilon) in
  Persistence.dgms after = Persistence.dgms persistence
  /\ Persistence.dperm2all after
     = map (map (fun element => if Qle_bool element epsilon then 1%Q else 0%Q))
           (Persistence.dperm2all persistence).
Proof.
  destruct data_collection as [data_points identifiers].
  unfold Persistence.obtain_connected_components.
  destruct (Persistence.is_zero_size (Persistence.dperm2all persistence)) eqn:E;
    cbn [snd Persistence.dgms Persistence.dperm2all].
  - split; [reflexivity|]. symmetry. apply zero_size_map_id, E.
  - split; reflexivity.
Qed.

(** C3 as stated fails: on the matrix of scenario C with epsilon 0.6 the
    engine's matrix is not what it was before the call. *)
Lemma C3_matrix_changed_counterexample :
  Persistence.dperm2all
    (snd (Persistence.obtain_connected_components
            ([0; 1; 2]%nat, ["a"; "b"; "c"])
            (Persistence.mk_ripser [] Persistence.scenario_C) (6 # 10)))
  = [[1; 1; 0]; [1; 1; 0]; [0; 0; 1]]%Q
  /\ Persistence.dperm2all
       (snd (Persistence.obtain_connected_components
               ([0; 1; 2]%nat, ["a"; "b"; "c"])
               (Persistence.mk_ripser [] Persistence.scenario_C) (6 # 10)))
     <> Persistence.scenario_C.
Proof. split; [reflexivity | discriminate]. Qed.

(** C5: on a square distance matrix that is not empty, with one
    identifier and one data point per row, the call returns, and the
    components partition the identifiers: the component sizes add up to
    the number of identifiers, the components put together are a
    rearrangement of the identifier list, every identifier is in a
    component, and, the identifiers being distinct, in one only.  (On an
    empty matrix the element iterator raises and nothing is extracted.) *)
Theorem C5_components_partition (DP ID : Type)
    (data_points : list DP) (identifiers : list ID)
    (diagrams : list (list (Q * option Q))) (m : matrix) (epsilon : Q) :
  is_square m = true ->
  m <> [] ->
  List.length identifiers = List.length m ->
  List.length data_points = List.length m ->
  exists cdp cid,
    fst (Persistence.obtain_connected_components
           (data_points, identifiers)
           (Persistence.mk_ripser diagrams m) epsilon) = Ok (cdp, cid)
    /\ list_sum (map (fun c => List.length (snd c)) cid) = List.length identifiers
    /\ Permutation (List.concat (Dict.values cid)) identifiers
    /\ NoDup (Dict.keys cid)
    /\ (forall x, In x identifiers ->
          exists l comp, nget cid l = Some comp /\ In x comp)
    /\ (NoDup identifiers ->
        forall x l1 l2 c1 c2,
          nget cid l1 = Some c1 -> nget cid l2 = Some c2 ->
          In x c1 -> In x c2 -> l1 = l2).
Proof.
  intros Hsq Hne Hid Hdp.
  destruct (@obtain_connected_components_spec DP ID data_points identifiers
              diagrams m epsilon Hsq Hne Hid Hdp)
    as (labels & cdp & cid & Hok & Hlen & _ & Hmem & Hperm & Hnd).
  exists cdp, cid. split; [exact Hok|].
  split; [|split; [exact Hperm | split; [exact Hnd | split]]].
  - rewrite <- (Permutation_length Hperm).
    unfold Persistence.all_members, Dict.values.
    rewrite length_concat, map_map. reflexivity.
  - intros x Hx. apply In_nth_error in Hx. destruct Hx as [i Hi].
    assert (Hlt : (i < List.length labels)%nat).
    { rewrite Hlen, <- Hid. apply nth_error_Some. congruence. }
    exists (nth i labels 0%nat), (Dict.get_default Nat.eqb [] cid (nth i labels 0%nat)).
    assert (Hin : In x (Dict.get_default Nat.eqb [] cid (nth i labels 0%nat))).
    { rewrite Hmem. apply in_members. exists i.
      split; [apply nth_error_nth', Hlt | exact Hi]. }
    split; [eapply get_of_get_default; exact Hin | exact Hin].
  - intros Hnodup x l1 l2 c1 c2 H1 H2 Hx1 Hx2.
    apply get_default_of_get in H1, H2. rewrite Hmem in H1, H2. subst c1 c2.
    apply in_members in Hx1, Hx2.
    destruct Hx1 as (i1 & Hl1 & Hi1). destruct Hx2 as (i2 & Hl2 & Hi2).
    assert (i1 = i2).
    { apply (proj1 (NoDup_nth_error identifiers) Hnodup).
      - apply nth_error_Some. congruence.
      - congruence. }
    subst i2. congruence.
Qed.

Lemma C5_components_partition_witness :
  exists cdp cid,
    fst (Persistence.obtain_connected_components
           ([0; 1; 2]%nat, ["a"; "b"; "c"])
           (Persistence.mk_ripser [] Persistence.scenario_C) (6 # 10)) = Ok (cdp, cid)
    /\ list_sum (map (fun c => List.length (snd c)) cid) = 3%nat
    /\ Permutation (List.concat (Dict.values cid)) ["a"; "b"; "c"]
    /\ NoDup (Dict.keys cid)
    /\ (forall x, In x ["a"; "b"; "c"] ->
          exists l comp, nget cid l = Some comp /\ In x comp)
    /\ (NoDup ["a"; "b"; "c"] ->
        forall x l1 l2 c1 c2,
          nget cid l1 = Some c1 -> nget cid l2 = Some c2 ->
          In x c1 -> In x c2 -> l1 = l2).
Proof.
  apply (@C5_components_partition nat string [0; 1; 2]%nat ["a"; "b"; "c"]
           [] Persistence.scenario_C (6 # 10));
    [reflexivity | discriminate | reflexivity | reflexivity].
Defined.

(** C8: on a square distance matrix that is not empty, with one
    identifier and one data point per row, the identifiers being
    distinct, the identifiers of two indices are in a same component
    exactly when a path of edges joins the two indices, an edge being a
    pair whose matrix entry is at most epsilon; and scenario C gives the
    components {0, 1} and {2}.  (On an empty matrix the element iterator
    raises and there is no component.) *)
Theorem C8_components_are_path_classes (DP ID : Type)
    (data_points : list DP) (identifiers : list ID)
    (diagrams : list (list (Q * option Q))) (m : matrix) (epsilon : Q) :
  is_square m = true ->
  m <> [] ->
  List.length identifiers = List.length m ->
  List.length data_points = List.length m ->
  NoDup identifiers ->
  (exists cdp cid,
     fst (Persistence.obtain_connected_components
            (data_points, identifiers)
            (Persistence.mk_ripser diagrams m) epsilon) = Ok (cdp, cid)
     /\ forall i j x y,
          nth_error identifiers i = Some x ->
          nth_error identifiers j = Some y ->
          ((exists l comp, nget cid l = Some comp /\ In x comp /\ In y comp)
           <-> Persistence.connected m epsilon i j))
  /\ fst (Persistence.obtain_connected_components
            ([0; 1; 2]%nat, [0; 1; 2]%nat)
            (Persistence.mk_ripser [] Persistence.scenario_C) (6 # 10))
     = Ok ([(0, [0; 1]); (1, [2])]%nat, [(0, [0; 1]); (1, [2])]%nat).
Proof.
  intros Hsq Hne Hid Hdp Hnodup. split; [|vm_compute; reflexivity].
  destruct (@obtain_connected_components_spec DP ID data_points identifiers
              diagrams m epsilon Hsq Hne Hid Hdp)
    as (labels & cdp & cid & Hok & Hlen & Hlab & Hmem & _ & _).
  exists cdp, cid. split; [exact Hok|].
  intros i j x y Hx Hy.
  assert (Hi : (i < List.length m)%nat)
    by (rewrite <- Hid; apply nth_error_Some; congruence).
  assert (Hj : (j < List.length m)%nat)
    by (rewrite <- Hid; apply nth_error_Some; congruence).
  rewrite <- (Hlab i j Hi Hj). split.
  - intros (l & comp & Hget & Hxc & Hyc).
    apply get_default_of_get in Hget. rewrite Hmem in Hget. subst comp.
    apply in_members in Hxc, Hyc.
    destruct Hxc as (i' & Hli & Hxi). destruct Hyc as (j' & Hlj & Hyj).
    assert (i' = i).
    { apply (proj1 (NoDup_nth_error identifiers) Hnodup).
      - apply nth_error_Some. congruence.
      - congruence. }
    assert (j' = j).
    { apply (proj1 (NoDup_nth_error identifiers) Hnodup).
      - apply nth_error_Some. congruence.
      - congruence. }
    subst i' j'.
    rewrite (nth_error_nth _ _ 0%nat Hli), (nth_error_nth _ _ 0%nat Hlj). reflexivity.
  - intro Heq.
    set (l := nth i labels 0%nat).
    assert (Hxin : In x (Dict.get_default Nat.eqb [] cid l)).
    { rewrite Hmem. apply in_members. exists i.
      split; [apply nth_error_nth'; lia | exact Hx]. }
    assert (Hyin : In y (Dict.get_default Nat.eqb [] cid l)).
    { rewrite Hmem. apply in_members. exists j.
      split; [unfold l; rewrite Heq; apply nth_error_nth'; lia | exact Hy]. }
    exists l, (Dict.get_default Nat.eqb [] cid l).
    split; [eapply get_of_get_default; exact Hxin | split; assumption].
Qed.

Lemma C8_components_are_path_classes_witness :
  exists cdp cid,
    fst (Persistence.obtain_connected_components
           ([0; 1; 2]%nat, ["a"; "b"; "c"])
           (Persistence.mk_ripser [] Persistence.scenario_C) (6 # 10)) = Ok (cdp, cid)
    /\ forall i j x y,
         nth_error ["a"; "b"; "c"] i = Some x ->
         nth_error ["a"; "b"; "c"] j = Some y ->
         ((exists l comp, nget cid l = Some comp /\ In x comp /\ In y comp)
          <-> Persistence.connected Persistence.scenario_C (6 # 10) i j).
Proof.
  apply (@C8_components_are_path_classes nat string [0; 1; 2]%nat ["a"; "b"; "c"]
           [] Persistence.scenario_C (6 # 10)); try reflexivity.
  - discriminate.
  - repeat constructor; simpl; intuition discriminate.
Defined.

Lemma C10_maps_aligned_witness :
  Dict.keys [("ann@x.org", 2)] = Dict.keys [("ann@x.org", [at_time 10 0 0; at_time 23 30 0])]
  /\ (forall sender c, sget [("ann@x.org", 2)] sender = Some c ->
        exists ts, sget [("ann@x.org", [at_time 10 0 0; at_time 23 30 0])] sender = Some ts
                   /\ c = Z.of_nat (List.length ts))
  /\ (forall sender ts,
        sget [("ann@x.org", [at_time 10 0 0; at_time 23 30 0])] sender = Some ts ->
        sget [("ann@x.org", 2)] sender = Some (Z.of_nat (List.length ts))).
Proof.
  apply (@C10_maps_aligned MailAnalysis.example_strptime
           [MailAnalysis.mk_message (Some "Ann <Ann@X.org>") (Some "Mon, 5 Jun 2023 10:00:00 +0200");
            MailAnalysis.mk_message (Some "bob@x.org") (Some "5 Jun 2023 08:15");
            MailAnalysis.mk_message None (Some "5 Jun 2023 08:15");
            MailAnalysis.mk_message (Some "ann@x.org") (Some "Mon, 5 Jun 2023 23:30:00 +0200")]
           2).
  reflexivity.
Defined.

(* ================================================================== *)
(** * Part III: further properties of the code *)
(* ================================================================== *)

(** ** Dictionaries with distinct keys *)

Section FreshKeys.
Variable K : Type.
Variable K_eqb : K -> K -> bool.
Hypothesis K_eqb_spec : forall a b, K_eqb a b = true <-> a = b.
Variable V : Type.

Lemma set_fresh (d : Dict.t K V) (k : K) (v : V) :
  ~ In k (Dict.keys d) -> Dict.set K_eqb d k v = d ++ [(k, v)].
Proof.
  induction d as [|[k0 v0] d IH]; simpl; [reflexivity|].
  intro H. destruct (K_eqb k k0) eqn:E.
  - apply K_eqb_spec in E. subst. tauto.
  - rewrite IH by tauto. reflexivity.
Qed.

Lemma get_of_in (d : Dict.t K V) (k : K) (v : V) :
  NoDup (Dict.keys d) -> In (k, v) d -> Dict.get K_eqb d k = Some v.
Proof.
  induction d as [|[k0 v0] d IH]; simpl; [tauto|].
  intros Hnd [H | H].
  - injection H as -> ->.
    replace (K_eqb k k) with true by (symmetry; apply K_eqb_spec; reflexivity).
    reflexivity.
  - inversion Hnd as [|? ? Hnotin Hnd']. subst.
    destruct (K_eqb k k0) eqn:E; [|apply IH; assumption].
    apply K_eqb_spec in E. subst k0. exfalso. apply Hnotin.
    unfold Dict.keys. apply in_map_iff. exists (k, v). auto.
Qed.

Lemma keys_app (d1 d2 : Dict.t K V) :
  Dict.keys (d1 ++ d2) = Dict.keys d1 ++ Dict.keys d2.
Proof. apply map_app. Qed.
End FreshKeys.

(** ** Feature aggregation, sender by sender *)

Lemma add_timestamps_app (total : Z) (l1 l2 : list datetime) :
  Features.add_timestamps total (l1 ++ l2)
  = Features.add_timestamps (Features.add_timestamps total l1) l2.
Proof. unfold Features.add_timestamps. apply fold_left_app. Qed.

Lemma length_zero_iff (A : Type) (l : list A) :
  (Z.of_nat (List.length l) =? 0) = true <-> l = [].
Proof.
  destruct l; simpl List.length; split; intro H; try reflexivity;
    try discriminate; apply Z.eqb_eq in H; lia.
Qed.

Lemma average_loop_runs (items : sdict (list datetime)) (total : Z) (out : sdict Z) :
  (forall s ts, In (s, ts) items -> ts <> []) ->
  NoDup (Dict.keys out ++ Dict.keys items) ->
  Features.average_loop items total out = Ok (out ++ running_averages items total).
Proof.
  revert total out.
  induction items as [|[s ts] items IH]; intros total out Hne Hnd; simpl.
  - rewrite app_nil_r. reflexivity.
  - destruct (Z.of_nat (List.length ts) =? 0) eqn:E.
    + apply length_zero_iff in E. exfalso. exact (Hne s ts (or_introl eq_refl) E).
    + unfold sset. rewrite (set_fresh String.eqb String.eqb_eq).
      * rewrite IH.
        -- rewrite <- app_assoc. reflexivity.
        -- intros s' ts' H. apply (Hne s' ts'). right. exact H.
        -- rewrite keys_app, <- app_assoc. exact Hnd.
      * intro Hin. simpl in Hnd. apply NoDup_remove_2 in Hnd.
        apply Hnd, in_or_app. left. exact Hin.
Qed.

Lemma average_loop_raises (items : sdict (list datetime)) (total : Z) (out : sdict Z)
      (e : exn) :
  Features.average_loop items total out = Raise e ->
  e = ZeroDivisionError /\ exists s, In (s, []) items.
Proof.
  revert total out.
  induction items as [|[s ts] items IH]; intros total out; simpl; [discriminate|].
  destruct (Z.of_nat (List.length ts) =? 0) eqn:E.
  - apply length_zero_iff in E. subst ts. intros [= <-]. split; [reflexivity|].
    exists s. left. reflexivity.
  - intro H. apply IH in H. destruct H as [He [s' Hs']].
    split; [exact He|]. exists s'. right. exact Hs'.
Qed.

Lemma average_loop_empty_list (items : sdict (list datetime)) (total : Z)
      (out : sdict Z) (s : string) :
  In (s, []) items ->
  Features.average_loop items total out = Raise ZeroDivisionError.
Proof.
  revert total out.
  induction items as [|[s0 ts] items IH]; intros total out Hin; [destruct Hin|].
  simpl. destruct (Z.of_nat (List.length ts) =? 0) eqn:E; [reflexivity|].
  destruct Hin as [H | H]; [|apply IH, H].
  injection H as _ ->. discriminate E.
Qed.

Lemma running_averages_keys (items : sdict (list datetime)) (total : Z) :
  Dict.keys (running_averages items total) = Dict.keys items.
Proof.
  revert total. induction items as [|[s ts] items IH]; intro total; simpl;
    [reflexivity | f_equal; apply IH].
Qed.

Lemma running_averages_nth (items : sdict (list datetime)) (total : Z)
      (i : nat) (s : string) (ts : list datetime) :
  nth_error items i = Some (s, ts) ->
  nth_error (running_averages items total) i
  = Some (s, py_round_div
               (Features.add_timestamps total (timestamps_upto items (S i)))
               (Z.of_nat (List.length ts))).
Proof.
  revert total i. unfold timestamps_upto.
  induction items as [|[s0 ts0] items IH]; intros total [|i]; simpl; try discriminate.
  - intros [= -> ->]. rewrite app_nil_r. reflexivity.
  - intro H. rewrite (IH _ _ H). rewrite add_timestamps_app. reflexivity.
Qed.

(** X1: on a mapping with distinct senders and no empty list,
    [average_timestamps_in_seconds] returns one value per sender, in the
    senders' order; the value of the sender at position [i] is the total
    of the seconds of all timestamps of the senders at positions 0 to [i],
    divided by the number of timestamps of sender [i] alone, and rounded. *)
Theorem X1_average_is_running_total (d : sdict (list datetime)) :
  NoDup (Dict.keys d) ->
  (forall s ts, In (s, ts) d -> ts <> []) ->
  exists out,
    Features.average_timestamps_in_seconds d = Ok out
    /\ Dict.keys out = Dict.keys d
    /\ forall i s ts,
         nth_error d i = Some (s, ts) ->
         sget out s
         = Some (py_round_div
                   (Features.add_timestamps 0 (timestamps_upto d (S i)))
                   (Z.of_nat (List.length ts))).
Proof.
  intros Hnd Hne. exists (running_averages d 0).
  unfold Features.average_timestamps_in_seconds.
  rewrite average_loop_runs by assumption. simpl.
  split; [reflexivity|]. split; [apply running_averages_keys|].
  intros i s ts Hi. unfold sget.
  apply (get_of_in String.eqb String.eqb_eq).
  - rewrite running_averages_keys. exact Hnd.
  - eapply nth_error_In. apply running_averages_nth. exact Hi.
Qed.

Lemma X1_average_is_running_total_witness :
  exists out,
    Features.average_timestamps_in_seconds
      [("a", [at_time 1 0 0; at_time 3 0 0]); ("b", [at_time 2 0 0])] = Ok out
    /\ Dict.keys out = ["a"; "b"]
    /\ forall i s ts,
         nth_error [("a", [at_time 1 0 0; at_time 3 0 0]); ("b", [at_time 2 0 0])] i
         = Some (s, ts) ->
         sget out s
         = Some (py_round_div
                   (Features.add_timestamps 0
                      (timestamps_upto
                         [("a", [at_time 1 0 0; at_time 3 0 0]); ("b", [at_time 2 0 0])]
                         (S i)))
                   (Z.of_nat (List.length ts))).
Proof.
  apply (@X1_average_is_running_total
           [("a", [at_time 1 0 0; at_time 3 0 0]); ("b", [at_time 2 0 0])]).
  - repeat constructor; simpl; intuition discriminate.
  - intros s ts [H | [H | []]]; injection H as _ <-; discriminate.
Defined.

(** X2: [average_timestamps_in_seconds] raises exactly when some sender
    has an empty timestamp list, and what it raises is the
    [ZeroDivisionError] of the division by that list's length. *)
Theorem X2_average_raises_on_empty_list (d : sdict (list datetime)) :
  ((exists s, In (s, []) d)
   <-> Features.average_timestamps_in_seconds d = Raise ZeroDivisionError)
  /\ (forall e, Features.average_timestamps_in_seconds d = Raise e ->
                e = ZeroDivisionError).
Proof.
  unfold Features.average_timestamps_in_seconds. split; [split|].
  - intros [s Hs]. eapply average_loop_empty_list; exact Hs.
  - intro H. apply average_loop_raises in H. tauto.
  - intros e H. apply average_loop_raises in H. tauto.
Qed.

Lemma weekday_loop_runs (items : sdict (list datetime)) (out : sdict Z) :
  (forall s ts, In (s, ts) items -> ts <> []) ->
  NoDup (Dict.keys out ++ Dict.keys items) ->
  Features.weekday_loop items out
  = Ok (out ++ map (fun p => (fst p,
                              py_round_div (sumZ (map weekday (snd p)))
                                           (Z.of_nat (List.length (snd p)))))
                   items).
Proof.
  revert out.
  induction items as [|[s ts] items IH]; intros out Hne Hnd; simpl.
  - rewrite app_nil_r. reflexivity.
  - destruct (Z.of_nat (List.length ts) =? 0) eqn:E.
    + apply length_zero_iff in E. exfalso. exact (Hne s ts (or_introl eq_refl) E).
    + unfold sset. rewrite (set_fresh String.eqb String.eqb_eq).
      * rewrite IH.
        -- rewrite <- app_assoc. reflexivity.
        -- intros s' ts' H. apply (Hne s' ts'). right. exact H.
        -- rewrite keys_app, <- app_assoc. exact Hnd.
      * intro Hin. simpl in Hnd. apply NoDup_remove_2 in Hnd.
        apply Hnd, in_or_app. left. exact Hin.
Qed.

Lemma weekday_loop_raises (items : sdict (list datetime)) (out : sdict Z) (e : exn) :
  Features.weekday_loop items out = Raise e ->
  e = ZeroDivisionError /\ exists s, In (s, []) items.
Proof.
  revert out.
  induction items as [|[s ts] items IH]; intros out; simpl; [discriminate|].
  destruct (Z.of_nat (List.length ts) =? 0) eqn:E.
  - apply length_zero_iff in E. subst ts. intros [= <-]. split; [reflexivity|].
    exists s. left. reflexivity.
  - intro H. apply IH in H. destruct H as [He [s' Hs']].
    split; [exact He|]. exists s'. right. exact Hs'.
Qed.

Lemma weekday_loop_empty_list (items : sdict (list datetime)) (out : sdict Z)
      (s : string) :
  In (s, []) items -> Features.weekday_loop items out = Raise ZeroDivisionError.
Proof.
  revert out.
  induction items as [|[s0 ts] items IH]; intros out Hin; [destruct Hin|].
  simpl. destruct (Z.of_nat (List.length ts) =? 0) eqn:E; [reflexivity|].
  destruct Hin as [H | H]; [|apply IH, H].
  injection H as _ ->. discriminate E.
Qed.

(** X3: on a mapping with distinct senders and no empty list,
    [weekday_average] returns one value per sender, in the senders' order;
    each value is the rounded mean of that sender's own weekdays, whatever
    the other senders hold, and lies between 0 and 6. *)
Theorem X3_weekday_average_per_sender (d : sdict (list datetime)) :
  NoDup (Dict.keys d) ->
  (forall s ts, In (s, ts) d -> ts <> []) ->
  exists out,
    Features.weekday_average d = Ok out
    /\ Dict.keys out = Dict.keys d
    /\ forall s ts,
         In (s, ts) d ->
         sget out s = Some (py_round_div (sumZ (map weekday ts))
                                         (Z.of_nat (List.length ts)))
         /\ 0 <= py_round_div (sumZ (map weekday ts)) (Z.of_nat (List.length ts)) <= 6.
Proof.
  intros Hnd Hne. unfold Features.weekday_average.
  rewrite weekday_loop_runs by assumption. simpl.
  eexists. split; [reflexivity|].
  assert (Hk : forall f : string * list datetime -> Z,
             Dict.keys (map (fun p => (fst p, f p)) d) = Dict.keys d).
  { intro f. unfold Dict.keys. rewrite map_map. reflexivity. }
  split; [apply (Hk (fun p => py_round_div (sumZ (map weekday (snd p)))
                                           (Z.of_nat (List.length (snd p)))))|].
  intros s ts Hin. split.
  - unfold sget. apply (get_of_in String.eqb String.eqb_eq).
    + rewrite (Hk (fun p => py_round_div (sumZ (map weekday (snd p)))
                                         (Z.of_nat (List.length (snd p))))).
      exact Hnd.
    + apply in_map_iff. exists (s, ts). split; [reflexivity | exact Hin].
  - rewrite sumZ_map. apply py_round_div_bounds.
    + specialize (Hne s ts Hin). destruct ts; [congruence | simpl List.length; lia].
    + apply fold_add_bounds. intros; apply weekday_range.
Qed.

Lemma X3_weekday_average_per_sender_witness :
  exists out,
    Features.weekday_average
      [("a", [at_time 1 0 0; mk_datetime 2023 6 8 9 0 0]); ("b", [at_time 2 0 0])]
    = Ok out
    /\ Dict.keys out = ["a"; "b"]
    /\ forall s ts,
         In (s, ts) [("a", [at_time 1 0 0; mk_datetime 2023 6 8 9 0 0]);
                     ("b", [at_time 2 0 0])] ->
         sget out s = Some (py_round_div (sumZ (map weekday ts))
                                         (Z.of_nat (List.length ts)))
         /\ 0 <= py_round_div (sumZ (map weekday ts)) (Z.of_nat (List.length ts)) <= 6.
Proof.
  apply (@X3_weekday_average_per_sender
           [("a", [at_time 1 0 0; mk_datetime 2023 6 8 9 0 0]); ("b", [at_time 2 0 0])]).
  - repeat constructor; simpl; intuition discriminate.
  - intros s ts [H | [H | []]]; injection H as _ <-; discriminate.
Defined.

(** X4: [weekday_average] raises exactly when some sender has an empty
    timestamp list, and what it raises is a [ZeroDivisionError]. *)
Theorem X4_weekday_average_raises_on_empty_list (d : sdict (list datetime)) :
  ((exists s, In (s, []) d)
   <-> Features.weekday_average d = Raise ZeroDivisionError)
  /\ (forall e, Features.weekday_average d = Raise e -> e = ZeroDivisionError).
Proof.
  unfold Features.weekday_average. split; [split|].
  - intros [s Hs]. eapply weekday_loop_empty_list; exact Hs.
  - intro H. apply weekday_loop_raises in H. tauto.
  - intros e H. apply weekday_loop_raises in H. tauto.
Qed.

(** ** The most frequent weekday *)

Lemma Zeqb_spec (a b : Z) : Z.eqb a b = true <-> a = b.
Proof. apply Z.eqb_eq. Qed.

Section SetKeys.
Variable K : Type.
Variable K_eqb : K -> K -> bool.
Hypothesis K_eqb_spec : forall a b, K_eqb a b = true <-> a = b.
Hypothesis K_eq_dec : forall a b : K, {a = b} + {a <> b}.
Variable V : Type.

Lemma keys_set_NoDup (d : Dict.t K V) (k : K) (v : V) :
  NoDup (Dict.keys d) -> NoDup (Dict.keys (Dict.set K_eqb d k v)).
Proof.
  intro H. destruct (in_dec K_eq_dec k (Dict.keys d)) as [Hin | Hnin].
  - rewrite (keys_set_in K_eqb K_eqb_spec); assumption.
  - rewrite (keys_set_notin K_eqb K_eqb_spec) by assumption.
    apply NoDup_rev in H. rewrite <- (rev_involutive (_ ++ _)).
    apply NoDup_rev. rewrite rev_app_distr. simpl.
    constructor; [rewrite <- in_rev; exact Hnin | exact H].
Qed.

Lemma keys_set_cases (d : Dict.t K V) (k k' : K) (v : V) :
  In k' (Dict.keys (Dict.set K_eqb d k v)) -> k' = k \/ In k' (Dict.keys d).
Proof.
  destruct (in_dec K_eq_dec k (Dict.keys d)) as [Hin | Hnin].
  - rewrite (keys_set_in K_eqb K_eqb_spec) by assumption. auto.
  - rewrite (keys_set_notin K_eqb K_eqb_spec) by assumption.
    intro H. apply in_app_or in H. destruct H as [H | [H | []]]; auto.
Qed.

Lemma NoDup_keys_filter (f : K * V -> bool) (d : Dict.t K V) :
  NoDup (Dict.keys d) -> NoDup (map fst (filter f d)).
Proof.
  unfold Dict.keys. induction d as [|p d IH]; simpl; intro H; [constructor|].
  inversion H as [|? ? Hnotin Hnd]. subst.
  destruct (f p); simpl; [|apply IH, Hnd].
  constructor; [|apply IH, Hnd].
  intro Hin. apply Hnotin. apply in_map_iff in Hin.
  destruct Hin as (q & Hq & Hqin). apply filter_In in Hqin.
  apply in_map_iff. exists q. tauto.
Qed.
End SetKeys.

Lemma count_from_get (ws : list Z) (counter : Dict.t Z Z) (k : Z) :
  Dict.get_default Z.eqb 0 (WeekdayMaximum.count_from ws counter) k
  = Dict.get_default Z.eqb 0 counter k + Z.of_nat (count_occ Z.eq_dec ws k).
Proof.
  revert counter. induction ws as [|w ws IH]; intro counter; simpl; [lia|].
  rewrite IH. unfold Dict.get_default at 1.
  rewrite (get_set Z.eqb Zeqb_spec).
  destruct (Z.eq_dec w k) as [-> | Hne].
  - rewrite Z.eqb_refl. lia.
  - replace (k =? w) with false by (symmetry; apply Z.eqb_neq; congruence).
    fold (Dict.get_default Z.eqb 0 counter k). lia.
Qed.

Lemma count_from_keys_NoDup (ws : list Z) (counter : Dict.t Z Z) :
  NoDup (Dict.keys counter) ->
  NoDup (Dict.keys (WeekdayMaximum.count_from ws counter)).
Proof.
  revert counter. induction ws as [|w ws IH]; intros counter H; simpl; [exact H|].
  apply IH, (keys_set_NoDup Z.eqb Zeqb_spec Z.eq_dec), H.
Qed.

Lemma count_from_keys (ws : list Z) (counter : Dict.t Z Z) (k : Z) :
  In k (Dict.keys (WeekdayMaximum.count_from ws counter)) ->
  In k (Dict.keys counter) \/ In k ws.
Proof.
  revert counter. induction ws as [|w ws IH]; intros counter H; simpl in *; [auto|].
  apply IH in H. destruct H as [H | H]; [|auto].
  apply (keys_set_cases Z.eqb Zeqb_spec Z.eq_dec) in H. destruct H as [-> | H]; auto.
Qed.

(** A [Counter] holds, for each weekday that occurs, how often it occurs. *)
Lemma Counter_spec (ws : list Z) (k c : Z) :
  In (k, c) (WeekdayMaximum.Counter ws) ->
  In k ws /\ c = Z.of_nat (count_occ Z.eq_dec ws k).
Proof.
  intro H. unfold WeekdayMaximum.Counter in *. split.
  - assert (Hk : In k (Dict.keys (WeekdayMaximum.count_from ws [])))
      by (unfold Dict.keys; apply in_map_iff; exists (k, c); auto).
    apply count_from_keys in Hk. destruct Hk as [[] | Hk]. exact Hk.
  - apply (get_of_in Z.eqb Zeqb_spec) in H;
      [|apply count_from_keys_NoDup; constructor].
    pose proof (count_from_get ws [] k) as Hg.
    unfold Dict.get_default in Hg at 1. rewrite H in Hg. simpl in Hg. lia.
Qed.

Lemma Counter_has (ws : list Z) (k : Z) :
  In k ws -> In (k, Z.of_nat (count_occ Z.eq_dec ws k)) (WeekdayMaximum.Counter ws).
Proof.
  intro H. unfold WeekdayMaximum.Counter.
  pose proof (count_from_get ws [] k) as Hg.
  apply (count_occ_In Z.eq_dec) in H.
  unfold Dict.get_default in Hg at 1.
  destruct (Dict.get Z.eqb (WeekdayMaximum.count_from ws []) k) as [c|] eqn:E.
  - apply (get_in Z.eqb Zeqb_spec) in E. simpl in Hg. rewrite <- Hg. exact E.
  - simpl in Hg. lia.
Qed.

Lemma max_from_spec (best : Z * Z) (items : list (Z * Z)) :
  In (WeekdayMaximum.max_from best items) (best :: items)
  /\ forall item, In item (best :: items) ->
       snd item <= snd (WeekdayMaximum.max_from best items).
Proof.
  revert best. induction items as [|it items IH]; intro best; simpl.
  - split; [auto|]. intros item [<- | []]. lia.
  - destruct (snd best <? snd it) eqn:E.
    + apply Z.ltb_lt in E. destruct (IH it) as [H1 H2]. split.
      * simpl in H1. tauto.
      * intros item [<- | H]; [|apply H2, H].
        specialize (H2 it (or_introl eq_refl)). lia.
    + apply Z.ltb_ge in E. destruct (IH best) as [H1 H2]. split.
      * simpl in H1. tauto.
      * intros item [<- | [<- | H]].
        -- apply H2. left. reflexivity.
        -- specialize (H2 best (or_introl eq_refl)). lia.
        -- apply H2. right. exact H.
Qed.

Lemma sumZ_bounds (l : list Z) (lo hi : Z) :
  (forall x, In x l -> lo <= x <= hi) ->
  lo * Z.of_nat (List.length l) <= sumZ l <= hi * Z.of_nat (List.length l).
Proof.
  intro H. rewrite <- (map_id l) at 2 3. rewrite sumZ_map.
  apply fold_add_bounds. exact H.
Qed.

Lemma Counter_nonempty (ws : list Z) : ws <> [] -> WeekdayMaximum.Counter ws <> [].
Proof.
  destruct ws as [|w ws]; [congruence|]. intros _ H.
  pose proof (Counter_has (w :: ws) w (or_introl eq_refl)) as Hin.
  rewrite H in Hin. destruct Hin.
Qed.

(** For one sender: a list that is not empty yields a weekday between 0
    and 6. *)
Lemma most_frequent_weekday_range (ts : list datetime) :
  ts <> [] ->
  exists w, WeekdayMaximum.most_frequent_weekday ts = Ok w /\ 0 <= w <= 6.
Proof.
  intro Hne. unfold WeekdayMaximum.most_frequent_weekday.
  set (ws := map weekday ts).
  assert (Hws : forall k, In k ws -> 0 <= k <= 6).
  { intros k Hk. apply in_map_iff in Hk. destruct Hk as (t & <- & _).
    apply weekday_range. }
  assert (Hc : WeekdayMaximum.Counter ws <> []).
  { apply Counter_nonempty. destruct ts; [congruence | discriminate]. }
  destruct (WeekdayMaximum.Counter ws) as [|it items] eqn:Ec; [congruence|].
  cbn [WeekdayMaximum.max_by_count bind].
  eexists. split; [reflexivity|].
  destruct (max_from_spec it items) as [Hin _].
  rewrite <- Ec in *.
  assert (Hkeys : forall k, In k (Dict.keys (WeekdayMaximum.Counter ws)) -> 0 <= k <= 6).
  { intros k Hk. unfold Dict.keys in Hk. apply in_map_iff in Hk.
    destruct Hk as ([k' c] & <- & Hk). apply Counter_spec in Hk. apply Hws, Hk. }
  match goal with |- context [if ?b then _ else _] => destruct b eqn:E2 end.
  - apply py_round_div_bounds.
    + apply Nat.leb_le in E2. lia.
    + apply sumZ_bounds. intros x Hx. apply Hkeys.
      apply in_map_iff in Hx. destruct Hx as (q & <- & Hq).
      apply filter_In in Hq. unfold Dict.keys. apply in_map. tauto.
  - apply Hkeys. unfold Dict.keys. apply in_map. exact Hin.
Qed.

Lemma maximum_loop_runs (items : sdict (list datetime)) (out : sdict Z) :
  (forall s ts, In (s, ts) items -> ts <> []) ->
  NoDup (Dict.keys out ++ Dict.keys items) ->
  exists vs,
    WeekdayMaximum.maximum_loop items out = Ok (out ++ vs)
    /\ Forall2 (fun p q => fst q = fst p
                           /\ WeekdayMaximum.most_frequent_weekday (snd p) = Ok (snd q))
               items vs.
Proof.
  revert out.
  induction items as [|[s ts] items IH]; intros out Hne Hnd; simpl.
  - exists []. rewrite app_nil_r. split; [reflexivity | constructor].
  - destruct (most_frequent_weekday_range (Hne s ts (or_introl eq_refl)))
      as (w & Hw & _).
    rewrite Hw. cbn [bind].
    unfold sset. rewrite (set_fresh String.eqb String.eqb_eq).
    + destruct (IH (out ++ [(s, w)])) as (vs & Hrun & Hall).
      * intros s' ts' H. apply (Hne s' ts'). right. exact H.
      * rewrite keys_app, <- app_assoc. exact Hnd.
      * exists ((s, w) :: vs). rewrite Hrun, <- app_assoc. split; [reflexivity|].
        constructor; [split; [reflexivity | exact Hw] | exact Hall].
    + intro Hin. simpl in Hnd. apply NoDup_remove_2 in Hnd.
      apply Hnd, in_or_app. left. exact Hin.
Qed.

Lemma maximum_loop_empty_list (items : sdict (list datetime)) (acc : sdict Z)
      (s : string) :
  In (s, []) items ->
  WeekdayMaximum.maximum_loop items acc = Raise ValueError.
Proof.
  revert acc.
  induction items as [|[s0 ts] items IH]; intros acc Hin; [destruct Hin|].
  simpl. destruct ts as [|t ts].
  - reflexivity.
  - destruct Hin as [H | H]; [discriminate H|].
    destruct (@most_frequent_weekday_range (t :: ts) ltac:(discriminate))
      as (w & Hw & _).
    rewrite Hw. cbn [bind]. apply IH, H.
Qed.

Lemma Forall2_keys_in (items : sdict (list datetime)) (vs : sdict Z)
      (s : string) (ts : list datetime) :
  Forall2 (fun p q => fst q = fst p
                      /\ WeekdayMaximum.most_frequent_weekday (snd p) = Ok (snd q))
          items vs ->
  In (s, ts) items ->
  Dict.keys vs = Dict.keys items
  /\ exists w, In (s, w) vs /\ WeekdayMaximum.most_frequent_weekday ts = Ok w.
Proof.
  induction 1 as [|[s1 ts1] [s2 w2] items vs [Hk Hv] Hall IH]; intro Hin;
    [destruct Hin|].
  simpl in Hk, Hv. subst s2. destruct Hin as [H | H].
  - injection H as -> ->. split.
    + simpl. f_equal. clear -Hall. induction Hall as [|p q ? ? [Hk _] _ IH];
        [reflexivity | simpl; rewrite Hk; f_equal; exact IH].
    + exists w2. split; [left; reflexivity | exact Hv].
  - destruct (IH H) as [Hkeys (w & Hw1 & Hw2)]. split.
    + simpl. f_equal. exact Hkeys.
    + exists w. split; [right; exact Hw1 | exact Hw2].
Qed.

(** X5: on a mapping with distinct senders and no empty list,
    [weekday_maximum] returns one weekday per sender, in the senders'
    order, computed from that sender's own list, and between 0 and 6. *)
Theorem X5_weekday_maximum_per_sender (d : sdict (list datetime)) :
  NoDup (Dict.keys d) ->
  (forall s ts, In (s, ts) d -> ts <> []) ->
  exists out,
    WeekdayMaximum.weekday_maximum d = Ok out
    /\ Dict.keys out = Dict.keys d
    /\ forall s ts, In (s, ts) d ->
         exists w, sget out s = Some w
                   /\ WeekdayMaximum.most_frequent_weekday ts = Ok w
                   /\ 0 <= w <= 6.
Proof.
  intros Hnd Hne. unfold WeekdayMaximum.weekday_maximum.
  destruct (@maximum_loop_runs d [] Hne Hnd) as (vs & Hrun & Hall).
  exists vs. split; [exact Hrun|].
  destruct d as [|[s0 ts0] d'].
  - inversion Hall. subst. split; [reflexivity | intros s ts []].
  - destruct (Forall2_keys_in s0 ts0 Hall (or_introl eq_refl)) as [Hkeys _].
    split; [exact Hkeys|].
    intros s ts Hin.
    destruct (Forall2_keys_in s ts Hall Hin) as [_ (w & Hw1 & Hw2)].
    exists w. split; [|split; [exact Hw2|]].
    + unfold sget. apply (get_of_in String.eqb String.eqb_eq); [|exact Hw1].
      rewrite Hkeys. exact Hnd.
    + destruct (most_frequent_weekday_range (Hne s ts Hin)) as (w' & Hw' & Hr).
      congruence.
Qed.

Lemma X5_weekday_maximum_per_sender_witness :
  exists out,
    WeekdayMaximum.weekday_maximum
      [("a", [at_time 1 0 0; mk_datetime 2023 6 8 9 0 0]); ("b", [at_time 2 0 0])]
    = Ok out
    /\ Dict.keys out = ["a"; "b"]
    /\ forall s ts,
         In (s, ts) [("a", [at_time 1 0 0; mk_datetime 2023 6 8 9 0 0]);
                     ("b", [at_time 2 0 0])] ->
         exists w, sget out s = Some w
                   /\ WeekdayMaximum.most_frequent_weekday ts = Ok w
                   /\ 0 <= w <= 6.
Proof.
  apply (@X5_weekday_maximum_per_sender
           [("a", [at_time 1 0 0; mk_datetime 2023 6 8 9 0 0]); ("b", [at_time 2 0 0])]).
  - repeat constructor; simpl; intuition discriminate.
  - intros s ts [H | [H | []]]; injection H as _ <-; discriminate.
Defined.

(** X6: a sender with an empty list makes [weekday_maximum] raise the
    [ValueError] of [max] on an empty sequence (where the two averages
    raise [ZeroDivisionError]). *)
Theorem X6_weekday_maximum_raises_on_empty_list
    (d : sdict (list datetime)) (s : string) :
  In (s, []) d -> WeekdayMaximum.weekday_maximum d = Raise ValueError.
Proof. intro H. exact (maximum_loop_empty_list d [] s H). Qed.

Lemma X6_weekday_maximum_raises_on_empty_list_witness :
  WeekdayMaximum.weekday_maximum [("a", [at_time 1 0 0]); ("b", [])]
  = Raise ValueError.
Proof.
  apply (@X6_weekday_maximum_raises_on_empty_list
           [("a", [at_time 1 0 0]); ("b", [])] "b").
  right. left. reflexivity.
Defined.

Lemma all_equal_NoDup_short (l : list Z) (w : Z) :
  NoDup l -> (forall x, In x l -> x = w) -> (List.length l <= 1)%nat.
Proof.
  intros Hnd Hall. destruct l as [|a [|b l]]; simpl; try lia.
  exfalso. inversion Hnd as [|? ? Hnotin _]. subst. apply Hnotin.
  rewrite (Hall a), (Hall b); simpl; auto.
Qed.

(** X7: when one weekday occurs in a sender's list more often than every
    other weekday, [most_frequent_weekday] (the loop body of
    [weekday_maximum]) returns that weekday: the tie rule is not used. *)
Theorem X7_strict_mode_is_returned (ts : list datetime) (w : Z) :
  (forall w', w' <> w ->
     (count_occ Z.eq_dec (map weekday ts) w'
      < count_occ Z.eq_dec (map weekday ts) w)%nat) ->
  WeekdayMaximum.most_frequent_weekday ts = Ok w.
Proof.
  intro Hdom. unfold WeekdayMaximum.most_frequent_weekday.
  set (ws := map weekday ts) in *.
  assert (Hw : In w ws).
  { apply (count_occ_In Z.eq_dec). specialize (Hdom (w + 1) ltac:(lia)). lia. }
  pose proof (Counter_has ws w Hw) as Hcw.
  destruct (WeekdayMaximum.Counter ws) as [|it items] eqn:Ec; [destruct Hcw|].
  cbn [WeekdayMaximum.max_by_count bind].
  destruct (max_from_spec it items) as [Hin Hmax].
  rewrite <- Ec in *.
  set (best := WeekdayMaximum.max_from it items) in *.
  destruct best as [wb maximum] eqn:Eb. cbn [fst snd] in *.
  pose proof (Counter_spec ws _ _ Hin) as [_ Hcount].
  pose proof (Hmax _ Hcw) as Hge. cbn [snd] in Hge.
  assert (wb = w).
  { destruct (Z.eq_dec wb w) as [|Hne]; [assumption|].
    specialize (Hdom wb Hne). lia. }
  subst wb.
  assert (Hshort : (List.length
                      (map fst (filter (fun item => Z.eqb (snd item) maximum)
                                       (WeekdayMaximum.Counter ws))) <= 1)%nat).
  { apply (@all_equal_NoDup_short _ w).
    - apply NoDup_keys_filter. apply count_from_keys_NoDup. constructor.
    - intros x Hx. apply in_map_iff in Hx. destruct Hx as ([k c] & <- & Hq).
      apply filter_In in Hq. destruct Hq as [Hq Hc]. cbn [fst snd] in *.
      apply Z.eqb_eq in Hc. apply Counter_spec in Hq. destruct Hq as [_ Hq].
      destruct (Z.eq_dec k w) as [|Hne]; [assumption|].
      specialize (Hdom k Hne). lia. }
  replace (2 <=? _)%nat with false by (symmetry; apply Nat.leb_gt; lia).
  reflexivity.
Qed.

Lemma X7_strict_mode_is_returned_witness :
  WeekdayMaximum.most_frequent_weekday
    [at_time 1 0 0; mk_datetime 2023 6 8 9 0 0; at_time 7 0 0] = Ok 0.
Proof.
  apply (@X7_strict_mode_is_returned
           [at_time 1 0 0; mk_datetime 2023 6 8 9 0 0; at_time 7 0 0] 0).
  intros w' Hne.
  change (map weekday [at_time 1 0 0; mk_datetime 2023 6 8 9 0 0; at_time 7 0 0])
    with [0; 3; 0].
  cbn [count_occ].
  destruct (Z.eq_dec 0 w') as [E | _]; [congruence|].
  destruct (Z.eq_dec 0 0) as [_ | E]; [|congruence].
  destruct (Z.eq_dec 3 w'); destruct (Z.eq_dec 3 0); lia.
Defined.

(** ** Mail parsing: what is read, what is kept *)

Section ReadLoop.
Variable strptime : string -> string -> option datetime.

Lemma read_loop_step (m : MailAnalysis.message) (rest : list MailAnalysis.message)
      (counts : sdict Z) (dates : sdict (list datetime)) :
  MailAnalysis.read_loop strptime (m :: rest) counts dates
  = match MailRecords.accepted m with
    | None => MailAnalysis.read_loop strptime rest counts dates
    | Some (s, date_string) =>
        t <- MailAnalysis.parse_datetime strptime date_string ;;
        MailAnalysis.read_loop strptime rest
          (sset counts s (Dict.get_default String.eqb 0 counts s + 1))
          (sset dates s (Dict.get_default String.eqb [] dates s ++ [t]))
    end.
Proof.
  unfold MailRecords.accepted. cbn [MailAnalysis.read_loop].
  destruct (MailAnalysis.From_ m) as [sender|]; [|reflexivity].
  destruct (MailAnalysis.Date_ m) as [datum|]; [|reflexivity].
  destruct (MailAnalysis.normalize_sender sender); reflexivity.
Qed.

Lemma read_loop_skip (mail1 mail2 : list MailAnalysis.message)
      (m : MailAnalysis.message) (counts : sdict Z) (dates : sdict (list datetime)) :
  MailRecords.accepted m = None ->
  MailAnalysis.read_loop strptime (mail1 ++ m :: mail2) counts dates
  = MailAnalysis.read_loop strptime (mail1 ++ mail2) counts dates.
Proof.
  intro Hm. revert counts dates.
  induction mail1 as [|m1 mail1 IH]; intros counts dates.
  - cbn [app]. rewrite read_loop_step, Hm. reflexivity.
  - rewrite <- !app_comm_cons, !read_loop_step.
    destruct (MailRecords.accepted m1) as [[s ds]|]; [|apply IH].
    destruct (MailAnalysis.parse_datetime strptime ds); cbn [bind];
      [apply IH | reflexivity].
Qed.

(** The first loop returns exactly when the date string of every accepted
    message parses. *)
Lemma read_loop_returns (mail : list MailAnalysis.message)
      (counts : sdict Z) (dates : sdict (list datetime)) :
  (exists r, MailAnalysis.read_loop strptime mail counts dates = Ok r)
  <-> (forall m s ds, In m mail -> MailRecords.accepted m = Some (s, ds) ->
         exists t, MailAnalysis.parse_datetime strptime ds = Ok t).
Proof.
  revert counts dates. induction mail as [|m mail IH]; intros counts dates.
  - split; [intros _ m s ds [] | intros _; eexists; reflexivity].
  - rewrite read_loop_step.
    destruct (MailRecords.accepted m) as [[s ds]|] eqn:Em.
    + destruct (MailAnalysis.parse_datetime strptime ds) as [t|e] eqn:Ep; cbn [bind].
      * rewrite IH. split.
        -- intros H m' s' ds' [<- | Hin] Hacc; [|eapply H; eauto].
           rewrite Em in Hacc. injection Hacc as <- <-. eauto.
        -- intros H m' s' ds' Hin. apply H. right. exact Hin.
      * split; [intros [r Hr]; discriminate|].
        intro H. destruct (H m s ds (or_introl eq_refl) Em) as [t Ht]. congruence.
    + rewrite IH. split.
      * intros H m' s' ds' [<- | Hin] Hacc; [congruence | eapply H; eauto].
      * intros H m' s' ds' Hin. apply H. right. exact Hin.
Qed.
End ReadLoop.

(** X8: a message that the guards skip (a header missing, or a sender
    without exactly one "@") leaves no trace: with it or without it, at
    any place in the mailbox, [parse_mails] gives the same result, be it
    the two maps or the error. *)
Theorem X8_skipped_message_leaves_no_trace
    (strptime : string -> string -> option datetime)
    (mail1 mail2 : list MailAnalysis.message) (m : MailAnalysis.message)
    (THRESHOLD : Z) :
  MailRecords.accepted m = None ->
  MailAnalysis.parse_mails strptime (mail1 ++ m :: mail2) THRESHOLD
  = MailAnalysis.parse_mails strptime (mail1 ++ mail2) THRESHOLD.
Proof.
  intro Hm. unfold MailAnalysis.parse_mails.
  rewrite read_loop_skip by exact Hm. reflexivity.
Qed.

Lemma X8_skipped_message_leaves_no_trace_witness :
  MailAnalysis.parse_mails MailAnalysis.example_strptime
    ([MailAnalysis.mk_message (Some "ann@x.org") (Some "5 Jun 2023 08:15")]
     ++ MailAnalysis.mk_message (Some "a@b@c") (Some "no date at all")
     :: [MailAnalysis.mk_message (Some "ann@x.org") (Some "5 Jun 2023 08:15")]) 2
  = MailAnalysis.parse_mails MailAnalysis.example_strptime
      ([MailAnalysis.mk_message (Some "ann@x.org") (Some "5 Jun 2023 08:15")]
       ++ [MailAnalysis.mk_message (Some "ann@x.org") (Some "5 Jun 2023 08:15")]) 2.
Proof.
  apply (@X8_skipped_message_leaves_no_trace MailAnalysis.example_strptime).
  reflexivity.
Defined.

(** X9: on a mailbox whose headers are plain strings (the messages of
    this model; a header object that is not a string is outside it),
    [parse_mails] returns its two maps exactly when the date string of
    every accepted message matches a pattern; otherwise it raises, and
    what it raises is then always a [ValueError]. *)
Theorem X9_parse_mails_returns_iff_dates_parse
    (strptime : string -> string -> option datetime)
    (mail : list MailAnalysis.message) (THRESHOLD : Z) :
  ((exists r, MailAnalysis.parse_mails strptime mail THRESHOLD = Ok r)
   <-> (forall m s ds, In m mail -> MailRecords.accepted m = Some (s, ds) ->
          exists t, MailAnalysis.parse_datetime strptime ds = Ok t))
  /\ (forall e, MailAnalysis.parse_mails strptime mail THRESHOLD = Raise e ->
                e = ValueError).
Proof.
  unfold MailAnalysis.parse_mails. split.
  - rewrite <- (read_loop_returns strptime mail [] []).
    destruct (MailAnalysis.read_loop strptime mail [] []) as [r|e]; cbn [bind].
    + split; intros _; eexists; reflexivity.
    + split; intros [r Hr]; discriminate.
  - intros e.
    destruct (MailAnalysis.read_loop strptime mail [] []) as [r|e'] eqn:E; cbn [bind];
      [discriminate|].
    intros [= <-]. exact (read_loop_raises _ _ _ _ E).
Qed.

Lemma get_default_set (V : Type) (dflt : V) (d : sdict V) (k s : string) (v : V) :
  Dict.get_default String.eqb dflt (sset d k v) s
  = if String.eqb s k then v else Dict.get_default String.eqb dflt d s.
Proof.
  unfold Dict.get_default, sset. rewrite (get_set String.eqb String.eqb_eq).
  destruct (String.eqb s k); reflexivity.
Qed.

Lemma existsb_keys (V : Type) (d : sdict V) (s : string) :
  existsb (String.eqb s) (Dict.keys d)
  = match sget d s with Some _ => true | None => false end.
Proof.
  unfold sget. induction d as [|[k v] d IH]; simpl; [reflexivity|].
  destruct (String.eqb s k); [reflexivity | exact IH].
Qed.

Lemma aligned_get_none (counts : sdict Z) (dates : sdict (list datetime)) (s : string) :
  aligned counts dates -> sget dates s = None -> sget counts s = None.
Proof.
  intros Hal H. unfold sget in *.
  apply (get_none_notin String.eqb String.eqb_eq).
  apply (get_none_notin String.eqb String.eqb_eq) in H.
  rewrite (aligned_keys Hal). exact H.
Qed.

Section ReadLoopRecords.
Variable strptime : string -> string -> option datetime.

Lemma timestamps_of_cons (s0 s : string) (t : datetime) (rs : list (string * datetime)) :
  MailRecords.timestamps_of ((s0, t) :: rs) s
  = if String.eqb s s0 then t :: MailRecords.timestamps_of rs s
    else MailRecords.timestamps_of rs s.
Proof.
  unfold MailRecords.timestamps_of. simpl. rewrite (String.eqb_sym s0 s).
  destruct (String.eqb s s0); reflexivity.
Qed.

(** The first loop appends, to each sender's list, that sender's
    timestamps among the records, in mailbox order; it never stores an
    empty list and never repeats a key. *)
Lemma read_loop_records (mail : list MailAnalysis.message)
      (counts counts' : sdict Z) (dates dates' : sdict (list datetime)) :
  MailAnalysis.read_loop strptime mail counts dates = Ok (counts', dates') ->
  (forall s, Dict.get_default String.eqb [] dates' s
             = Dict.get_default String.eqb [] dates s
               ++ MailRecords.timestamps_of (MailRecords.records strptime mail) s)
  /\ (stored_lists_nonempty dates -> stored_lists_nonempty dates')
  /\ (NoDup (Dict.keys dates) -> NoDup (Dict.keys dates')).
Proof.
  revert counts dates.
  induction mail as [|m mail IH]; intros counts dates.
  - simpl. intros [= <- <-]. split; [intro; rewrite app_nil_r; reflexivity | auto].
  - rewrite read_loop_step. cbn [MailRecords.records].
    destruct (MailRecords.accepted m) as [[s0 ds]|]; [|apply IH].
    destruct (MailAnalysis.parse_datetime strptime ds) as [t|e]; cbn [bind];
      [|discriminate].
    intro H. apply IH in H. destruct H as (H1 & H2 & H3).
    split; [|split].
    + intro s. rewrite H1, get_default_set, timestamps_of_cons.
      destruct (String.eqb s s0) eqn:E; [|reflexivity].
      apply String.eqb_eq in E. subst s0. rewrite <- app_assoc. reflexivity.
    + intro Hne. apply H2. intros s l Hg.
      apply get_set_cases in Hg. destruct Hg as [-> | Hg]; [|eauto].
      intro Habs. apply app_eq_nil in Habs. destruct Habs; discriminate.
    + intro Hnd. apply H3.
      apply (keys_set_NoDup String.eqb String.eqb_eq string_dec), Hnd.
Qed.
End ReadLoopRecords.

Lemma threshold_loop_get (addresses : list string) (TH : Z)
      (c : sdict Z) (d : sdict (list datetime))
      (out1 : sdict Z) (out2 : sdict (list datetime)) (s : string) :
  sget (fst (MailAnalysis.threshold_loop addresses TH c d out1 out2)) s
  = (if existsb (String.eqb s) addresses
        && (TH <=? Dict.get_default String.eqb 0 c s)
     then Some (Dict.get_default String.eqb 0 c s) else sget out1 s)
  /\ sget (snd (MailAnalysis.threshold_loop addresses TH c d out1 out2)) s
     = (if existsb (String.eqb s) addresses
           && (TH <=? Dict.get_default String.eqb 0 c s)
        then Some (Dict.get_default String.eqb [] d s) else sget out2 s).
Proof.
  revert out1 out2.
  induction addresses as [|a rest IH]; intros out1 out2; [split; reflexivity|].
  cbn [MailAnalysis.threshold_loop existsb].
  destruct (TH <=? Dict.get_default String.eqb 0 c a) eqn:Ea.
  - destruct (IH (sset out1 a (Dict.get_default String.eqb 0 c a))
                 (sset out2 a (Dict.get_default String.eqb [] d a))) as [H1 H2].
    rewrite H1, H2. unfold sget, sset.
    rewrite !(get_set String.eqb String.eqb_eq).
    destruct (String.eqb s a) eqn:E.
    + apply String.eqb_eq in E. subst a. rewrite Ea. cbn [orb andb].
      destruct (existsb (String.eqb s) rest); split; reflexivity.
    + cbn [orb]. split; reflexivity.
  - destruct (IH out1 out2) as [H1 H2]. rewrite H1, H2.
    destruct (String.eqb s a) eqn:E; [|cbn [orb]; split; reflexivity].
    apply String.eqb_eq in E. subst a. rewrite Ea. cbn [orb].
    rewrite !andb_false_r. split; reflexivity.
Qed.

(** X10: what [parse_mails] returns, sender by sender.  Take the records
    of the mailbox (one per accepted message, in order) and, for a sender,
    its timestamps among them.  If there are at least THRESHOLD of them
    (and at least one), the first map gives their number and the second
    the timestamps themselves, in mailbox order; otherwise the sender is
    in neither map. *)
Theorem X10_parse_mails_groups_by_sender
    (strptime : string -> string -> option datetime)
    (mail : list MailAnalysis.message) (THRESHOLD : Z)
    (counts : sdict Z) (dates : sdict (list datetime)) (s : string) :
  MailAnalysis.parse_mails strptime mail THRESHOLD = Ok (counts, dates) ->
  let ts := MailRecords.timestamps_of (MailRecords.records strptime mail) s in
  (ts <> [] -> THRESHOLD <= Z.of_nat (List.length ts) ->
   sget counts s = Some (Z.of_nat (List.length ts)) /\ sget dates s = Some ts)
  /\ (ts = [] \/ Z.of_nat (List.length ts) < THRESHOLD ->
      sget counts s = None /\ sget dates s = None).
Proof.
  intros Hpm ts. unfold MailAnalysis.parse_mails in Hpm.
  destruct (MailAnalysis.read_loop strptime mail [] []) as [[c d]|e] eqn:E;
    cbn [bind fst snd] in Hpm; [|discriminate].
  injection Hpm as Heq.
  pose proof (read_loop_aligned strptime mail (counts:=[]) (dates:=[])
                ltac:(constructor) E) as Hal.
  destruct (read_loop_records strptime mail [] [] E) as (Hrec & Hne & _).
  specialize (Hrec s). cbn [app] in Hrec.
  change (Dict.get_default String.eqb [] [] s) with (@nil datetime) in Hrec.
  cbn [app] in Hrec. fold ts in Hrec.
  assert (Hcnt : Dict.get_default String.eqb 0 c s = Z.of_nat (List.length ts))
    by (rewrite (aligned_get_default s Hal), Hrec; reflexivity).
  assert (Hstored : stored_lists_nonempty d)
    by (apply Hne; intros s' l'; discriminate).
  destruct (threshold_loop_get (Dict.keys c) THRESHOLD c d [] [] s) as [H1 H2].
  rewrite Heq in H1, H2. cbn [fst snd] in H1, H2.
  rewrite existsb_keys, Hcnt, Hrec in *.
  assert (Hkey : match sget c s with Some _ => true | None => false end
                 = negb (Nat.eqb (List.length ts) 0)).
  { destruct (sget c s) as [n|] eqn:Ec.
    - destruct (aligned_get s Hal Ec) as (l & Hl & _).
      pose proof (Hstored s l Hl) as Hnn.
      unfold Dict.get_default in Hrec. unfold sget in Hl. rewrite Hl in Hrec.
      subst l. destruct ts; [congruence | reflexivity].
    - unfold Dict.get_default in Hrec.
      destruct (Dict.get String.eqb d s) as [l|] eqn:Ed.
      + exfalso. fold (sget d s) in Ed.
        assert (In s (Dict.keys d)).
        { apply (get_in String.eqb String.eqb_eq) in Ed.
          unfold Dict.keys. apply in_map_iff. exists (s, l). auto. }
        rewrite <- (aligned_keys Hal) in H.
        apply (get_none_notin String.eqb String.eqb_eq) in Ec. tauto.
      + rewrite <- Hrec. reflexivity. }
  rewrite Hkey in H1, H2. split.
  - intros Hts Hth.
    replace (Nat.eqb (List.length ts) 0) with false in H1, H2
      by (destruct ts; [congruence | reflexivity]).
    replace (THRESHOLD <=? Z.of_nat (List.length ts)) with true in H1, H2
      by (symmetry; apply Z.leb_le; exact Hth).
    cbn [negb andb] in H1, H2. split; assumption.
  - intros [Hts | Hth].
    + rewrite Hts in H1, H2. cbn [List.length Nat.eqb negb andb] in H1, H2.
      split; assumption.
    + replace (THRESHOLD <=? Z.of_nat (List.length ts)) with false in H1, H2
        by (symmetry; apply Z.leb_gt; exact Hth).
      rewrite andb_false_r in H1, H2. split; assumption.
Qed.

Lemma X10_parse_mails_groups_by_sender_witness :
  let mail :=
    [MailAnalysis.mk_message (Some "Ann <Ann@X.org>") (Some "Mon, 5 Jun 2023 10:00:00 +0200");
     MailAnalysis.mk_message (Some "bob@x.org") (Some "5 Jun 2023 08:15");
     MailAnalysis.mk_message None (Some "5 Jun 2023 08:15");
     MailAnalysis.mk_message (Some "ann@x.org") (Some "Mon, 5 Jun 2023 23:30:00 +0200")] in
  let ts := MailRecords.timestamps_of
              (MailRecords.records MailAnalysis.example_strptime mail) "bob@x.org" in
  (ts <> [] -> 2 <= Z.of_nat (List.length ts) ->
   sget [("ann@x.org", 2)] "bob@x.org" = Some (Z.of_nat (List.length ts))
   /\ sget [("ann@x.org", [at_time 10 0 0; at_time 23 30 0])] "bob@x.org" = Some ts)
  /\ (ts = [] \/ Z.of_nat (List.length ts) < 2 ->
      sget [("ann@x.org", 2)] "bob@x.org" = None
      /\ sget [("ann@x.org", [at_time 10 0 0; at_time 23 30 0])] "bob@x.org" = None).
Proof.
  intro mail.
  apply (@X10_parse_mails_groups_by_sender MailAnalysis.example_strptime mail 2
           [("ann@x.org", 2)] [("ann@x.org", [at_time 10 0 0; at_time 23 30 0])]
           "bob@x.org").
  reflexivity.
Defined.

Lemma threshold_loop_keeps (addresses : list string) (TH : Z)
      (c : sdict Z) (d : sdict (list datetime))
      (out1 : sdict Z) (out2 : sdict (list datetime)) :
  stored_lists_nonempty d ->
  (forall a, In a addresses -> In a (Dict.keys d)) ->
  NoDup (Dict.keys out2) -> stored_lists_nonempty out2 ->
  NoDup (Dict.keys (snd (MailAnalysis.threshold_loop addresses TH c d out1 out2)))
  /\ stored_lists_nonempty
       (snd (MailAnalysis.threshold_loop addresses TH c d out1 out2)).
Proof.
  intros Hd. revert out1 out2.
  induction addresses as [|a rest IH]; intros out1 out2 Hin Hnd Hne;
    cbn [MailAnalysis.threshold_loop]; [split; assumption|].
  destruct (TH <=? Dict.get_default String.eqb 0 c a).
  - apply IH.
    + intros a' H. apply Hin. right. exact H.
    + apply (keys_set_NoDup String.eqb String.eqb_eq string_dec), Hnd.
    + intros s l Hg. apply get_set_cases in Hg. destruct Hg as [-> | Hg]; [|eauto].
      specialize (Hin a (or_introl eq_refl)).
      unfold Dict.get_default.
      destruct (Dict.get String.eqb d a) as [l|] eqn:E.
      * exact (Hd a l E).
      * apply (get_none_notin String.eqb String.eqb_eq) in E. tauto.
  - apply IH; [|assumption|assumption].
    intros a' H. apply Hin. right. exact H.
Qed.

(** Whatever [parse_mails] returns is a proper mapping for the feature
    functions: senders are distinct and no timestamp list is empty. *)
Lemma parse_mails_well_formed
      (strptime : string -> string -> option datetime)
      (mail : list MailAnalysis.message) (THRESHOLD : Z)
      (counts : sdict Z) (dates : sdict (list datetime)) :
  MailAnalysis.parse_mails strptime mail THRESHOLD = Ok (counts, dates) ->
  NoDup (Dict.keys dates) /\ (forall s ts, In (s, ts) dates -> ts <> []).
Proof.
  intro Hpm. unfold MailAnalysis.parse_mails in Hpm.
  destruct (MailAnalysis.read_loop strptime mail [] []) as [[c d]|e] eqn:E;
    cbn [bind fst snd] in Hpm; [|discriminate].
  injection Hpm as Heq.
  pose proof (read_loop_aligned strptime mail (counts:=[]) (dates:=[])
                ltac:(constructor) E) as Hal.
  destruct (read_loop_records strptime mail [] [] E) as (_ & Hne & _).
  assert (Hstored : stored_lists_nonempty d)
    by (apply Hne; intros s' l'; discriminate).
  destruct (@threshold_loop_keeps (Dict.keys c) THRESHOLD c d [] [] Hstored) as [H1 H2].
  - intros a Ha. rewrite <- (aligned_keys Hal). exact Ha.
  - constructor.
  - intros s l. discriminate.
  - rewrite Heq in H1, H2. cbn [snd] in H1, H2. split; [exact H1|].
    intros s ts Hin. apply (H2 s). unfold sget.
    apply (get_of_in String.eqb String.eqb_eq); assumption.
Qed.

(** X11: the maps [parse_mails] returns can always be aggregated: on its
    second map neither [average_timestamps_in_seconds] nor
    [weekday_average] nor [weekday_maximum] raises, and each returns
    exactly the senders of the mail counts, in the same order, so that the
    columns of the feature table line up. *)
Theorem X11_parsed_mails_aggregate
    (strptime : string -> string -> option datetime)
    (mail : list MailAnalysis.message) (THRESHOLD : Z)
    (counts : sdict Z) (dates : sdict (list datetime)) :
  MailAnalysis.parse_mails strptime mail THRESHOLD = Ok (counts, dates) ->
  exists average_timestamps average_weekdays max_weekdays,
    Features.average_timestamps_in_seconds dates = Ok average_timestamps
    /\ Features.weekday_average dates = Ok average_weekdays
    /\ WeekdayMaximum.weekday_maximum dates = Ok max_weekdays
    /\ Dict.keys average_timestamps = Dict.keys counts
    /\ Dict.keys average_weekdays = Dict.keys counts
    /\ Dict.keys max_weekdays = Dict.keys counts.
Proof.
  intro Hpm.
  destruct (parse_mails_well_formed _ _ _ Hpm) as [Hnd Hne].
  assert (Hkeys : Dict.keys counts = Dict.keys dates).
  { unfold MailAnalysis.parse_mails in Hpm.
    destruct (MailAnalysis.read_loop strptime mail [] []) as [[c d]|e] eqn:E;
      cbn [bind fst snd] in Hpm; [|discriminate].
    injection Hpm as Heq.
    pose proof (read_loop_aligned strptime mail (counts:=[]) (dates:=[])
                  ltac:(constructor) E) as Hal.
    pose proof (threshold_loop_aligned (Dict.keys c) THRESHOLD
                  Hal (out1:=[]) (out2:=[]) ltac:(constructor)) as Hal2.
    rewrite Heq in Hal2. apply aligned_keys, Hal2. }
  destruct (@maximum_loop_runs dates [] Hne Hnd) as (vs & Hrun & Hall).
  exists (running_averages dates 0). eexists. exists vs.
  unfold Features.average_timestamps_in_seconds, Features.weekday_average,
    WeekdayMaximum.weekday_maximum.
  rewrite average_loop_runs, weekday_loop_runs by assumption. cbn [app].
  split; [reflexivity|]. split; [reflexivity|]. split; [exact Hrun|].
  rewrite Hkeys. split; [apply running_averages_keys|]. split.
  - unfold Dict.keys. rewrite map_map. reflexivity.
  - clear -Hall. induction Hall as [|p q ? ? [Hk _] _ IH];
      [reflexivity | simpl; rewrite Hk; f_equal; exact IH].
Qed.

Lemma X11_parsed_mails_aggregate_witness :
  exists average_timestamps average_weekdays max_weekdays,
    Features.average_timestamps_in_seconds
      [("ann@x.org", [at_time 10 0 0; at_time 23 30 0])] = Ok average_timestamps
    /\ Features.weekday_average
         [("ann@x.org", [at_time 10 0 0; at_time 23 30 0])] = Ok average_weekdays
    /\ WeekdayMaximum.weekday_maximum
         [("ann@x.org", [at_time 10 0 0; at_time 23 30 0])] = Ok max_weekdays
    /\ Dict.keys average_timestamps = Dict.keys [("ann@x.org", 2)]
    /\ Dict.keys average_weekdays = Dict.keys [("ann@x.org", 2)]
    /\ Dict.keys max_weekdays = Dict.keys [("ann@x.org", 2)].
Proof.
  apply (@X11_parsed_mails_aggregate MailAnalysis.example_strptime
           [MailAnalysis.mk_message (Some "Ann <Ann@X.org>") (Some "Mon, 5 Jun 2023 10:00:00 +0200");
            MailAnalysis.mk_message (Some "bob@x.org") (Some "5 Jun 2023 08:15");
            MailAnalysis.mk_message (Some "ann@x.org") (Some "Mon, 5 Jun 2023 23:30:00 +0200")]
           2).
  reflexivity.
Defined.

(** ** Sender strings *)

Lemma prefix_char (c b : ascii) (s : string) :
  String.prefix (String c EmptyString) (String b s) = Ascii.eqb b c.
Proof.
  cbn [String.prefix]. destruct (ascii_dec c b) as [-> | Hne].
  - rewrite Ascii.eqb_refl. destruct s; reflexivity.
  - symmetry. apply Ascii.eqb_neq. congruence.
Qed.

Lemma contains_char (c : ascii) (s : string) :
  Str.contains (String c EmptyString) s
  = negb (Nat.eqb (MailRecords.count_char c s) 0).
Proof.
  unfold Str.contains. induction s as [|b s IH]; [reflexivity|].
  cbn [String.index MailRecords.count_char]. rewrite prefix_char.
  destruct (Ascii.eqb b c); [reflexivity|].
  destruct (String.index 0 (String c EmptyString) s); exact IH.
Qed.

Lemma split_char_length (c : ascii) (s cur : string) :
  List.length (Str.split_from (String c EmptyString) s 0 cur)
  = S (MailRecords.count_char c s).
Proof.
  revert cur. induction s as [|b s IH]; intro cur; [reflexivity|].
  cbn [Str.split_from MailRecords.count_char]. rewrite prefix_char.
  destruct (Ascii.eqb b c); cbn [String.length Nat.sub List.length]; rewrite IH;
    reflexivity.
Qed.

(** X12: the sender test of [parse_mails] is a count of "@" characters: a
    sender string is skipped exactly when the number of "@" in it is not 1
    (the membership test and the length of the split say the same thing). *)
Theorem X12_sender_skipped_iff_not_one_at (sender : string) :
  MailAnalysis.normalize_sender sender = None
  <-> MailRecords.count_char "@" sender <> 1%nat.
Proof.
  unfold MailAnalysis.normalize_sender, Str.split.
  rewrite (contains_char "@" sender), (split_char_length "@" sender).
  destruct (MailRecords.count_char "@" sender) as [|[|n]]; cbn [Nat.eqb negb];
    split; intro H; try reflexivity; try discriminate; lia.
Qed.

Lemma lower_char_idempotent (c : ascii) :
  Str.lower_char (Str.lower_char c) = Str.lower_char c.
Proof. destruct c as [[] [] [] [] [] [] [] []]; reflexivity. Qed.

Lemma lower_idempotent (s : string) : Str.lower (Str.lower s) = Str.lower s.
Proof.
  induction s as [|c s IH]; simpl; [reflexivity|].
  rewrite lower_char_idempotent, IH. reflexivity.
Qed.

Lemma normalize_sender_lowercase (sender s : string) :
  MailAnalysis.normalize_sender sender = Some s -> Str.lower s = s.
Proof.
  unfold MailAnalysis.normalize_sender.
  destruct (negb (Str.contains "@" sender)); [discriminate|].
  destruct (negb (Nat.eqb (List.length (Str.split "@" sender)) 2)); [discriminate|].
  intros [= <-]. apply lower_idempotent.
Qed.

Section LowercaseKeys.
Variable strptime : string -> string -> option datetime.

Lemma read_loop_keys_lowercase (mail : list MailAnalysis.message)
      (counts counts' : sdict Z) (dates dates' : sdict (list datetime)) :
  (forall k, In k (Dict.keys counts) -> Str.lower k = k) ->
  MailAnalysis.read_loop strptime mail counts dates = Ok (counts', dates') ->
  forall k, In k (Dict.keys counts') -> Str.lower k = k.
Proof.
  revert counts dates.
  induction mail as [|m mail IH]; intros counts dates Hk.
  - simpl. intros [= <- <-]. exact Hk.
  - rewrite read_loop_step. unfold MailRecords.accepted.
    destruct (MailAnalysis.From_ m) as [sender|]; [|apply IH, Hk].
    destruct (MailAnalysis.Date_ m) as [datum|]; [|apply IH, Hk].
    destruct (MailAnalysis.normalize_sender sender) as [s|] eqn:En; [|apply IH, Hk].
    destruct (MailAnalysis.parse_datetime strptime (MailAnalysis.date_string_of datum));
      cbn [bind]; [|discriminate].
    apply IH. intros k Hin.
    apply (keys_set_cases String.eqb String.eqb_eq string_dec) in Hin.
    destruct Hin as [-> | Hin]; [exact (normalize_sender_lowercase _ En) | auto].
Qed.

Lemma threshold_loop_keys (addresses : list string) (TH : Z)
      (c : sdict Z) (d : sdict (list datetime))
      (out1 : sdict Z) (out2 : sdict (list datetime)) (k : string) :
  In k (Dict.keys (fst (MailAnalysis.threshold_loop addresses TH c d out1 out2))) ->
  In k addresses \/ In k (Dict.keys out1).
Proof.
  revert out1 out2.
  induction addresses as [|a rest IH]; intros out1 out2;
    cbn [MailAnalysis.threshold_loop]; [auto|].
  destruct (TH <=? Dict.get_default String.eqb 0 c a); intro H; apply IH in H.
  - destruct H as [H | H]; [left; right; exact H|].
    apply (keys_set_cases String.eqb String.eqb_eq string_dec) in H.
    destruct H as [-> | H]; [left; left; reflexivity | right; exact H].
  - destruct H as [H | H]; [left; right; exact H | right; exact H].
Qed.
End LowercaseKeys.

(** X13: every sender in the maps [parse_mails] returns is in lower case:
    lowering it again changes nothing. *)
Theorem X13_parsed_senders_are_lowercase
    (strptime : string -> string -> option datetime)
    (mail : list MailAnalysis.message) (THRESHOLD : Z)
    (counts : sdict Z) (dates : sdict (list datetime)) (s : string) :
  MailAnalysis.parse_mails strptime mail THRESHOLD = Ok (counts, dates) ->
  In s (Dict.keys counts) ->
  Str.lower s = s.
Proof.
  intros Hpm Hin. unfold MailAnalysis.parse_mails in Hpm.
  destruct (MailAnalysis.read_loop strptime mail [] []) as [[c d]|e] eqn:E;
    cbn [bind fst snd] in Hpm; [|discriminate].
  injection Hpm as Heq.
  assert (Hs : In s (Dict.keys
                       (fst (MailAnalysis.threshold_loop (Dict.keys c) THRESHOLD
                               c d [] []))))
    by (rewrite Heq; exact Hin).
  apply threshold_loop_keys in Hs. destruct Hs as [Hs | []].
  eapply (read_loop_keys_lowercase strptime mail); [|exact E|exact Hs].
  intros k [].
Qed.

Lemma X13_parsed_senders_are_lowercase_witness :
  Str.lower "ann@x.org" = "ann@x.org".
Proof.
  apply (@X13_parsed_senders_are_lowercase MailAnalysis.example_strptime
           [MailAnalysis.mk_message (Some "Ann <Ann@X.org>") (Some "Mon, 5 Jun 2023 10:00:00 +0200");
            MailAnalysis.mk_message (Some "ANN@x.org") (Some "Mon, 5 Jun 2023 23:30:00 +0200")]
           2 [("ann@x.org", 2)] [("ann@x.org", [at_time 10 0 0; at_time 23 30 0])]).
  - reflexivity.
  - left. reflexivity.
Defined.

(** X14: a sender string with exactly one "@" that lacks a "<" or lacks a
    ">" is kept whole, in lower case. *)
Theorem X14_sender_without_brackets (sender : string) :
  MailRecords.count_char "@" sender = 1%nat ->
  Str.contains "<" sender && Str.contains ">" sender = false ->
  MailAnalysis.normalize_sender sender = Some (Str.lower sender).
Proof.
  intros Hat Hbr. unfold MailAnalysis.normalize_sender, Str.split.
  rewrite (contains_char "@" sender), (split_char_length "@" sender), Hat, Hbr.
  reflexivity.
Qed.

Lemma X14_sender_without_brackets_witness :
  MailAnalysis.normalize_sender "Bob@Example.ORG" = Some (Str.lower "Bob@Example.ORG").
Proof.
  apply (@X14_sender_without_brackets "Bob@Example.ORG"); reflexivity.
Defined.

Lemma count_char_app (c : ascii) (s1 s2 : string) :
  MailRecords.count_char c (String.append s1 s2)
  = (MailRecords.count_char c s1 + MailRecords.count_char c s2)%nat.
Proof.
  induction s1 as [|b s1 IH]; simpl; [reflexivity|].
  destruct (Ascii.eqb b c); rewrite IH; reflexivity.
Qed.

Lemma count_char_cons_zero (c b : ascii) (s : string) :
  MailRecords.count_char c (String b s) = 0%nat ->
  Ascii.eqb b c = false /\ MailRecords.count_char c s = 0%nat.
Proof.
  simpl. destruct (Ascii.eqb b c); [discriminate | auto].
Qed.

Lemma index_char_first (c : ascii) (pre post : string) :
  MailRecords.count_char c pre = 0%nat ->
  String.index 0 (String c EmptyString) (String.append pre (String c post))
  = Some (String.length pre).
Proof.
  induction pre as [|b pre IH]; intro H.
  - cbn [String.append String.index]. rewrite prefix_char, Ascii.eqb_refl. reflexivity.
  - apply count_char_cons_zero in H. destruct H as [Hb H].
    cbn [String.append String.index]. rewrite prefix_char, Hb, (IH H). reflexivity.
Qed.

Lemma index_space_bracket_first (pre post : string) :
  MailRecords.count_char "<" pre = 0%nat ->
  String.index 0 " <" (String.append pre (String " " (String "<" post)))
  = Some (String.length pre).
Proof.
  induction pre as [|b pre IH]; intro H.
  - destruct post; reflexivity.
  - apply count_char_cons_zero in H. destruct H as [Hb H].
    cbn [String.append String.index].
    replace (String.prefix " <"
               (String b (String.append pre (String " " (String "<" post)))))
      with false.
    + rewrite (IH H). reflexivity.
    + symmetry. cbn [String.prefix].
      destruct (ascii_dec " " b) as [_ | _]; [|reflexivity].
      destruct pre as [|b' pre].
      * destruct post; reflexivity.
      * apply count_char_cons_zero in H. destruct H as [Hb' _].
        change (String.prefix "<"
                  (String.append (String b' pre) (String " " (String "<" post))))
          with (String.prefix (String "<" EmptyString)
                  (String b' (String.append pre (String " " (String "<" post))))).
        rewrite prefix_char. exact Hb'.
Qed.

Lemma substring_skip (pre s : string) (n : nat) :
  String.substring (String.length pre) n (String.append pre s)
  = String.substring 0 n s.
Proof. induction pre as [|b pre IH]; [reflexivity | exact IH]. Qed.

Lemma substring_prefix (mid post : string) :
  String.substring 0 (String.length mid) (String.append mid post) = mid.
Proof.
  induction mid as [|b mid IH]; simpl.
  - destruct post; reflexivity.
  - rewrite IH. reflexivity.
Qed.

Lemma length_append (s1 s2 : string) :
  String.length (String.append s1 s2) = (String.length s1 + String.length s2)%nat.
Proof. induction s1 as [|b s1 IH]; simpl; [reflexivity | rewrite IH; reflexivity]. Qed.

Lemma append_assoc (s1 s2 s3 : string) :
  String.append (String.append s1 s2) s3 = String.append s1 (String.append s2 s3).
Proof. induction s1 as [|b s1 IH]; simpl; [reflexivity | rewrite IH; reflexivity]. Qed.

Lemma slice_middle (pre mid post : string) :
  Str.slice (String.append pre (String.append mid post))
            (Z.of_nat (String.length pre))
            (Z.of_nat (String.length pre + String.length mid))
  = mid.
Proof.
  unfold Str.slice, Str.clamp. rewrite !length_append.
  replace (Z.of_nat (String.length pre) <? 0) with false
    by (symmetry; apply Z.ltb_ge; lia).
  replace (Z.of_nat (String.length pre + String.length mid) <? 0) with false
    by (symmetry; apply Z.ltb_ge; lia).
  rewrite !Z.min_l by lia.
  rewrite Nat2Z.id.
  replace (Z.to_nat (Z.of_nat (String.length pre + String.length mid)
                     - Z.of_nat (String.length pre)))
    with (String.length mid) by lia.
  rewrite substring_skip. apply substring_prefix.
Qed.

(** X15: a sender string of the usual shape, a display name, a space, and
    the address in angle brackets, gives the address between the brackets,
    in lower case, provided the name holds no bracket, the address no ">",
    and the whole string one "@". *)
Theorem X15_sender_in_brackets (name addr rest : string) :
  MailRecords.count_char "<" name = 0%nat ->
  MailRecords.count_char ">" name = 0%nat ->
  MailRecords.count_char ">" addr = 0%nat ->
  MailRecords.count_char "@"
    (String.append name (String.append " <" (String.append addr (String ">" rest))))
  = 1%nat ->
  MailAnalysis.normalize_sender
    (String.append name (String.append " <" (String.append addr (String ">" rest))))
  = Some (Str.lower addr).
Proof.
  intros Hlt Hgt Hgt' Hat.
  set (sender := String.append name
                   (String.append " <" (String.append addr (String ">" rest)))).
  assert (Hfind1 : Str.find " <" sender = Z.of_nat (String.length name)).
  { unfold Str.find, sender.
    change (String.append " <" (String.append addr (String ">" rest)))
      with (String " " (String "<" (String.append addr (String ">" rest)))).
    rewrite index_space_bracket_first by exact Hlt. reflexivity. }
  assert (Hsplit : sender
                   = String.append (String.append name (String.append " <" addr))
                                   (String ">" rest)).
  { unfold sender. rewrite !append_assoc. reflexivity. }
  assert (Hfind2 : Str.find ">" sender
                   = Z.of_nat (String.length name + 2 + String.length addr)).
  { unfold Str.find. rewrite Hsplit, index_char_first.
    - rewrite !length_append. cbn [String.length]. f_equal. lia.
    - rewrite !count_char_app, Hgt, Hgt'. reflexivity. }
  assert (Hc1 : Str.contains "<" sender = true).
  { rewrite (contains_char "<" sender). unfold sender.
    rewrite count_char_app.
    change (String.append " <" (String.append addr (String ">" rest)))
      with (String " " (String "<" (String.append addr (String ">" rest)))).
    cbn [MailRecords.count_char]. simpl (Ascii.eqb _ _). cbv iota.
    rewrite Nat.add_succ_r. reflexivity. }
  assert (Hc2 : Str.contains ">" sender = true).
  { rewrite (contains_char ">" sender), Hsplit, count_char_app.
    cbn [MailRecords.count_char]. simpl (Ascii.eqb _ _). cbv iota.
    rewrite Nat.add_succ_r. reflexivity. }
  unfold MailAnalysis.normalize_sender, Str.split.
  rewrite (contains_char "@" sender), (split_char_length "@" sender).
  fold sender in Hat. rewrite Hat. cbn [Nat.eqb negb].
  rewrite Hc1, Hc2, Hfind1, Hfind2. cbn [andb]. f_equal. f_equal.
  replace (Z.of_nat (String.length name) + 2)
    with (Z.of_nat (String.length (String.append name " <")))
    by (rewrite length_append; cbn [String.length]; lia).
  replace (Z.of_nat (String.length name + 2 + String.length addr))
    with (Z.of_nat (String.length (String.append name " <") + String.length addr))
    by (rewrite length_append; cbn [String.length]; lia).
  replace sender
    with (String.append (String.append name " <")
                        (String.append addr (String ">" rest)))
    by (unfold sender; rewrite !append_assoc; reflexivity).
  apply slice_middle.
Qed.

Lemma X15_sender_in_brackets_witness :
  MailAnalysis.normalize_sender
    (String.append "Bob Builder"
       (String.append " <" (String.append "Bob@X.org" (String ">" " (work)"))))
  = Some (Str.lower "Bob@X.org").
Proof.
  apply (@X15_sender_in_brackets "Bob Builder" "Bob@X.org" " (work)"); reflexivity.
Defined.

(** ** A threshold of at most one keeps every sender *)

Lemma fold_add_from (l : list Z) (a : Z) :
  fold_left Z.add l a = a + fold_left Z.add l 0.
Proof.
  revert a. induction l as [|x l IH]; intro a; cbn [fold_left]; [lia|].
  rewrite (IH (a + x)), (IH (0 + x)). lia.
Qed.

Lemma sumZ_cons (a : Z) (l : list Z) : sumZ (a :: l) = a + sumZ l.
Proof. unfold sumZ. cbn [fold_left]. rewrite fold_add_from. lia. Qed.

Lemma total_increment (c : sdict Z) (s : string) :
  sumZ (Dict.values (sset c s (Dict.get_default String.eqb 0 c s + 1)))
  = sumZ (Dict.values c) + 1.
Proof.
  unfold sset, Dict.values, Dict.get_default.
  induction c as [|[k v] c IH]; [reflexivity|].
  cbn [Dict.get Dict.set]. destruct (String.eqb s k); cbn [map snd].
  - rewrite !sumZ_cons. lia.
  - rewrite !sumZ_cons, IH. lia.
Qed.

Lemma get_app_fresh (V : Type) (pre rest : sdict V) (k : string) :
  ~ In k (Dict.keys pre) ->
  Dict.get String.eqb (pre ++ rest) k = Dict.get String.eqb rest k.
Proof.
  induction pre as [|[k0 v0] pre IH]; intro H; [reflexivity|].
  cbn [app Dict.get]. destruct (String.eqb k k0) eqn:E.
  - apply String.eqb_eq in E. subst k0. exfalso. apply H. left. reflexivity.
  - apply IH. intro Hin. apply H. right. exact Hin.
Qed.

Lemma threshold_loop_keeps_all (TH : Z) (pre rest : sdict Z)
      (d out2 : sdict (list datetime)) :
  NoDup (Dict.keys (pre ++ rest)) ->
  (forall k v, In (k, v) rest -> TH <= v) ->
  fst (MailAnalysis.threshold_loop (Dict.keys rest) TH (pre ++ rest) d pre out2)
  = pre ++ rest.
Proof.
  revert pre out2.
  induction rest as [|[k v] rest IH]; intros pre out2 Hnd Hth.
  - rewrite app_nil_r. reflexivity.
  - cbn [Dict.keys map fst MailAnalysis.threshold_loop].
    assert (Hfresh : ~ In k (Dict.keys pre)).
    { rewrite (keys_app pre ((k, v) :: rest)) in Hnd. cbn [Dict.keys map fst] in Hnd.
      apply NoDup_remove_2 in Hnd. intro Hin. apply Hnd, in_or_app. left. exact Hin. }
    assert (Hget : Dict.get_default String.eqb 0 (pre ++ (k, v) :: rest) k = v).
    { unfold Dict.get_default. rewrite get_app_fresh by exact Hfresh.
      cbn [Dict.get]. rewrite String.eqb_refl. reflexivity. }
    rewrite Hget.
    replace (TH <=? v) with true
      by (symmetry; apply Z.leb_le, (Hth k v); left; reflexivity).
    unfold sset. rewrite (set_fresh String.eqb String.eqb_eq) by exact Hfresh.
    replace (pre ++ (k, v) :: rest) with ((pre ++ [(k, v)]) ++ rest)
      by (rewrite <- app_assoc; reflexivity).
    apply IH.
    + rewrite <- app_assoc. exact Hnd.
    + intros k' v' H. apply (Hth k' v'). right. exact H.
Qed.

Lemma aligned_total (c : sdict Z) (d : sdict (list datetime)) :
  aligned c d ->
  sumZ (Dict.values c) = Z.of_nat (List.length (List.concat (Dict.values d))).
Proof.
  unfold Dict.values.
  induction 1 as [|[k v] [k' l] c d [_ Hv] _ IH]; [reflexivity|].
  cbn [map snd List.concat] in *. rewrite sumZ_cons, length_app, IH, Hv. lia.
Qed.

Section KeepAll.
Variable strptime : string -> string -> option datetime.

Lemma read_loop_total (mail : list MailAnalysis.message)
      (c c' : sdict Z) (d d' : sdict (list datetime)) :
  MailAnalysis.read_loop strptime mail c d = Ok (c', d') ->
  sumZ (Dict.values c')
  = sumZ (Dict.values c) + Z.of_nat (List.length (MailRecords.records strptime mail))
  /\ List.length (MailRecords.records strptime mail)
     = List.length (filter (fun m => match MailRecords.accepted m with
                                     | Some _ => true
                                     | None => false
                                     end) mail).
Proof.
  revert c d. induction mail as [|m mail IH]; intros c d.
  - simpl. intros [= <- <-]. split; [lia | reflexivity].
  - rewrite read_loop_step. cbn [MailRecords.records filter].
    destruct (MailRecords.accepted m) as [[s ds]|]; [|apply IH].
    destruct (MailAnalysis.parse_datetime strptime ds) as [t|e]; cbn [bind];
      [|discriminate].
    intro H. apply IH in H. destruct H as [H1 H2].
    rewrite total_increment in H1. cbn [List.length]. split; [lia | congruence].
Qed.

Lemma read_loop_counts_positive (mail : list MailAnalysis.message)
      (c c' : sdict Z) (d d' : sdict (list datetime)) :
  (forall k v, sget c k = Some v -> 1 <= v) ->
  MailAnalysis.read_loop strptime mail c d = Ok (c', d') ->
  forall k v, sget c' k = Some v -> 1 <= v.
Proof.
  revert c d. induction mail as [|m mail IH]; intros c d Hpos.
  - simpl. intros [= <- <-]. exact Hpos.
  - rewrite read_loop_step.
    destruct (MailRecords.accepted m) as [[s ds]|]; [|apply IH, Hpos].
    destruct (MailAnalysis.parse_datetime strptime ds) as [t|e]; cbn [bind];
      [|discriminate].
    apply IH. intros k v Hg. apply get_set_cases in Hg.
    destruct Hg as [-> | Hg]; [|eauto].
    unfold Dict.get_default. destruct (Dict.get String.eqb c s) as [v0|] eqn:E.
    + specialize (Hpos s v0 E). lia.
    + lia.
Qed.
End KeepAll.

(** X16: with a threshold of at most 1 nothing is filtered out: the first
    map is the whole count of the first loop, the counts add up to the
    number of accepted messages, and so do the lengths of the timestamp
    lists. *)
Theorem X16_threshold_one_keeps_everything
    (strptime : string -> string -> option datetime)
    (mail : list MailAnalysis.message) (THRESHOLD : Z)
    (counts : sdict Z) (dates : sdict (list datetime)) :
  THRESHOLD <= 1 ->
  MailAnalysis.parse_mails strptime mail THRESHOLD = Ok (counts, dates) ->
  (exists all_dates,
     MailAnalysis.read_loop strptime mail [] [] = Ok (counts, all_dates))
  /\ sumZ (Dict.values counts)
     = Z.of_nat (List.length
                   (filter (fun m => match MailRecords.accepted m with
                                     | Some _ => true
                                     | None => false
                                     end) mail))
  /\ List.length (List.concat (Dict.values dates))
     = List.length
         (filter (fun m => match MailRecords.accepted m with
                           | Some _ => true
                           | None => false
                           end) mail).
Proof.
  intros Hth Hpm.
  pose proof Hpm as Hpm0. unfold MailAnalysis.parse_mails in Hpm.
  destruct (MailAnalysis.read_loop strptime mail [] []) as [[c d]|e] eqn:E;
    cbn [bind fst snd] in Hpm; [|discriminate].
  injection Hpm as Heq.
  pose proof (read_loop_aligned strptime mail (counts:=[]) (dates:=[])
                ltac:(constructor) E) as Hal.
  destruct (read_loop_records strptime mail [] [] E) as (_ & _ & Hnd).
  specialize (Hnd ltac:(constructor)).
  assert (Hndc : NoDup (Dict.keys c)) by (rewrite (aligned_keys Hal); exact Hnd).
  assert (Hone : forall k v, sget c k = Some v -> 1 <= v).
  { eapply read_loop_counts_positive; [|exact E]. intros ? ?; discriminate. }
  assert (Hpos : forall k v, In (k, v) c -> THRESHOLD <= v).
  { intros k v Hin.
    apply (get_of_in String.eqb String.eqb_eq _ _ _ Hndc) in Hin.
    specialize (Hone k v Hin). lia. }
  pose proof (@threshold_loop_keeps_all THRESHOLD [] c d [] Hndc Hpos) as Hall.
  cbn [app] in Hall. rewrite Heq in Hall. cbn [fst] in Hall. subst counts.
  destruct (read_loop_total strptime mail [] [] E) as [H1 H2].
  split; [exists d; reflexivity|].
  split; [rewrite H1, H2; reflexivity|].
  pose proof (threshold_loop_aligned (Dict.keys c) THRESHOLD
                Hal (out1:=[]) (out2:=[]) ltac:(constructor)) as Hal2.
  rewrite Heq in Hal2. cbn [fst snd] in Hal2.
  apply aligned_total in Hal2. rewrite H1, H2 in Hal2. cbn in Hal2. lia.
Qed.

Lemma X16_threshold_one_keeps_everything_witness :
  let mail :=
    [MailAnalysis.mk_message (Some "Ann <Ann@X.org>") (Some "Mon, 5 Jun 2023 10:00:00 +0200");
     MailAnalysis.mk_message (Some "bob@x.org") (Some "5 Jun 2023 08:15");
     MailAnalysis.mk_message None (Some "5 Jun 2023 08:15");
     MailAnalysis.mk_message (Some "ann@x.org") (Some "Mon, 5 Jun 2023 23:30:00 +0200")] in
  let counts := [("ann@x.org", 2); ("bob@x.org", 1)] in
  let dates := [("ann@x.org", [at_time 10 0 0; at_time 23 30 0]);
                ("bob@x.org", [at_time 8 15 0])] in
  (exists all_dates,
     MailAnalysis.read_loop MailAnalysis.example_strptime mail [] []
     = Ok (counts, all_dates))
  /\ sumZ (Dict.values counts)
     = Z.of_nat (List.length
                   (filter (fun m => match MailRecords.accepted m with
                                     | Some _ => true
                                     | None => false
                                     end) mail))
  /\ List.length (List.concat (Dict.values dates))
     = List.length
         (filter (fun m => match MailRecords.accepted m with
                           | Some _ => true
                           | None => false
                           end) mail).
Proof.
  intros mail counts dates.
  apply (@X16_threshold_one_keeps_everything MailAnalysis.example_strptime mail 1
           counts dates); [lia | reflexivity].
Defined.

(** ** The sub-metrics as metrics *)

Lemma mod_add_cases (x y m : Z) :
  0 < m ->
  (x + y) mod m = x mod m + y mod m \/ (x + y) mod m = x mod m + y mod m - m.
Proof.
  intro Hm. rewrite (Z.add_mod x y m) by lia.
  pose proof (Z.mod_pos_bound x m Hm). pose proof (Z.mod_pos_bound y m Hm).
  destruct (Z_lt_ge_dec (x mod m + y mod m) m) as [Hlt | Hge].
  - left. apply Z.mod_small. lia.
  - right. symmetry. apply (Z.mod_unique _ _ 1); lia.
Qed.

(** X17: on integer timestamps the time sub-metric obeys the triangle
    inequality: going round the day through a third time is never
    shorter. *)
Theorem X17_metric_seconds_triangle (a b c : Z) :
  Metric.metric_seconds a c
  <= Metric.metric_seconds a b + Metric.metric_seconds b c.
Proof.
  rewrite !metric_seconds_int.
  replace (c - a) with (- (a - c)) by lia.
  replace (b - a) with (- (a - b)) by lia.
  replace (c - b) with (- (b - c)) by lia.
  replace (a - c) with ((a - b) + (b - c)) by lia.
  pose proof (Z.mod_pos_bound (a - b) 86400 ltac:(lia)).
  pose proof (Z.mod_pos_bound (b - c) 86400 ltac:(lia)).
  destruct (mod_add_cases (a - b) (b - c) (m:=86400) ltac:(lia)) as [E | E];
    destruct (mod_opp_pair (a - b) (m:=86400) ltac:(lia)) as [[E1 E1'] | [E1 E1']];
    destruct (mod_opp_pair (b - c) (m:=86400) ltac:(lia)) as [[E2 E2'] | [E2 E2']];
    destruct (mod_opp_pair (a - b + (b - c)) (m:=86400) ltac:(lia))
      as [[E3 E3'] | [E3 E3']];
    rewrite E1', E2', E3'; lia.
Qed.

(** X18: the time sub-metric sees a timestamp only through its time of
    day: adding whole days to an argument changes nothing, the distance is
    0 exactly when the two timestamps agree modulo 86400, and for two
    timestamps within one day that means they are equal. *)
Theorem X18_metric_seconds_modulo_day (a b k : Z) :
  Metric.metric_seconds (a + k * 86400) b = Metric.metric_seconds a b
  /\ (Metric.metric_seconds a b = 0 <-> (a - b) mod 86400 = 0)
  /\ (0 <= a < 86400 -> 0 <= b < 86400 ->
      Metric.metric_seconds a b = 0 -> a = b).
Proof.
  rewrite !metric_seconds_int.
  assert (Hzero : Z.min ((a - b) mod 86400) ((b - a) mod 86400) = 0
                  <-> (a - b) mod 86400 = 0).
  { replace (b - a) with (- (a - b)) by lia.
    destruct (mod_opp_pair (a - b) (m:=86400) ltac:(lia)) as [[E1 E2] | [E1 E2]];
      rewrite E2; lia. }
  split; [|split].
  - replace (a + k * 86400 - b) with (a - b + k * 86400) by lia.
    replace (b - (a + k * 86400)) with (b - a + (- k) * 86400) by lia.
    rewrite !Z.mod_add by lia. reflexivity.
  - exact Hzero.
  - intros Ha Hb H. apply Hzero in H.
    destruct (Z_lt_ge_dec a b) as [Hlt | Hge].
    + replace (a - b) with (- (b - a)) in H by lia.
      apply Z.mod_opp_l_z in H; [|lia].
      replace (- - (b - a)) with (b - a) in H by lia.
      rewrite Z.mod_small in H by lia. lia.
    + rewrite Z.mod_small in H by lia. lia.
Qed.

(** ** The composite metric as a metric *)

Lemma Rfloor_mod_unique (a m r : R) (k : Z) :
  (0 < m)%R -> (a = IZR k * m + r)%R -> (0 <= r < m)%R -> Rfloor_mod a m = r.
Proof.
  intros Hm Ha Hr. unfold Rfloor_mod.
  assert (Hq : (a / m = IZR k + r / m)%R) by (rewrite Ha; field; lra).
  assert (Hr1 : (0 <= r / m)%R).
  { apply Rmult_le_pos; [lra|]. left. apply Rinv_0_lt_compat, Hm. }
  assert (Hr2 : (r / m < 1)%R).
  { apply Rmult_lt_reg_r with m; [exact Hm|].
    replace (r / m * m)%R with r by (field; lra). lra. }
  rewrite <- (Int_part_spec (a / m) k); [lra | lra].
Qed.

Lemma Rfloor_mod_decompose (a m : R) :
  (0 < m)%R -> exists k : Z, (a = IZR k * m + Rfloor_mod a m)%R.
Proof.
  intros _. exists (Int_part (a / m)). unfold Rfloor_mod. ring.
Qed.

Lemma Rfloor_mod_add (u v m : R) :
  (0 < m)%R ->
  (Rfloor_mod (u + v) m = Rfloor_mod u m + Rfloor_mod v m
   \/ Rfloor_mod (u + v) m = Rfloor_mod u m + Rfloor_mod v m - m)%R.
Proof.
  intro Hm.
  destruct (Rfloor_mod_decompose u Hm) as [ku Hu].
  destruct (Rfloor_mod_decompose v Hm) as [kv Hv].
  pose proof (Rfloor_mod_range u Hm) as Ru.
  pose proof (Rfloor_mod_range v Hm) as Rv.
  destruct (Rlt_dec (Rfloor_mod u m + Rfloor_mod v m) m) as [Hlt | Hge].
  - left. apply (@Rfloor_mod_unique _ _ _ (ku + kv)%Z); [exact Hm| |lra].
    rewrite plus_IZR. lra.
  - right. apply (@Rfloor_mod_unique _ _ _ (ku + kv + 1)%Z); [exact Hm| |lra].
    rewrite !plus_IZR. lra.
Qed.

Lemma metric_seconds_real_triangle (a b c : R) :
  (Metric.metric_seconds a c
   <= Metric.metric_seconds a b + Metric.metric_seconds b c)%R.
Proof.
  unfold Metric.metric_seconds. cbn [num_min num_mod num_sub num_of_Z Num_R].
  replace (IZR Metric.seconds_per_day) with 86400%R
    by (unfold Metric.seconds_per_day; simpl; reflexivity).
  replace (c - a)%R with (- (a - c))%R by ring.
  replace (b - a)%R with (- (a - b))%R by ring.
  replace (c - b)%R with (- (b - c))%R by ring.
  replace (a - c)%R with ((a - b) + (b - c))%R by ring.
  assert (Hm : (0 < 86400)%R) by lra.
  pose proof (Rfloor_mod_range (a - b) Hm).
  pose proof (Rfloor_mod_range (b - c) Hm).
  destruct (Rfloor_mod_add (a - b) (b - c) Hm) as [E | E];
    destruct (Rfloor_mod_opp (a - b) Hm) as [[E1 E1'] | [E1 E1']];
    destruct (Rfloor_mod_opp (b - c) Hm) as [[E2 E2'] | [E2 E2']];
    destruct (Rfloor_mod_opp (a - b + (b - c)) Hm) as [[E3 E3'] | [E3 E3']];
    rewrite E1', E2', E3'; unfold Rmin;
    repeat destruct (Rle_dec _ _); lra.
Qed.

(** X19: on real arguments, as the pipeline calls it on scaled features,
    the time sub-metric lies between 0 and 43200, is symmetric, is 0 from
    a time to itself, and obeys the triangle inequality. *)
Theorem X19_metric_seconds_on_reals (a b c : R) :
  (0 <= Metric.metric_seconds a b <= 43200)%R
  /\ Metric.metric_seconds a b = Metric.metric_seconds b a
  /\ Metric.metric_seconds a a = 0%R
  /\ (Metric.metric_seconds a c
      <= Metric.metric_seconds a b + Metric.metric_seconds b c)%R.
Proof.
  split; [apply metric_seconds_real_range|].
  split; [apply metric_seconds_real_sym|].
  split; [apply metric_seconds_real_diag | apply metric_seconds_real_triangle].
Qed.

Lemma Rabs_triangle_sub (a b c : R) : (Rabs (a - c) <= Rabs (a - b) + Rabs (b - c))%R.
Proof.
  replace (a - c)%R with ((a - b) + (b - c))%R by ring. apply Rabs_triang.
Qed.

(** The Euclidean norm of three numbers. *)
Lemma norm3_sub_additive (p1 p2 p3 q1 q2 q3 r1 r2 r3 : R) :
  (0 <= p1 <= q1 + r1)%R -> (0 <= p2 <= q2 + r2)%R -> (0 <= p3 <= q3 + r3)%R ->
  (0 <= q1)%R -> (0 <= q2)%R -> (0 <= q3)%R ->
  (0 <= r1)%R -> (0 <= r2)%R -> (0 <= r3)%R ->
  (sqrt (p1 ^ 2 + p2 ^ 2 + p3 ^ 2)
   <= sqrt (q1 ^ 2 + q2 ^ 2 + q3 ^ 2) + sqrt (r1 ^ 2 + r2 ^ 2 + r3 ^ 2))%R.
Proof.
  intros Hp1 Hp2 Hp3 Hq1 Hq2 Hq3 Hr1 Hr2 Hr3.
  set (Q := (q1 ^ 2 + q2 ^ 2 + q3 ^ 2)%R).
  set (S := (r1 ^ 2 + r2 ^ 2 + r3 ^ 2)%R).
  assert (HQ : (0 <= Q)%R) by (unfold Q; nra).
  assert (HS : (0 <= S)%R) by (unfold S; nra).
  pose proof (sqrt_pos Q) as HsQ. pose proof (sqrt_pos S) as HsS.
  assert (EQ : (sqrt Q * sqrt Q = Q)%R) by (apply sqrt_sqrt, HQ).
  assert (ES : (sqrt S * sqrt S = S)%R) by (apply sqrt_sqrt, HS).
  (* Cauchy-Schwarz *)
  assert (HCS : (q1 * r1 + q2 * r2 + q3 * r3 <= sqrt Q * sqrt S)%R).
  { rewrite <- sqrt_mult by assumption.
    rewrite <- (sqrt_square (q1 * r1 + q2 * r2 + q3 * r3)) by nra.
    apply sqrt_le_1_alt. unfold Q, S.
    assert (0 <= (q1 * r2 - q2 * r1) ^ 2)%R by apply pow2_ge_0.
    assert (0 <= (q1 * r3 - q3 * r1) ^ 2)%R by apply pow2_ge_0.
    assert (0 <= (q2 * r3 - q3 * r2) ^ 2)%R by apply pow2_ge_0.
    nra. }
  rewrite <- (sqrt_square (sqrt Q + sqrt S)) by lra.
  apply sqrt_le_1_alt.
  assert (p1 ^ 2 <= (q1 + r1) ^ 2)%R by nra.
  assert (p2 ^ 2 <= (q2 + r2) ^ 2)%R by nra.
  assert (p3 ^ 2 <= (q3 + r3) ^ 2)%R by nra.
  unfold Q, S in *. nra.
Qed.

(** X20: the composite metric obeys the triangle inequality on any three
    3-feature vectors (with the arithmetic of real numbers): together with
    symmetry and the zero diagonal it is a pseudometric. *)
Theorem X20_product_metric_triangle (x y z : list R) :
  List.length x = 3%nat -> List.length y = 3%nat -> List.length z = 3%nat ->
  exists dxz dxy dyz : R,
    Metric.product_metric x z = Ok dxz
    /\ Metric.product_metric x y = Ok dxy
    /\ Metric.product_metric y z = Ok dyz
    /\ (dxz <= dxy + dyz)%R.
Proof.
  intros Hx Hy Hz.
  destruct x as [|x1 [|x2 [|x3 [|? ?]]]]; try discriminate.
  destruct y as [|y1 [|y2 [|y3 [|? ?]]]]; try discriminate.
  destruct z as [|z1 [|z2 [|z3 [|? ?]]]]; try discriminate.
  unfold Metric.product_metric. cbn [Metric.Data_of_array bind
    Metric.mail_count Metric.seconds Metric.weekday_].
  do 3 eexists. split; [reflexivity|]. split; [reflexivity|]. split; [reflexivity|].
  unfold Metric.metric_mail_count, Metric.metric_weekday.
  cbn [num_abs num_sub Num_R].
  apply norm3_sub_additive.
  - split; [apply Rabs_pos | apply Rabs_triangle_sub].
  - split; [apply metric_seconds_real_range | apply metric_seconds_real_triangle].
  - split; [apply Rabs_pos | apply Rabs_triangle_sub].
  - apply Rabs_pos.
  - apply metric_seconds_real_range.
  - apply Rabs_pos.
  - apply Rabs_pos.
  - apply metric_seconds_real_range.
  - apply Rabs_pos.
Qed.

Lemma X20_product_metric_triangle_witness :
  exists dxz dxy dyz : R,
    Metric.product_metric [1; 0; 0]%R [0; 0; 1]%R = Ok dxz
    /\ Metric.product_metric [1; 0; 0]%R [0; 1; 1]%R = Ok dxy
    /\ Metric.product_metric [0; 1; 1]%R [0; 0; 1]%R = Ok dyz
    /\ (dxz <= dxy + dyz)%R.
Proof.
  apply (@X20_product_metric_triangle [1; 0; 0]%R [0; 1; 1]%R [0; 0; 1]%R);
    reflexivity.
Defined.

(** X21: the composite metric raises the [TypeError] of the named tuple
    exactly when one of its arguments does not hold three numbers. *)
Theorem X21_product_metric_needs_three_features (x y : list R) :
  Metric.product_metric x y = Raise TypeError
  <-> (List.length x <> 3%nat \/ List.length y <> 3%nat).
Proof.
  unfold Metric.product_metric.
  destruct x as [|x1 [|x2 [|x3 [|? ?]]]]; cbn [Metric.Data_of_array bind List.length];
    try (split; [intros _; left; lia | reflexivity]).
  destruct y as [|y1 [|y2 [|y3 [|? ?]]]]; cbn [Metric.Data_of_array bind List.length];
    try (split; [intros _; right; lia | reflexivity]).
  split; [discriminate | intros [H | H]; exfalso; apply H; reflexivity].
Qed.

Lemma sqrt_sum3_zero (a b c : R) :
  (sqrt (a ^ 2 + b ^ 2 + c ^ 2) = 0 <-> a = 0 /\ b = 0 /\ c = 0)%R.
Proof.
  split.
  - intro H. apply sqrt_eq_0 in H; [|nra].
    assert (0 <= a ^ 2)%R by apply pow2_ge_0.
    assert (0 <= b ^ 2)%R by apply pow2_ge_0.
    assert (0 <= c ^ 2)%R by apply pow2_ge_0.
    repeat split; nra.
  - intros (-> & -> & ->).
    replace (0 ^ 2 + 0 ^ 2 + 0 ^ 2)%R with 0%R by ring. apply sqrt_0.
Qed.

(** X22: with the arithmetic of real numbers (no rounding, no underflow
    of a square), two feature vectors are at composite distance 0 exactly
    when their mail counts are equal, their weekdays are equal, and their
    times are at time distance 0 (equal modulo a day). *)
Theorem X22_product_metric_zero (c1 s1 w1 c2 s2 w2 : R) :
  Metric.product_metric [c1; s1; w1] [c2; s2; w2] = Ok 0%R
  <-> (c1 = c2 /\ Metric.metric_seconds s1 s2 = 0%R /\ w1 = w2).
Proof.
  unfold Metric.product_metric. cbn [Metric.Data_of_array bind
    Metric.mail_count Metric.seconds Metric.weekday_].
  unfold Metric.metric_mail_count, Metric.metric_weekday.
  cbn [num_abs num_sub Num_R].
  split.
  - intros [= H]. apply sqrt_sum3_zero in H. destruct H as (H1 & H2 & H3).
    repeat split; [|exact H2|].
    + destruct (Req_dec c1 c2) as [|Hne]; [assumption|].
      exfalso. apply (Rabs_no_R0 (c1 - c2)); [lra | exact H1].
    + destruct (Req_dec w1 w2) as [|Hne]; [assumption|].
      exfalso. apply (Rabs_no_R0 (w1 - w2)); [lra | exact H3].
  - intros (-> & H2 & ->). f_equal. apply sqrt_sum3_zero.
    replace (c2 - c2)%R with 0%R by ring. replace (w2 - w2)%R with 0%R by ring.
    rewrite Rabs_R0. auto.
Qed.

(** ** Component extraction: errors *)

Section ObtainErrors.
Variables DP ID : Type.

Lemma group_loop_short_identifiers (labels : list nat) (i : nat)
      (data_points : list DP) (identifiers : list ID)
      (cdp : ndict (list DP)) (cid : ndict (list ID)) :
  (i + List.length labels <= List.length data_points)%nat ->
  (i <= List.length identifiers)%nat ->
  (List.length identifiers < i + List.length labels)%nat ->
  Persistence.group_loop i labels data_points identifiers cdp cid = Raise IndexError.
Proof.
  revert i cdp cid.
  induction labels as [|k labels IH]; intros i cdp cid Hd Hi Hlt; simpl in *; [lia|].
  destruct (nth_error data_points i) as [p|] eqn:Ep;
    [|apply nth_error_None in Ep; lia].
  destruct (nth_error identifiers i) as [x|] eqn:Ex; [|reflexivity].
  assert ((i < List.length identifiers)%nat) by (apply nth_error_Some; congruence).
  apply IH; lia.
Qed.
End ObtainErrors.

(** X23: when the distance matrix is square and not empty but the number
    of data points is not the number of its rows,
    [obtain_connected_components] raises its consistency exception, and no
    component is returned. *)
Theorem X23_wrong_number_of_data_points (DP ID : Type)
    (data_points : list DP) (identifiers : list ID)
    (diagrams : list (list (Q * option Q))) (m : matrix) (epsilon : Q) :
  is_square m = true ->
  m <> [] ->
  List.length data_points <> List.length m ->
  fst (Persistence.obtain_connected_components
         (data_points, identifiers) (Persistence.mk_ripser diagrams m) epsilon)
  = Raise ConsistencyError.
Proof.
  intros Hsq Hne Hlen.
  destruct (@connected_components_spec (Persistence.threshold epsilon m))
    as (nc & labels & Hcc & Hl & _); [rewrite is_square_threshold; exact Hsq|].
  rewrite length_threshold in Hl.
  unfold Persistence.obtain_connected_components.
  cbn [Persistence.dperm2all Persistence.dgms].
  rewrite (square_not_zero_size Hsq Hne). cbn [fst]. rewrite Hcc. cbn [bind snd].
  rewrite Hl.
  replace (Nat.eqb (List.length m) (List.length data_points)) with false
    by (symmetry; apply Nat.eqb_neq; congruence).
  reflexivity.
Qed.

Lemma X23_wrong_number_of_data_points_witness :
  fst (Persistence.obtain_connected_components
         ([0; 1]%nat, ["a"; "b"; "c"])
         (Persistence.mk_ripser [] Persistence.scenario_C) (6 # 10))
  = Raise ConsistencyError.
Proof.
  apply (@X23_wrong_number_of_data_points nat string [0; 1]%nat ["a"; "b"; "c"]
           [] Persistence.scenario_C (6 # 10));
    [reflexivity | discriminate | discriminate].
Defined.

(** X24: the consistency test compares the labels with the data points
    only.  With as many data points as rows but fewer identifiers, the
    test passes and the grouping loop runs off the end of the identifier
    list: the call raises [IndexError]. *)
Theorem X24_too_few_identifiers (DP ID : Type)
    (data_points : list DP) (identifiers : list ID)
    (diagrams : list (list (Q * option Q))) (m : matrix) (epsilon : Q) :
  is_square m = true ->
  List.length data_points = List.length m ->
  (List.length identifiers < List.length m)%nat ->
  fst (Persistence.obtain_connected_components
         (data_points, identifiers) (Persistence.mk_ripser diagrams m) epsilon)
  = Raise IndexError.
Proof.
  intros Hsq Hdp Hid.
  assert (Hne : m <> []) by (intros ->; simpl in Hid; lia).
  destruct (@connected_components_spec (Persistence.threshold epsilon m))
    as (nc & labels & Hcc & Hl & _); [rewrite is_square_threshold; exact Hsq|].
  rewrite length_threshold in Hl.
  unfold Persistence.obtain_connected_components.
  cbn [Persistence.dperm2all Persistence.dgms].
  rewrite (square_not_zero_size Hsq Hne). cbn [fst]. rewrite Hcc. cbn [bind snd].
  rewrite Hl, Hdp, Nat.eqb_refl.
  apply group_loop_short_identifiers; lia.
Qed.

Lemma X24_too_few_identifiers_witness :
  fst (Persistence.obtain_connected_components
         ([0; 1; 2]%nat, ["a"; "b"])
         (Persistence.mk_ripser [] Persistence.scenario_C) (6 # 10))
  = Raise IndexError.
Proof.
  apply (@X24_too_few_identifiers nat string [0; 1; 2]%nat ["a"; "b"]
           [] Persistence.scenario_C (6 # 10)); [reflexivity | reflexivity | simpl; lia].
Defined.

(** ** Component extraction: the two dictionaries *)

Section Pairing.
Variables A B : Type.
Variable R : A -> B -> Prop.

Lemma paired_append (d1 : ndict (list A)) (d2 : ndict (list B))
      (k : nat) (p : A) (x : B) :
  paired R d1 d2 -> R p x ->
  paired R (Persistence.append_to d1 k p) (Persistence.append_to d2 k x).
Proof.
  intros H HR. unfold Persistence.append_to, nset, Dict.get_default.
  induction H as [|[k1 l1] [k2 l2] d1 d2 [Hk Hl] Hd IH]; cbn [Dict.get Dict.set app].
  - constructor; [split; [reflexivity | repeat constructor; exact HR] | constructor].
  - cbn [fst snd] in Hk, Hl. subst k2.
    destruct (Nat.eqb k k1).
    + constructor; [|exact Hd]. split; [reflexivity|]. cbn [snd].
      apply Forall2_app; [exact Hl | repeat constructor; exact HR].
    + constructor; [split; [reflexivity | exact Hl] | exact IH].
Qed.

Lemma paired_keys (d1 : ndict (list A)) (d2 : ndict (list B)) :
  paired R d1 d2 -> Dict.keys d1 = Dict.keys d2.
Proof.
  induction 1 as [|[k1 l1] [k2 l2] d1 d2 [Hk _] _ IH]; [reflexivity|].
  cbn [fst] in Hk. subst. simpl. f_equal. exact IH.
Qed.

Lemma paired_get (d1 : ndict (list A)) (d2 : ndict (list B))
      (l : nat) (ps : list A) (xs : list B) :
  paired R d1 d2 -> nget d1 l = Some ps -> nget d2 l = Some xs -> Forall2 R ps xs.
Proof.
  unfold nget.
  induction 1 as [|[k1 l1] [k2 l2] d1 d2 [Hk Hl] _ IH]; cbn [Dict.get]; [discriminate|].
  cbn [fst snd] in Hk, Hl. subst k2.
  destruct (Nat.eqb l k1); [intros [= <-] [= <-]; exact Hl | exact IH].
Qed.
End Pairing.

Lemma group_loop_paired (DP ID : Type) (labels : list nat) (i : nat)
      (data_points : list DP) (identifiers : list ID)
      (cdp cdp' : ndict (list DP)) (cid cid' : ndict (list ID)) :
  paired (same_row data_points identifiers) cdp cid ->
  Persistence.group_loop i labels data_points identifiers cdp cid = Ok (cdp', cid') ->
  paired (same_row data_points identifiers) cdp' cid'.
Proof.
  revert i cdp cid.
  induction labels as [|k labels IH]; intros i cdp cid Hp; simpl.
  - intros [= <- <-]. exact Hp.
  - destruct (nth_error data_points i) as [p|] eqn:Ep; [|discriminate].
    destruct (nth_error identifiers i) as [x|] eqn:Ex; [|discriminate].
    apply IH. apply paired_append; [exact Hp|]. exists i. auto.
Qed.

(** X25: whenever [obtain_connected_components] returns, its two
    dictionaries go together: the same labels in the same order, and under
    each label as many data points as identifiers, the data point at a
    place being the one of the same row as the identifier at that place. *)
Theorem X25_data_points_follow_identifiers (DP ID : Type)
    (data_points : list DP) (identifiers : list ID)
    (persistence : Persistence.ripser_result) (epsilon : Q)
    (cdp : ndict (list DP)) (cid : ndict (list ID)) :
  fst (Persistence.obtain_connected_components
         (data_points, identifiers) persistence epsilon) = Ok (cdp, cid) ->
  Dict.keys cdp = Dict.keys cid
  /\ forall l ps xs,
       nget cdp l = Some ps -> nget cid l = Some xs ->
       Forall2 (same_row data_points identifiers) ps xs.
Proof.
  unfold Persistence.obtain_connected_components.
  destruct (Persistence.is_zero_size (Persistence.dperm2all persistence));
    cbn [fst]; [discriminate|].
  destruct (Csgraph.connected_components
              (Persistence.threshold epsilon (Persistence.dperm2all persistence)))
    as [[nc labels]|e]; cbn [bind snd]; [|discriminate].
  destruct (Nat.eqb (List.length labels) (List.length data_points)); [|discriminate].
  intro H. apply group_loop_paired in H; [|constructor].
  split; [eapply paired_keys; exact H|].
  intros l ps xs. eapply paired_get; exact H.
Qed.

Lemma X25_data_points_follow_identifiers_witness :
  Dict.keys [(0, [10; 11]); (1, [12])]%nat
  = Dict.keys [(0%nat, ["a"; "b"]); (1%nat, ["c"])]
  /\ forall l ps xs,
       nget [(0, [10; 11]); (1, [12])]%nat l = Some ps ->
       nget [(0%nat, ["a"; "b"]); (1%nat, ["c"])] l = Some xs ->
       Forall2 (same_row [10; 11; 12]%nat ["a"; "b"; "c"]) ps xs.
Proof.
  apply (@X25_data_points_follow_identifiers nat string [10; 11; 12]%nat
           ["a"; "b"; "c"] (Persistence.mk_ripser [] Persistence.scenario_C) (6 # 10)).
  vm_compute. reflexivity.
Defined.

(** ** Component extraction: who shares a component *)

Section Membership.
Variables DP ID : Type.
Variable data_points : list DP.
Variable identifiers : list ID.
Variable diagrams : list (list (Q * option Q)).
Variable m : matrix.
Variable epsilon : Q.

Hypothesis m_square : is_square m = true.
Hypothesis m_nonempty : m <> [].
Hypothesis identifiers_length : List.length identifiers = List.length m.
Hypothesis data_points_length : List.length data_points = List.length m.

(** The components in terms of the labels: an identifier is in the
    component of label [l] exactly when it stands at an index labelled
    [l], and the identifier at index [i] is in the component of the label
    of [i]. *)
Lemma component_membership :
  exists labels cdp cid,
    fst (Persistence.obtain_connected_components
           (data_points, identifiers)
           (Persistence.mk_ripser diagrams m) epsilon) = Ok (cdp, cid)
    /\ List.length labels = List.length m
    /\ (forall i j, (i < List.length m)%nat -> (j < List.length m)%nat ->
          (nth i labels 0%nat = nth j labels 0%nat
           <-> Persistence.connected m epsilon i j))
    /\ (forall l comp, nget cid l = Some comp ->
          comp = Persistence.members labels identifiers l)
    /\ (forall i x, nth_error identifiers i = Some x ->
          nget cid (nth i labels 0%nat)
          = Some (Persistence.members labels identifiers (nth i labels 0%nat))
          /\ In x (Persistence.members labels identifiers (nth i labels 0%nat)))
    /\ NoDup (Dict.keys cid).
Proof.
  destruct (@obtain_connected_components_spec DP ID data_points identifiers
              diagrams m epsilon m_square m_nonempty identifiers_length
              data_points_length)
    as (labels & cdp & cid & Hok & Hlen & Hlab & Hmem & _ & Hnd).
  exists labels, cdp, cid.
  split; [exact Hok|]. split; [exact Hlen|]. split; [exact Hlab|].
  split; [|split; [|exact Hnd]].
  - intros l comp Hget. apply get_default_of_get in Hget.
    rewrite Hmem in Hget. congruence.
  - intros i x Hx.
    assert (Hi : (i < List.length labels)%nat).
    { rewrite Hlen, <- identifiers_length. apply nth_error_Some. congruence. }
    assert (Hin : In x (Persistence.members labels identifiers (nth i labels 0%nat))).
    { apply in_members. exists i. split; [apply nth_error_nth', Hi | exact Hx]. }
    split; [|exact Hin].
    rewrite <- Hmem. eapply get_of_get_default. rewrite Hmem. exact Hin.
Qed.
End Membership.

Lemma connected_monotone (m : matrix) (epsilon epsilon' : Q) (i j : nat) :
  Qle epsilon epsilon' ->
  Persistence.connected m epsilon i j -> Persistence.connected m epsilon' i j.
Proof.
  intro Hle. unfold Persistence.connected.
  induction 1 as [a b (Ha & Hb & H) | a | a b c _ IH1 _ IH2].
  - apply rt_step. split; [exact Ha|]. split; [exact Hb|].
    destruct H as [H | H]; [left | right];
      apply Qle_bool_iff; apply Qle_bool_iff in H; eapply Qle_trans; eauto.
  - apply rt_refl.
  - eapply rt_trans; eauto.
Qed.

(** X26: raising epsilon only merges components.  On the same square
    matrix, not empty, two identifiers that share a component at epsilon
    share one at every larger epsilon. *)
Theorem X26_larger_epsilon_merges (DP ID : Type)
    (data_points : list DP) (identifiers : list ID)
    (diagrams : list (list (Q * option Q))) (m : matrix) (epsilon epsilon' : Q) :
  is_square m = true ->
  m <> [] ->
  List.length identifiers = List.length m ->
  List.length data_points = List.length m ->
  Qle epsilon epsilon' ->
  exists cdp cid cdp' cid',
    fst (Persistence.obtain_connected_components
           (data_points, identifiers)
           (Persistence.mk_ripser diagrams m) epsilon) = Ok (cdp, cid)
    /\ fst (Persistence.obtain_connected_components
              (data_points, identifiers)
              (Persistence.mk_ripser diagrams m) epsilon') = Ok (cdp', cid')
    /\ forall x y,
         (exists l comp, nget cid l = Some comp /\ In x comp /\ In y comp) ->
         (exists l' comp', nget cid' l' = Some comp' /\ In x comp' /\ In y comp').
Proof.
  intros Hsq Hne Hid Hdp Hle.
  destruct (@component_membership DP ID data_points identifiers diagrams m epsilon
              Hsq Hne Hid Hdp)
    as (labels & cdp & cid & Hok & Hlen & Hlab & Hcomp & _ & _).
  destruct (@component_membership DP ID data_points identifiers diagrams m epsilon'
              Hsq Hne Hid Hdp)
    as (labels' & cdp' & cid' & Hok' & Hlen' & Hlab' & _ & Hat' & _).
  exists cdp, cid, cdp', cid'. split; [exact Hok|]. split; [exact Hok'|].
  intros x y (l & comp & Hget & Hx & Hy).
  rewrite (Hcomp l comp Hget) in Hx, Hy.
  apply in_members in Hx, Hy.
  destruct Hx as (i & Hli & Hxi). destruct Hy as (j & Hlj & Hyj).
  assert (Hi : (i < List.length m)%nat)
    by (rewrite <- Hid; apply nth_error_Some; congruence).
  assert (Hj : (j < List.length m)%nat)
    by (rewrite <- Hid; apply nth_error_Some; congruence).
  assert (Hc : Persistence.connected m epsilon i j).
  { apply Hlab; [exact Hi | exact Hj|].
    rewrite (nth_error_nth _ _ 0%nat Hli), (nth_error_nth _ _ 0%nat Hlj). reflexivity. }
  apply (connected_monotone Hle) in Hc. apply Hlab' in Hc; [|exact Hi|exact Hj].
  destruct (Hat' i x Hxi) as [Hg1 Hin1]. destruct (Hat' j y Hyj) as [_ Hin2].
  exists (nth i labels' 0%nat), (Persistence.members labels' identifiers (nth i labels' 0%nat)).
  split; [exact Hg1|]. split; [exact Hin1|]. rewrite Hc. exact Hin2.
Qed.

Lemma X26_larger_epsilon_merges_witness :
  exists cdp cid cdp' cid',
    fst (Persistence.obtain_connected_components
           ([0; 1; 2]%nat, ["a"; "b"; "c"])
           (Persistence.mk_ripser [] Persistence.scenario_C) (6 # 10)) = Ok (cdp, cid)
    /\ fst (Persistence.obtain_connected_components
              ([0; 1; 2]%nat, ["a"; "b"; "c"])
              (Persistence.mk_ripser [] Persistence.scenario_C) 2) = Ok (cdp', cid')
    /\ forall x y,
         (exists l comp, nget cid l = Some comp /\ In x comp /\ In y comp) ->
         (exists l' comp', nget cid' l' = Some comp' /\ In x comp' /\ In y comp').
Proof.
  apply (@X26_larger_epsilon_merges nat string [0; 1; 2]%nat ["a"; "b"; "c"]
           [] Persistence.scenario_C (6 # 10) 2); try reflexivity.
  - discriminate.
  - discriminate.
Defined.

Lemma group_loop_nonempty (DP ID : Type) (labels : list nat) (i : nat)
      (data_points : list DP) (identifiers : list ID)
      (cdp cdp' : ndict (list DP)) (cid cid' : ndict (list ID)) :
  (forall l comp, nget cid l = Some comp -> comp <> []) ->
  Persistence.group_loop i labels data_points identifiers cdp cid = Ok (cdp', cid') ->
  forall l comp, nget cid' l = Some comp -> comp <> [].
Proof.
  revert i cdp cid.
  induction labels as [|k labels IH]; intros i cdp cid Hne; simpl.
  - intros [= <- <-]. exact Hne.
  - destruct (nth_error data_points i) as [p|]; [|discriminate].
    destruct (nth_error identifiers i) as [x|]; [|discriminate].
    apply IH. intros l comp Hg. unfold Persistence.append_to, nget, nset in Hg.
    apply get_set_cases in Hg. destruct Hg as [-> | Hg]; [|exact (Hne l comp Hg)].
    intro Habs. apply app_eq_nil in Habs. destruct Habs; discriminate.
Qed.

Lemma obtain_nonempty (DP ID : Type)
      (data_points : list DP) (identifiers : list ID)
      (persistence : Persistence.ripser_result) (epsilon : Q)
      (cdp : ndict (list DP)) (cid : ndict (list ID)) :
  fst (Persistence.obtain_connected_components
         (data_points, identifiers) persistence epsilon) = Ok (cdp, cid) ->
  forall l comp, nget cid l = Some comp -> comp <> [].
Proof.
  unfold Persistence.obtain_connected_components.
  destruct (Persistence.is_zero_size (Persistence.dperm2all persistence));
    cbn [fst]; [discriminate|].
  destruct (Csgraph.connected_components
              (Persistence.threshold epsilon (Persistence.dperm2all persistence)))
    as [[nc labels]|e]; cbn [bind snd]; [|discriminate].
  destruct (Nat.eqb (List.length labels) (List.length data_points)); [|discriminate].
  apply group_loop_nonempty. intros l comp. discriminate.
Qed.

Lemma members_all (A : Type) (labels : list nat) (xs : list A) (l : nat) :
  List.length labels = List.length xs ->
  (forall i, (i < List.length labels)%nat -> nth i labels 0%nat = l) ->
  Persistence.members labels xs l = xs.
Proof.
  revert xs. induction labels as [|k labels IH]; intros [|x xs] Hl Hall;
    try discriminate; [reflexivity|].
  cbn [Persistence.members].
  pose proof (Hall 0%nat ltac:(simpl; lia)) as H0. simpl in H0. subst k.
  rewrite Nat.eqb_refl. f_equal. apply IH; [simpl in Hl; lia|].
  intros i Hi. apply (Hall (S i)). simpl. lia.
Qed.

(** X27: when every entry of a square matrix is within epsilon, the
    extraction returns one component, and it holds all the identifiers in
    their order. *)
Theorem X27_all_within_epsilon_one_component (DP ID : Type)
    (data_points : list DP) (identifiers : list ID)
    (diagrams : list (list (Q * option Q))) (m : matrix) (epsilon : Q) :
  is_square m = true ->
  List.length identifiers = List.length m ->
  List.length data_points = List.length m ->
  identifiers <> [] ->
  (forall i j, (i < List.length m)%nat -> (j < List.length m)%nat ->
               Qle_bool (entry m i j) epsilon = true) ->
  exists cdp l,
    fst (Persistence.obtain_connected_components
           (data_points, identifiers)
           (Persistence.mk_ripser diagrams m) epsilon) = Ok (cdp, [(l, identifiers)]).
Proof.
  intros Hsq Hid Hdp Hne Hall.
  assert (Hm : m <> []).
  { intros ->. destruct identifiers; [congruence | discriminate Hid]. }
  destruct (@component_membership DP ID data_points identifiers diagrams m epsilon
              Hsq Hm Hid Hdp)
    as (labels & cdp & cid & Hok & Hlen & Hlab & Hcomp & Hat & Hnd).
  pose proof (obtain_nonempty _ _ _ _ Hok) as Hnonempty.
  set (l0 := nth 0 labels 0%nat).
  assert (Hn : (0 < List.length m)%nat).
  { rewrite <- Hid. destruct identifiers; [congruence | simpl; lia]. }
  assert (Hlabels : forall i, (i < List.length labels)%nat -> nth i labels 0%nat = l0).
  { intros i Hi. symmetry. apply Hlab; [exact Hn | lia|].
    apply rt_step. split; [exact Hn|]. split; [lia|]. left. apply Hall; lia. }
  assert (Hmem : Persistence.members labels identifiers l0 = identifiers)
    by (apply members_all; [lia | exact Hlabels]).
  assert (Hkeys : forall l, In l (Dict.keys cid) -> l = l0).
  { intros l Hl.
    destruct (nget cid l) as [comp|] eqn:Eg.
    - pose proof (Hnonempty l comp Eg) as Hc. rewrite (Hcomp l comp Eg) in Hc.
      destruct (Persistence.members labels identifiers l) as [|x rest] eqn:Em;
        [congruence|].
      assert (Hx : In x (Persistence.members labels identifiers l))
        by (rewrite Em; left; reflexivity).
      apply in_members in Hx. destruct Hx as (i & Hli & _).
      rewrite <- (nth_error_nth _ _ 0%nat Hli). apply Hlabels.
      apply nth_error_Some. congruence.
    - apply (get_none_notin Nat.eqb Nat.eqb_eq) in Eg. tauto. }
  destruct identifiers as [|x0 ids'] eqn:Eids; [congruence|].
  destruct (Hat 0%nat x0 eq_refl) as [Hg0 _]. fold l0 in Hg0. rewrite Hmem in Hg0.
  exists cdp, l0. rewrite Hok. f_equal. f_equal.
  destruct cid as [|[k v] [|[k' v'] rest]].
  - discriminate Hg0.
  - assert (k = l0) by (apply Hkeys; left; reflexivity). subst k.
    unfold nget in Hg0. cbn [Dict.get] in Hg0. rewrite Nat.eqb_refl in Hg0.
    congruence.
  - exfalso.
    assert (k = l0) by (apply Hkeys; left; reflexivity).
    assert (k' = l0) by (apply Hkeys; right; left; reflexivity).
    subst. inversion Hnd as [|? ? Hnotin _]. apply Hnotin. left. reflexivity.
Qed.

Lemma X27_all_within_epsilon_one_component_witness :
  exists cdp l,
    fst (Persistence.obtain_connected_components
           ([0; 1; 2]%nat, ["a"; "b"; "c"])
           (Persistence.mk_ripser [] Persistence.scenario_C) 2)
    = Ok (cdp, [(l, ["a"; "b"; "c"])]).
Proof.
  apply (@X27_all_within_epsilon_one_component nat string [0; 1; 2]%nat
           ["a"; "b"; "c"] [] Persistence.scenario_C 2); try reflexivity.
  - discriminate.
  - intros i j Hi Hj. simpl in Hi, Hj.
    destruct i as [|[|[|i]]]; [| | |lia];
      destruct j as [|[|[|j]]]; try lia; reflexivity.
Defined.

Lemma isolated_connected (m : matrix) (epsilon : Q) (i j : nat) :
  (forall k, (k < List.length m)%nat -> k <> i ->
     Qle_bool (entry m i k) epsilon = false
     /\ Qle_bool (entry m k i) epsilon = false) ->
  Persistence.connected m epsilon i j -> j = i.
Proof.
  intros Hiso H. apply clos_rt_rtn1 in H.
  induction H as [|y z (_ & Hz & Hyz) _ IH]; [reflexivity|]. subst y.
  destruct (Nat.eq_dec z i) as [|Hne]; [assumption|].
  destruct (Hiso z Hz Hne) as [H1 H2]. destruct Hyz; congruence.
Qed.

(** X28: an index whose distances to and from every other index are all
    above epsilon stays alone: nothing else is in the component of its
    identifier. *)
Theorem X28_isolated_index_is_alone (DP ID : Type)
    (data_points : list DP) (identifiers : list ID)
    (diagrams : list (list (Q * option Q))) (m : matrix) (epsilon : Q)
    (i : nat) (x : ID) :
  is_square m = true ->
  List.length identifiers = List.length m ->
  List.length data_points = List.length m ->
  NoDup identifiers ->
  nth_error identifiers i = Some x ->
  (forall k, (k < List.length m)%nat -> k <> i ->
     Qle_bool (entry m i k) epsilon = false
     /\ Qle_bool (entry m k i) epsilon = false) ->
  exists cdp cid,
    fst (Persistence.obtain_connected_components
           (data_points, identifiers)
           (Persistence.mk_ripser diagrams m) epsilon) = Ok (cdp, cid)
    /\ (exists l comp, nget cid l = Some comp /\ In x comp)
    /\ forall l comp y, nget cid l = Some comp -> In x comp -> In y comp -> y = x.
Proof.
  intros Hsq Hid Hdp Hnodup Hx Hiso.
  assert (Hm : m <> []).
  { intros ->. destruct identifiers; [destruct i; discriminate Hx | discriminate Hid]. }
  destruct (@component_membership DP ID data_points identifiers diagrams m epsilon
              Hsq Hm Hid Hdp)
    as (labels & cdp & cid & Hok & Hlen & Hlab & Hcomp & Hat & _).
  exists cdp, cid. split; [exact Hok|]. split.
  - destruct (Hat i x Hx) as [Hg Hin]. eauto.
  - intros l comp y Hget Hxc Hyc.
    rewrite (Hcomp l comp Hget) in Hxc, Hyc.
    apply in_members in Hxc, Hyc.
    destruct Hxc as (i' & Hli & Hxi). destruct Hyc as (j & Hlj & Hyj).
    assert (i' = i).
    { apply (proj1 (NoDup_nth_error identifiers) Hnodup).
      - apply nth_error_Some. congruence.
      - congruence. }
    subst i'.
    assert (Hi : (i < List.length m)%nat)
      by (rewrite <- Hid; apply nth_error_Some; congruence).
    assert (Hj : (j < List.length m)%nat)
      by (rewrite <- Hid; apply nth_error_Some; congruence).
    assert (Hc : Persistence.connected m epsilon i j).
    { apply Hlab; [exact Hi | exact Hj|].
      rewrite (nth_error_nth _ _ 0%nat Hli), (nth_error_nth _ _ 0%nat Hlj).
      reflexivity. }
    apply (isolated_connected Hiso) in Hc. subst j. congruence.
Qed.

Lemma X28_isolated_index_is_alone_witness :
  exists cdp cid,
    fst (Persistence.obtain_connected_components
           ([0; 1; 2]%nat, ["a"; "b"; "c"])
           (Persistence.mk_ripser [] Persistence.scenario_C) (6 # 10)) = Ok (cdp, cid)
    /\ (exists l comp, nget cid l = Some comp /\ In "c" comp)
    /\ forall l comp y, nget cid l = Some comp -> In "c" comp -> In y comp -> y = "c".
Proof.
  apply (@X28_isolated_index_is_alone nat string [0; 1; 2]%nat ["a"; "b"; "c"]
           [] Persistence.scenario_C (6 # 10) 2%nat "c"); try reflexivity.
  - repeat constructor; simpl; intuition discriminate.
  - intros k Hlt Hk. simpl in Hlt.
    destruct k as [|[|[|k]]]; [split; reflexivity | split; reflexivity | lia | lia].
Defined.

(** ** Component extraction: calling twice, and the order of members *)

Lemma zero_size_threshold (epsilon : Q) (m : matrix) :
  Persistence.is_zero_size (Persistence.threshold epsilon m)
  = Persistence.is_zero_size m.
Proof.
  unfold Persistence.is_zero_size, Persistence.threshold.
  rewrite <- concat_map. destruct (List.concat m); reflexivity.
Qed.

Lemma threshold_twice (epsilon : Q) (x : Q) :
  Qle 0 epsilon -> Qlt epsilon 1 ->
  Persistence.threshold_element epsilon (Persistence.threshold_element epsilon x)
  = if Qle_bool x epsilon then 0%Q else 1%Q.
Proof.
  intros H0 H1. unfold Persistence.threshold_element.
  destruct (Qle_bool x epsilon).
  - destruct (Qle_bool 1 epsilon) eqn:E; [|reflexivity].
    apply Qle_bool_iff in E. exfalso. exact (Qlt_not_le _ _ H1 E).
  - replace (Qle_bool 0 epsilon) with true
      by (symmetry; apply Qle_bool_iff; exact H0).
    reflexivity.
Qed.

(** X29: because the first call leaves the matrix thresholded, a second
    call on the same engine result with the same epsilon, 0 <= epsilon < 1,
    works on the opposite graph: after it the matrix holds 0 where the
    original distance was within epsilon and 1 where it was not. *)
Theorem X29_second_call_inverts_the_graph (DP ID : Type)
    (data_collection data_collection' : list DP * list ID)
    (persistence : Persistence.ripser_result) (epsilon : Q) :
  Qle 0 epsilon -> Qlt epsilon 1 ->
  Persistence.dperm2all
    (snd (Persistence.obtain_connected_components data_collection'
            (snd (Persistence.obtain_connected_components
                    data_collection persistence epsilon))
            epsilon))
  = map (map (fun element => if Qle_bool element epsilon then 0%Q else 1%Q))
        (Persistence.dperm2all persistence).
Proof.
  intros H0 H1.
  destruct data_collection as [dps ids]. destruct data_collection' as [dps' ids'].
  unfold Persistence.obtain_connected_components.
  destruct (Persistence.is_zero_size (Persistence.dperm2all persistence)) eqn:E;
    cbn [snd Persistence.dperm2all Persistence.dgms].
  - rewrite E. cbn [snd]. symmetry. apply zero_size_map_id, E.
  - replace (Persistence.is_zero_size
               (Persistence.threshold epsilon (Persistence.dperm2all persistence)))
      with false.
    + cbn [snd Persistence.dperm2all].
      unfold Persistence.threshold. rewrite map_map.
      apply map_ext. intro row. rewrite map_map.
      apply map_ext. intro x. apply threshold_twice; assumption.
    + symmetry. rewrite <- E. apply zero_size_threshold.
Qed.

Lemma X29_second_call_inverts_the_graph_witness :
  Persistence.dperm2all
    (snd (Persistence.obtain_connected_components ([0; 1; 2]%nat, ["a"; "b"; "c"])
            (snd (Persistence.obtain_connected_components
                    ([0; 1; 2]%nat, ["a"; "b"; "c"])
                    (Persistence.mk_ripser [] Persistence.scenario_C) (6 # 10)))
            (6 # 10)))
  = map (map (fun element => if Qle_bool element (6 # 10) then 0%Q else 1%Q))
        (Persistence.dperm2all (Persistence.mk_ripser [] Persistence.scenario_C)).
Proof.
  apply (@X29_second_call_inverts_the_graph nat string
           ([0; 1; 2]%nat, ["a"; "b"; "c"]) ([0; 1; 2]%nat, ["a"; "b"; "c"])
           (Persistence.mk_ripser [] Persistence.scenario_C) (6 # 10));
    [discriminate | reflexivity].
Defined.

Lemma members_order (A : Type) (labels : list nat) (xs : list A) (l : nat)
      (p q : nat) (x y : A) :
  (p < q)%nat ->
  nth_error (Persistence.members labels xs l) p = Some x ->
  nth_error (Persistence.members labels xs l) q = Some y ->
  exists i j, (i < j)%nat /\ nth_error xs i = Some x /\ nth_error xs j = Some y.
Proof.
  revert xs p q.
  induction labels as [|k labels IH]; intros [|x0 xs] p q Hpq;
    cbn [Persistence.members]; try (destruct p; discriminate).
  assert (Hshift : forall p' q', (p' < q')%nat ->
             nth_error (Persistence.members labels xs l) p' = Some x ->
             nth_error (Persistence.members labels xs l) q' = Some y ->
             exists i j, (i < j)%nat /\ nth_error (x0 :: xs) i = Some x
                         /\ nth_error (x0 :: xs) j = Some y).
  { intros p' q' H Hx Hy. destruct (IH xs p' q' H Hx Hy) as (i & j & Hij & Hi & Hj).
    exists (S i), (S j). split; [lia | split; assumption]. }
  destruct (Nat.eqb l k); [|apply Hshift, Hpq].
  destruct q as [|q]; [lia|]. destruct p as [|p].
  - cbn [nth_error]. intros [= <-] Hy.
    apply nth_error_In, in_members in Hy. destruct Hy as (j & _ & Hj).
    exists 0%nat, (S j). split; [lia | split; [reflexivity | exact Hj]].
  - cbn [nth_error]. apply Hshift. lia.
Qed.

(** X30: on a square matrix that is not empty, with one identifier and
    one data point per row, no component is empty, and inside a component
    the identifiers keep the order they have in the identifier list. *)
Theorem X30_components_keep_order (DP ID : Type)
    (data_points : list DP) (identifiers : list ID)
    (diagrams : list (list (Q * option Q))) (m : matrix) (epsilon : Q) :
  is_square m = true ->
  m <> [] ->
  List.length identifiers = List.length m ->
  List.length data_points = List.length m ->
  exists cdp cid,
    fst (Persistence.obtain_connected_components
           (data_points, identifiers)
           (Persistence.mk_ripser diagrams m) epsilon) = Ok (cdp, cid)
    /\ forall l comp,
         nget cid l = Some comp ->
         comp <> []
         /\ forall p q x y,
              (p < q)%nat ->
              nth_error comp p = Some x -> nth_error comp q = Some y ->
              exists i j, (i < j)%nat
                          /\ nth_error identifiers i = Some x
                          /\ nth_error identifiers j = Some y.
Proof.
  intros Hsq Hne Hid Hdp.
  destruct (@component_membership DP ID data_points identifiers diagrams m epsilon
              Hsq Hne Hid Hdp)
    as (labels & cdp & cid & Hok & _ & _ & Hcomp & _ & _).
  exists cdp, cid. split; [exact Hok|].
  intros l comp Hget. split; [eapply obtain_nonempty; [exact Hok | exact Hget]|].
  rewrite (Hcomp l comp Hget). intros p q x y. apply members_order.
Qed.

Lemma X30_components_keep_order_witness :
  exists cdp cid,
    fst (Persistence.obtain_connected_components
           ([0; 1; 2]%nat, ["a"; "b"; "c"])
           (Persistence.mk_ripser [] Persistence.scenario_C) (6 # 10)) = Ok (cdp, cid)
    /\ forall l comp,
         nget cid l = Some comp ->
         comp <> []
         /\ forall p q x y,
              (p < q)%nat ->
              nth_error comp p = Some x -> nth_error comp q = Some y ->
              exists i j, (i < j)%nat
                          /\ nth_error ["a"; "b"; "c"] i = Some x
                          /\ nth_error ["a"; "b"; "c"] j = Some y.
Proof.
  apply (@X30_components_keep_order nat string [0; 1; 2]%nat ["a"; "b"; "c"]
           [] Persistence.scenario_C (6 # 10));
    [reflexivity | discriminate | reflexivity | reflexivity].
Defined.
